(** * The audio engine of vibe-experiment, embedded in Rocq

    A shallow embedding of [src/services/audioEngine.ts] (class
    [AudioEngine]) and of the track document of the types file, followed
    by the properties of the engine that the specification states.

    Reading guide.
    - [Js]          : the numbers and values of the host language.
    - [Track]       : the track document ([TrackData]) and the note table.
    - [WebAudio]    : what the engine asks of the audio device: the
                      requests a voice makes while it builds its chain,
                      and the automation timeline of a parameter of a
                      long-lived node.
    - [AudioEngine] : the class itself, method by method.
    - [Observe]     : how the properties read what the engine did.
    - [SpecWords]   : the formulas and signal paths of the specification.
    - [Demo]        : one concrete session, for the examples.
    - [Binary64]    : the rationals that binary64 numbers are, for the
                      error bounds of the clock.
    - [Session]     : the states the engine reaches, and its callers'
                      view of a run.
    - [Gemini], [Grid], [Overlay], [Live] : the parts of the callers that
                      feed the engine or show its track.

    Where the model stops.  A voice is the list of requests its trigger
    function makes, with the numbers it passes; whether the device then
    accepts each number (finite, in range) is the device's business and
    is not modelled.  The one failure that is modelled is the engine
    handing the device something that is not a number at all.  Noise
    buffers are requested by length; their random content is not
    modelled. *)

From Stdlib Require Import ZArith QArith Qpower Qabs Qround List String Bool.
From Stdlib Require Import Arith.
From Stdlib Require Import Lia Lqa.
From Stdlib Require Import Floats Uint63.
Import ListNotations.

Set Implicit Arguments.

(* ================================================================== *)
(** ** Host-language numbers and values *)
(* ================================================================== *)

Module Js.

(** Every number of the engine is a JavaScript [number].  The engine is
    written once over the operations it uses on them; the operations are
    then given twice: on IEEE binary64 ([float], what the program runs on)
    and on exact rationals ([Q], the arithmetic in which the specification
    writes its formulas). *)
Class JsNumber (N : Type) : Type := {
  nadd : N -> N -> N;
  nsub : N -> N -> N;
  nmul : N -> N -> N;
  ndiv : N -> N -> N;
  nltb : N -> N -> bool;           (* a < b *)
  Math_max : N -> N -> N;
  Math_min : N -> N -> N;
  lit : Q -> N;                    (* a decimal literal of the source *)
  ToBoolean_number : N -> bool     (* truthiness: neither 0 nor NaN *)
}.

Arguments lit {N _} q%_Q.

Declare Scope js_scope.
Delimit Scope js_scope with js.
Notation "x + y" := (nadd x y) : js_scope.
Notation "x - y" := (nsub x y) : js_scope.
Notation "x * y" := (nmul x y) : js_scope.
Notation "x / y" := (ndiv x y) : js_scope.
Notation "x <? y" := (nltb x y) : js_scope.

(** *** IEEE binary64 *)

Definition float_of_Z (z : Z) : float :=
  match z with
  | Z0 => PrimFloat.zero
  | Zpos _ => PrimFloat.of_uint63 (Uint63.of_Z z)
  | Zneg p => PrimFloat.opp (PrimFloat.of_uint63 (Uint63.of_Z (Zpos p)))
  end.

(** A decimal literal [n/d] denotes the binary64 number nearest to it,
    which the correctly rounded quotient of the two integers is. *)
Definition float_lit (q : Q) : float :=
  PrimFloat.div (float_of_Z (Qnum q)) (float_of_Z (Zpos (Qden q))).

(** [Math.max] and [Math.min]: NaN if an argument is NaN, and [-0 < +0]. *)
Definition float_max (a b : float) : float :=
  match PrimFloat.compare a b with
  | FNotComparable => PrimFloat.nan
  | FLt => b
  | FGt => a
  | FEq => match PrimFloat.classify a with NZero => b | _ => a end
  end.

Definition float_min (a b : float) : float :=
  match PrimFloat.compare b a with
  | FNotComparable => PrimFloat.nan
  | FLt => b
  | FGt => a
  | FEq => match PrimFloat.classify a with PZero => b | _ => a end
  end.

Definition float_truthy (x : float) : bool :=
  negb (PrimFloat.eqb x PrimFloat.zero || PrimFloat.is_nan x).

#[export] Instance float_JsNumber : JsNumber float := {|
  nadd := PrimFloat.add;
  nsub := PrimFloat.sub;
  nmul := PrimFloat.mul;
  ndiv := PrimFloat.div;
  nltb := PrimFloat.ltb;
  Math_max := float_max;
  Math_min := float_min;
  lit := float_lit;
  ToBoolean_number := float_truthy
|}.

(** *** Exact rationals *)

Definition Q_ltb (a b : Q) : bool := negb (Qle_bool b a).
Definition Q_max (a b : Q) : Q := if Qle_bool a b then b else a.
Definition Q_min (a b : Q) : Q := if Qle_bool a b then a else b.

#[export] Instance Q_JsNumber : JsNumber Q := {|
  nadd := Qplus;
  nsub := Qminus;
  nmul := Qmult;
  ndiv := Qdiv;
  nltb := Q_ltb;
  Math_max := Q_max;
  Math_min := Q_min;
  lit := fun q => q;
  ToBoolean_number := fun q => negb (Qeq_bool q 0)
|}.

(** *** Values

    The values that can come out of a property read on the note table: a
    number, a function or an object inherited from [Object.prototype], or
    [undefined]. *)
Inductive JsValue (N : Type) : Type :=
| JNum (x : N)
| JFunction (name : string)
| JObject (name : string)
| JUndefined.

Arguments JNum {N} x.
Arguments JFunction {N} name.
Arguments JObject {N} name.
Arguments JUndefined {N}.

Definition ToBoolean {N} `{JsNumber N} (v : JsValue N) : bool :=
  match v with
  | JNum x => ToBoolean_number x
  | JFunction _ => true
  | JObject _ => true
  | JUndefined => false
  end.

(** What does not convert to a finite number. *)
Definition not_a_number {N} (v : JsValue N) : Prop :=
  match v with JNum _ => False | _ => True end.

(** Truthiness of a [string | null] slot: [null] and the empty string are
    falsy. *)
Definition ToBoolean_slot (s : option string) : bool :=
  match s with
  | None => false
  | Some str => negb (String.eqb str EmptyString)
  end.

(** Truthiness of [a[i]] for an array of booleans: an index past the end
    reads [undefined]. *)
Definition ToBoolean_at (a : list bool) (i : nat) : bool :=
  match nth_error a i with
  | Some b => b
  | None => false
  end.

Fixpoint assoc {A} (k : string) (l : list (string * A)) : option A :=
  match l with
  | [] => None
  | (k', v) :: r => if String.eqb k k' then Some v else assoc k r
  end.

(** The properties every object literal inherits. *)
Definition Object_prototype {N} : list (string * JsValue N) :=
  [ ("constructor", JFunction "Object");
    ("hasOwnProperty", JFunction "hasOwnProperty");
    ("isPrototypeOf", JFunction "isPrototypeOf");
    ("propertyIsEnumerable", JFunction "propertyIsEnumerable");
    ("toLocaleString", JFunction "toLocaleString");
    ("toString", JFunction "toString");
    ("valueOf", JFunction "valueOf");
    ("__defineGetter__", JFunction "__defineGetter__");
    ("__defineSetter__", JFunction "__defineSetter__");
    ("__lookupGetter__", JFunction "__lookupGetter__");
    ("__lookupSetter__", JFunction "__lookupSetter__");
    ("__proto__", JObject "Object.prototype") ]%string.

(** [obj[k]] for an object literal [obj] whose own properties are numbers:
    the own property if there is one, else what the prototype has. *)
Definition get {N} `{JsNumber N} (own : list (string * Q)) (k : string)
  : JsValue N :=
  match assoc k own with
  | Some q => JNum (lit q)
  | None =>
      match assoc k Object_prototype with
      | Some v => v
      | None => JUndefined
      end
  end.

End Js.
Export Js.

(* ================================================================== *)
(** ** The track document *)
(* ================================================================== *)

Module Track.

Inductive Waveform := sawtooth | square | sine | triangle.

Inductive SoundEffect :=
| cat | dog | bird | water | thunder | traffic | wind | machinery | people
| none.

Definition is_none (s : SoundEffect) : bool :=
  match s with none => true | _ => false end.

Section Doc.
Context {N : Type}.

Record SynthSettings := {
  waveform : Waveform;
  cutoff : N;
  resonance : N;
  attack : N;
  decay : N
}.

Record BassSettings := {
  bass_waveform : Waveform;
  filterFreq : N
}.

Record DrumSettings := {
  kickPunch : N;
  hatBright : N
}.

(** [sfx] is declared mandatory and [custom] optional; the dispatcher
    guards both, so both may be absent here. *)
Record Sequences := {
  kick : list bool;
  hat : list bool;
  bass : list (option string);
  lead : list (option string);
  sfx : option (list bool);
  custom : option (list bool)
}.

Record TrackData := {
  bpm : N;
  key : string;
  mood : string;
  visualSummary : string;
  soundEffect : option SoundEffect;
  synthSettings : SynthSettings;
  bassSettings : BassSettings;
  drumSettings : DrumSettings;
  sequences : Sequences
}.

End Doc.

Arguments SynthSettings : clear implicits.
Arguments BassSettings : clear implicits.
Arguments DrumSettings : clear implicits.
Arguments TrackData : clear implicits.

End Track.
Export Track.

(** The note table, as the source writes it. *)
Definition NOTE_FREQS : list (string * Q) :=
  [ ("C1", 32.70); ("C#1", 34.65); ("D1", 36.71); ("D#1", 38.89);
    ("E1", 41.20); ("F1", 43.65); ("F#1", 46.25); ("G1", 49.00);
    ("G#1", 51.91); ("A1", 55.00); ("A#1", 58.27); ("B1", 61.74);
    ("C2", 65.41); ("C#2", 69.30); ("D2", 73.42); ("D#2", 77.78);
    ("E2", 82.41); ("F2", 87.31); ("F#2", 92.50); ("G2", 98.00);
    ("G#2", 103.83); ("A2", 110.00); ("A#2", 116.54); ("B2", 123.47);
    ("C3", 130.81); ("C#3", 138.59); ("D3", 146.83); ("D#3", 155.56);
    ("E3", 164.81); ("F3", 174.61); ("F#3", 185.00); ("G3", 196.00);
    ("G#3", 207.65); ("A3", 220.00); ("A#3", 233.08); ("B3", 246.94);
    ("C4", 261.63); ("C#4", 277.18); ("D4", 293.66); ("D#4", 311.13);
    ("E4", 329.63); ("F4", 349.23); ("F#4", 369.99); ("G4", 392.00);
    ("G#4", 415.30); ("A4", 440.00); ("A#4", 466.16); ("B4", 493.88);
    ("C5", 523.25); ("C#5", 554.37); ("D5", 587.33); ("D#5", 622.25);
    ("E5", 659.25); ("F5", 698.46); ("F#5", 739.99); ("G5", 783.99);
    ("G#5", 830.61); ("A5", 880.00); ("A#5", 932.33); ("B5", 987.77)
  ]%string%Q.

(* ================================================================== *)
(** ** The audio device, as the engine sees it *)
(* ================================================================== *)

Module WebAudio.

(** The long-lived nodes that [init] builds and the engine keeps in its
    fields, plus the two sinks of the device. *)
Inductive SharedNode :=
| MasterGain | MasterFilter | Compressor | Analyser
| ReverbNode | ReverbSend
| DelayNode | DelayFeedback | DelaySend
| DistortionNode | DistortionSend
| Destination | RecordingDest.

(** A node is named either by the local variable that holds it while a
    voice is built, or as one of the long-lived nodes. *)
Inductive NodeRef :=
| Local (name : string)
| Shared (n : SharedNode).

Inductive ParamName := p_frequency | p_Q | p_gain | p_delayTime.

(** What [connect] feeds: the input of a node, or one of its parameters. *)
Inductive Port :=
| Input (n : NodeRef)
| Param (n : NodeRef) (p : ParamName).

Inductive NodeKind := Oscillator | Gain | BiquadFilter | Delay | BufferSource.

Inductive FilterType := lowpass | highpass | bandpass.

Inductive ContextState := suspended | running | closed.

(** The exceptions the engine meets: a parameter is assigned something
    that does not convert to a finite number ([TypeError]), or the device
    rejects the data it is asked to decode ([EncodingError]). *)
Inductive Exn :=
| TypeError (what : string)
| EncodingError (what : string).

Section Device.
Context {N : Type} `{JsNumber N}.

Record AudioContext := {
  currentTime : N;
  sampleRate : N;
  state : ContextState
}.

Record AudioBuffer := {
  buffer_sampleRate : N;
  channelData : list (list N)
}.

Inductive BufferRef :=
| LocalBuffer (name : string)
| Decoded (b : AudioBuffer).

(** *** Requests made while a voice is built

    One constructor per kind of statement the voice functions contain; a
    voice is the list of its requests, in program order. *)
Inductive Cmd :=
| Create (name : string) (k : NodeKind)
    (* const name = ctx.createK() *)
| CreateNoiseBuffer (name : string) (length : N) (rate : N)
    (* ctx.createBuffer(1, length, rate), filled with Math.random()*2-1 *)
| CreatePinkNoiseBuffer (name : string) (length : N) (rate : N)
    (* the same, the random samples passed through the pink filter *)
| SetBuffer (name : string) (b : BufferRef)          (* name.buffer = b *)
| SetOscType (name : string) (w : Waveform)          (* name.type = w *)
| SetFilterType (name : string) (t : FilterType)     (* name.type = t *)
| SetValue (n : NodeRef) (p : ParamName) (v : N)     (* n.p.value = v *)
| SetValueAtTime (n : NodeRef) (p : ParamName) (v t : N)
| LinearRampToValueAtTime (n : NodeRef) (p : ParamName) (v t : N)
| ExponentialRampToValueAtTime (n : NodeRef) (p : ParamName) (v t : N)
| Connect (src : NodeRef) (dst : Port)               (* src.connect(dst) *)
| Start (name : string) (t : N)                      (* name.start(t) *)
| Stop (name : string) (t : N).                      (* name.stop(t) *)

(** *** Running code that logs and may throw

    [Run L A]: the entries logged so far, and either the exception that
    stopped the run or its result. *)
Definition Run (L A : Type) : Type := (list L * (Exn + A))%type.

Definition ret {L A} (a : A) : Run L A := ([], inr a).

Definition throw {L A} (e : Exn) : Run L A := ([], inl e).

Definition log {L} (x : L) : Run L unit := ([x], inr tt).

Definition bind {L A B} (m : Run L A) (k : A -> Run L B) : Run L B :=
  match m with
  | (l, inl e) => (l, inl e)
  | (l, inr a) => let (l', r) := k a in (l ++ l', r)
  end.

Definition when {L} (b : bool) (m : Run L unit) : Run L unit :=
  if b then m else ret tt.

Definition logged {L A} (m : Run L A) : list L := fst m.

Definition outcome {L A} (m : Run L A) : Exn + A := snd m.

(** [n.p.value = v] where [v] is whatever the caller passed.  The
    attribute is a float: a function or an object converts to NaN, which
    the attribute refuses, and the assignment throws.  A number is stored
    and returned. *)
Definition assign_value (n : NodeRef) (p : ParamName) (v : JsValue N)
  : Run Cmd N :=
  match v with
  | JNum x => ([SetValue n p x], inr x)
  | JFunction _ | JObject _ | JUndefined =>
      throw (TypeError "The provided float value is non-finite")
  end.

(** *** The automation timeline of a parameter of a long-lived node

    The value the control thread reads, and the events scheduled on the
    parameter, in the order they were scheduled. *)
Inductive AutomationEvent :=
| SetValueEvent (v t : N)
| LinearRampEvent (v t : N)
| ExponentialRampEvent (v t : N)
| SetTargetEvent (target t timeConstant : N).

Definition event_time (ev : AutomationEvent) : N :=
  match ev with
  | SetValueEvent _ t => t
  | LinearRampEvent _ t => t
  | ExponentialRampEvent _ t => t
  | SetTargetEvent _ t _ => t
  end.

Definition event_value (ev : AutomationEvent) : N :=
  match ev with
  | SetValueEvent v _ => v
  | LinearRampEvent v _ => v
  | ExponentialRampEvent v _ => v
  | SetTargetEvent v _ _ => v
  end.

Record AudioParam := {
  value : N;
  events : list AutomationEvent
}.

Definition new_param (v : N) : AudioParam := {| value := v; events := [] |}.

Definition schedule (ev : AutomationEvent) (p : AudioParam) : AudioParam :=
  {| value := value p; events := events p ++ [ev] |}.

(** Removes every event whose time is at or after [cancelTime]: the ones
    strictly before it stay. *)
Definition cancelScheduledValues (cancelTime : N) (p : AudioParam)
  : AudioParam :=
  {| value := value p;
     events := filter (fun ev => (event_time ev <? cancelTime)%js) (events p) |}.

Definition setValueAtTime (v t : N) := schedule (SetValueEvent v t).
Definition linearRampToValueAtTime (v t : N) := schedule (LinearRampEvent v t).
Definition exponentialRampToValueAtTime (v t : N) :=
  schedule (ExponentialRampEvent v t).
Definition setTargetAtTime (v t c : N) := schedule (SetTargetEvent v t c).

(** *** The long-lived nodes *)

Record GainNode := { gain : AudioParam }.

Record BiquadFilterNode := {
  filter_type : FilterType;
  frequency : AudioParam;
  Q_ : AudioParam
}.

Record DynamicsCompressorNode := {
  threshold : AudioParam;
  ratio : AudioParam
}.

Record AnalyserNode := { fftSize : nat }.

(** The impulse response is noise shaped by [(remaining/length)^decay];
    only its two arguments are kept. *)
Record ConvolverNode := {
  impulse_duration : N;
  impulse_decay : N
}.

Record DelayNodeT := { delayTime : AudioParam }.

(** The curve is [makeDistortionCurve(amount)]; only the amount is kept. *)
Record WaveShaperNode := { curve_amount : N }.

End Device.

Arguments AudioContext : clear implicits.
Arguments AudioBuffer : clear implicits.
Arguments BufferRef : clear implicits.
Arguments Cmd : clear implicits.
Arguments AutomationEvent : clear implicits.
Arguments AudioParam : clear implicits.
Arguments GainNode : clear implicits.
Arguments BiquadFilterNode : clear implicits.
Arguments DynamicsCompressorNode : clear implicits.
Arguments ConvolverNode : clear implicits.
Arguments DelayNodeT : clear implicits.
Arguments WaveShaperNode : clear implicits.

Declare Scope run_scope.
Delimit Scope run_scope with run.
Notation "x <- m ;; k" := (bind m (fun x => k))
  (at level 61, m at next level, right associativity) : run_scope.
Notation "m ;; k" := (bind m (fun _ => k))
  (at level 61, right associativity) : run_scope.

End WebAudio.
Export WebAudio.

(* ================================================================== *)
(** ** The engine *)
(* ================================================================== *)

Module AudioEngine.

Definition ArrayBuffer := list Byte.byte.
Definition Blob := list Byte.byte.

(** The recorder, as far as the engine's own state goes: the options it
    was made with and whether it is recording. *)
Record MediaRecorderOptions := {
  mimeType : string;
  audioBitsPerSecond : Z
}.

Record MediaRecorder := {
  options : option MediaRecorderOptions;
  recording : bool
}.

Inductive MediaStreamDestination := MediaStream.

(** The step observer: a handle on the function the host registered. *)
Definition Callback := nat.

Section Engine.
Context {N : Type} `{JsNumber N}.

Local Open Scope js_scope.
Local Open Scope run_scope.
Local Open Scope string_scope.

(** The fields of the class, in the order the source declares them.
    [wiring] is the one addition: the connections [init] makes between the
    long-lived nodes, which the device holds. *)
Record Engine := {
  ctx : option (AudioContext N);
  masterGain : option (GainNode N);
  masterFilter : option (BiquadFilterNode N);
  compressor : option (DynamicsCompressorNode N);
  analyser : option AnalyserNode;
  reverbNode : option (ConvolverNode N);
  reverbSend : option (GainNode N);
  delayNode : option (DelayNodeT N);
  delayFeedback : option (GainNode N);
  delaySend : option (GainNode N);
  distortionNode : option (WaveShaperNode N);
  distortionSend : option (GainNode N);
  wiring : list (SharedNode * SharedNode);
  nextNoteTime : N;
  currentStep : nat;
  timerID : option nat;
  isPlaying : bool;
  trackData : option (TrackData N);
  mediaRecorder : option MediaRecorder;
  dest : option MediaStreamDestination;
  recordedChunks : list Blob;
  customBuffer : option (AudioBuffer N);
  isCustomMuted : bool;
  tempoModifier : N;
  bassDistortionActive : bool;
  onStep : option Callback
}.

(** Field updates ([this.f = v]). *)
Definition set_ctx (v : option (AudioContext N)) (e : Engine) : Engine :=
  {| ctx := v; masterGain := masterGain e; masterFilter := masterFilter e;
     compressor := compressor e; analyser := analyser e; reverbNode :=
     reverbNode e; reverbSend := reverbSend e; delayNode := delayNode e;
     delayFeedback := delayFeedback e; delaySend := delaySend e;
     distortionNode := distortionNode e; distortionSend := distortionSend
     e; wiring := wiring e; nextNoteTime := nextNoteTime e; currentStep :=
     currentStep e; timerID := timerID e; isPlaying := isPlaying e;
     trackData := trackData e; mediaRecorder := mediaRecorder e; dest :=
     dest e; recordedChunks := recordedChunks e; customBuffer :=
     customBuffer e; isCustomMuted := isCustomMuted e; tempoModifier :=
     tempoModifier e; bassDistortionActive := bassDistortionActive e;
     onStep := onStep e |}.

Definition set_masterGain (v : option (GainNode N)) (e : Engine) : Engine :=
  {| ctx := ctx e; masterGain := v; masterFilter := masterFilter e;
     compressor := compressor e; analyser := analyser e; reverbNode :=
     reverbNode e; reverbSend := reverbSend e; delayNode := delayNode e;
     delayFeedback := delayFeedback e; delaySend := delaySend e;
     distortionNode := distortionNode e; distortionSend := distortionSend
     e; wiring := wiring e; nextNoteTime := nextNoteTime e; currentStep :=
     currentStep e; timerID := timerID e; isPlaying := isPlaying e;
     trackData := trackData e; mediaRecorder := mediaRecorder e; dest :=
     dest e; recordedChunks := recordedChunks e; customBuffer :=
     customBuffer e; isCustomMuted := isCustomMuted e; tempoModifier :=
     tempoModifier e; bassDistortionActive := bassDistortionActive e;
     onStep := onStep e |}.

Definition set_masterFilter (v : option (BiquadFilterNode N)) (e : Engine) : Engine :=
  {| ctx := ctx e; masterGain := masterGain e; masterFilter := v;
     compressor := compressor e; analyser := analyser e; reverbNode :=
     reverbNode e; reverbSend := reverbSend e; delayNode := delayNode e;
     delayFeedback := delayFeedback e; delaySend := delaySend e;
     distortionNode := distortionNode e; distortionSend := distortionSend
     e; wiring := wiring e; nextNoteTime := nextNoteTime e; currentStep :=
     currentStep e; timerID := timerID e; isPlaying := isPlaying e;
     trackData := trackData e; mediaRecorder := mediaRecorder e; dest :=
     dest e; recordedChunks := recordedChunks e; customBuffer :=
     customBuffer e; isCustomMuted := isCustomMuted e; tempoModifier :=
     tempoModifier e; bassDistortionActive := bassDistortionActive e;
     onStep := onStep e |}.

Definition set_reverbSend (v : option (GainNode N)) (e : Engine) : Engine :=
  {| ctx := ctx e; masterGain := masterGain e; masterFilter :=
     masterFilter e; compressor := compressor e; analyser := analyser e;
     reverbNode := reverbNode e; reverbSend := v; delayNode := delayNode
     e; delayFeedback := delayFeedback e; delaySend := delaySend e;
     distortionNode := distortionNode e; distortionSend := distortionSend
     e; wiring := wiring e; nextNoteTime := nextNoteTime e; currentStep :=
     currentStep e; timerID := timerID e; isPlaying := isPlaying e;
     trackData := trackData e; mediaRecorder := mediaRecorder e; dest :=
     dest e; recordedChunks := recordedChunks e; customBuffer :=
     customBuffer e; isCustomMuted := isCustomMuted e; tempoModifier :=
     tempoModifier e; bassDistortionActive := bassDistortionActive e;
     onStep := onStep e |}.

Definition set_delaySend (v : option (GainNode N)) (e : Engine) : Engine :=
  {| ctx := ctx e; masterGain := masterGain e; masterFilter :=
     masterFilter e; compressor := compressor e; analyser := analyser e;
     reverbNode := reverbNode e; reverbSend := reverbSend e; delayNode :=
     delayNode e; delayFeedback := delayFeedback e; delaySend := v;
     distortionNode := distortionNode e; distortionSend := distortionSend
     e; wiring := wiring e; nextNoteTime := nextNoteTime e; currentStep :=
     currentStep e; timerID := timerID e; isPlaying := isPlaying e;
     trackData := trackData e; mediaRecorder := mediaRecorder e; dest :=
     dest e; recordedChunks := recordedChunks e; customBuffer :=
     customBuffer e; isCustomMuted := isCustomMuted e; tempoModifier :=
     tempoModifier e; bassDistortionActive := bassDistortionActive e;
     onStep := onStep e |}.

Definition set_distortionSend (v : option (GainNode N)) (e : Engine) : Engine :=
  {| ctx := ctx e; masterGain := masterGain e; masterFilter :=
     masterFilter e; compressor := compressor e; analyser := analyser e;
     reverbNode := reverbNode e; reverbSend := reverbSend e; delayNode :=
     delayNode e; delayFeedback := delayFeedback e; delaySend := delaySend
     e; distortionNode := distortionNode e; distortionSend := v; wiring :=
     wiring e; nextNoteTime := nextNoteTime e; currentStep := currentStep
     e; timerID := timerID e; isPlaying := isPlaying e; trackData :=
     trackData e; mediaRecorder := mediaRecorder e; dest := dest e;
     recordedChunks := recordedChunks e; customBuffer := customBuffer e;
     isCustomMuted := isCustomMuted e; tempoModifier := tempoModifier e;
     bassDistortionActive := bassDistortionActive e; onStep := onStep e |}.

Definition set_nextNoteTime (v : N) (e : Engine) : Engine :=
  {| ctx := ctx e; masterGain := masterGain e; masterFilter :=
     masterFilter e; compressor := compressor e; analyser := analyser e;
     reverbNode := reverbNode e; reverbSend := reverbSend e; delayNode :=
     delayNode e; delayFeedback := delayFeedback e; delaySend := delaySend
     e; distortionNode := distortionNode e; distortionSend :=
     distortionSend e; wiring := wiring e; nextNoteTime := v; currentStep
     := currentStep e; timerID := timerID e; isPlaying := isPlaying e;
     trackData := trackData e; mediaRecorder := mediaRecorder e; dest :=
     dest e; recordedChunks := recordedChunks e; customBuffer :=
     customBuffer e; isCustomMuted := isCustomMuted e; tempoModifier :=
     tempoModifier e; bassDistortionActive := bassDistortionActive e;
     onStep := onStep e |}.

Definition set_currentStep (v : nat) (e : Engine) : Engine :=
  {| ctx := ctx e; masterGain := masterGain e; masterFilter :=
     masterFilter e; compressor := compressor e; analyser := analyser e;
     reverbNode := reverbNode e; reverbSend := reverbSend e; delayNode :=
     delayNode e; delayFeedback := delayFeedback e; delaySend := delaySend
     e; distortionNode := distortionNode e; distortionSend :=
     distortionSend e; wiring := wiring e; nextNoteTime := nextNoteTime e;
     currentStep := v; timerID := timerID e; isPlaying := isPlaying e;
     trackData := trackData e; mediaRecorder := mediaRecorder e; dest :=
     dest e; recordedChunks := recordedChunks e; customBuffer :=
     customBuffer e; isCustomMuted := isCustomMuted e; tempoModifier :=
     tempoModifier e; bassDistortionActive := bassDistortionActive e;
     onStep := onStep e |}.

Definition set_timerID (v : option nat) (e : Engine) : Engine :=
  {| ctx := ctx e; masterGain := masterGain e; masterFilter :=
     masterFilter e; compressor := compressor e; analyser := analyser e;
     reverbNode := reverbNode e; reverbSend := reverbSend e; delayNode :=
     delayNode e; delayFeedback := delayFeedback e; delaySend := delaySend
     e; distortionNode := distortionNode e; distortionSend :=
     distortionSend e; wiring := wiring e; nextNoteTime := nextNoteTime e;
     currentStep := currentStep e; timerID := v; isPlaying := isPlaying e;
     trackData := trackData e; mediaRecorder := mediaRecorder e; dest :=
     dest e; recordedChunks := recordedChunks e; customBuffer :=
     customBuffer e; isCustomMuted := isCustomMuted e; tempoModifier :=
     tempoModifier e; bassDistortionActive := bassDistortionActive e;
     onStep := onStep e |}.

Definition set_isPlaying (v : bool) (e : Engine) : Engine :=
  {| ctx := ctx e; masterGain := masterGain e; masterFilter :=
     masterFilter e; compressor := compressor e; analyser := analyser e;
     reverbNode := reverbNode e; reverbSend := reverbSend e; delayNode :=
     delayNode e; delayFeedback := delayFeedback e; delaySend := delaySend
     e; distortionNode := distortionNode e; distortionSend :=
     distortionSend e; wiring := wiring e; nextNoteTime := nextNoteTime e;
     currentStep := currentStep e; timerID := timerID e; isPlaying := v;
     trackData := trackData e; mediaRecorder := mediaRecorder e; dest :=
     dest e; recordedChunks := recordedChunks e; customBuffer :=
     customBuffer e; isCustomMuted := isCustomMuted e; tempoModifier :=
     tempoModifier e; bassDistortionActive := bassDistortionActive e;
     onStep := onStep e |}.

Definition set_trackData (v : option (TrackData N)) (e : Engine) : Engine :=
  {| ctx := ctx e; masterGain := masterGain e; masterFilter :=
     masterFilter e; compressor := compressor e; analyser := analyser e;
     reverbNode := reverbNode e; reverbSend := reverbSend e; delayNode :=
     delayNode e; delayFeedback := delayFeedback e; delaySend := delaySend
     e; distortionNode := distortionNode e; distortionSend :=
     distortionSend e; wiring := wiring e; nextNoteTime := nextNoteTime e;
     currentStep := currentStep e; timerID := timerID e; isPlaying :=
     isPlaying e; trackData := v; mediaRecorder := mediaRecorder e; dest
     := dest e; recordedChunks := recordedChunks e; customBuffer :=
     customBuffer e; isCustomMuted := isCustomMuted e; tempoModifier :=
     tempoModifier e; bassDistortionActive := bassDistortionActive e;
     onStep := onStep e |}.

Definition set_customBuffer (v : option (AudioBuffer N)) (e : Engine) : Engine :=
  {| ctx := ctx e; masterGain := masterGain e; masterFilter :=
     masterFilter e; compressor := compressor e; analyser := analyser e;
     reverbNode := reverbNode e; reverbSend := reverbSend e; delayNode :=
     delayNode e; delayFeedback := delayFeedback e; delaySend := delaySend
     e; distortionNode := distortionNode e; distortionSend :=
     distortionSend e; wiring := wiring e; nextNoteTime := nextNoteTime e;
     currentStep := currentStep e; timerID := timerID e; isPlaying :=
     isPlaying e; trackData := trackData e; mediaRecorder := mediaRecorder
     e; dest := dest e; recordedChunks := recordedChunks e; customBuffer
     := v; isCustomMuted := isCustomMuted e; tempoModifier :=
     tempoModifier e; bassDistortionActive := bassDistortionActive e;
     onStep := onStep e |}.

Definition set_isCustomMuted (v : bool) (e : Engine) : Engine :=
  {| ctx := ctx e; masterGain := masterGain e; masterFilter :=
     masterFilter e; compressor := compressor e; analyser := analyser e;
     reverbNode := reverbNode e; reverbSend := reverbSend e; delayNode :=
     delayNode e; delayFeedback := delayFeedback e; delaySend := delaySend
     e; distortionNode := distortionNode e; distortionSend :=
     distortionSend e; wiring := wiring e; nextNoteTime := nextNoteTime e;
     currentStep := currentStep e; timerID := timerID e; isPlaying :=
     isPlaying e; trackData := trackData e; mediaRecorder := mediaRecorder
     e; dest := dest e; recordedChunks := recordedChunks e; customBuffer
     := customBuffer e; isCustomMuted := v; tempoModifier := tempoModifier
     e; bassDistortionActive := bassDistortionActive e; onStep := onStep e |}.

Definition set_tempoModifier (v : N) (e : Engine) : Engine :=
  {| ctx := ctx e; masterGain := masterGain e; masterFilter :=
     masterFilter e; compressor := compressor e; analyser := analyser e;
     reverbNode := reverbNode e; reverbSend := reverbSend e; delayNode :=
     delayNode e; delayFeedback := delayFeedback e; delaySend := delaySend
     e; distortionNode := distortionNode e; distortionSend :=
     distortionSend e; wiring := wiring e; nextNoteTime := nextNoteTime e;
     currentStep := currentStep e; timerID := timerID e; isPlaying :=
     isPlaying e; trackData := trackData e; mediaRecorder := mediaRecorder
     e; dest := dest e; recordedChunks := recordedChunks e; customBuffer
     := customBuffer e; isCustomMuted := isCustomMuted e; tempoModifier :=
     v; bassDistortionActive := bassDistortionActive e; onStep := onStep e |}.

Definition set_bassDistortionActive (v : bool) (e : Engine) : Engine :=
  {| ctx := ctx e; masterGain := masterGain e; masterFilter :=
     masterFilter e; compressor := compressor e; analyser := analyser e;
     reverbNode := reverbNode e; reverbSend := reverbSend e; delayNode :=
     delayNode e; delayFeedback := delayFeedback e; delaySend := delaySend
     e; distortionNode := distortionNode e; distortionSend :=
     distortionSend e; wiring := wiring e; nextNoteTime := nextNoteTime e;
     currentStep := currentStep e; timerID := timerID e; isPlaying :=
     isPlaying e; trackData := trackData e; mediaRecorder := mediaRecorder
     e; dest := dest e; recordedChunks := recordedChunks e; customBuffer
     := customBuffer e; isCustomMuted := isCustomMuted e; tempoModifier :=
     tempoModifier e; bassDistortionActive := v; onStep := onStep e |}.

Definition set_mediaRecorder (v : option MediaRecorder) (e : Engine) : Engine :=
  {| ctx := ctx e; masterGain := masterGain e; masterFilter :=
     masterFilter e; compressor := compressor e; analyser := analyser e;
     reverbNode := reverbNode e; reverbSend := reverbSend e; delayNode :=
     delayNode e; delayFeedback := delayFeedback e; delaySend := delaySend
     e; distortionNode := distortionNode e; distortionSend :=
     distortionSend e; wiring := wiring e; nextNoteTime := nextNoteTime e;
     currentStep := currentStep e; timerID := timerID e; isPlaying :=
     isPlaying e; trackData := trackData e; mediaRecorder := v; dest :=
     dest e; recordedChunks := recordedChunks e; customBuffer :=
     customBuffer e; isCustomMuted := isCustomMuted e; tempoModifier :=
     tempoModifier e; bassDistortionActive := bassDistortionActive e;
     onStep := onStep e |}.

Definition set_recordedChunks (v : list Blob) (e : Engine) : Engine :=
  {| ctx := ctx e; masterGain := masterGain e; masterFilter :=
     masterFilter e; compressor := compressor e; analyser := analyser e;
     reverbNode := reverbNode e; reverbSend := reverbSend e; delayNode :=
     delayNode e; delayFeedback := delayFeedback e; delaySend := delaySend
     e; distortionNode := distortionNode e; distortionSend :=
     distortionSend e; wiring := wiring e; nextNoteTime := nextNoteTime e;
     currentStep := currentStep e; timerID := timerID e; isPlaying :=
     isPlaying e; trackData := trackData e; mediaRecorder := mediaRecorder
     e; dest := dest e; recordedChunks := v; customBuffer := customBuffer
     e; isCustomMuted := isCustomMuted e; tempoModifier := tempoModifier
     e; bassDistortionActive := bassDistortionActive e; onStep := onStep e |}.

(** The state the constructor leaves: the field initialisers. *)
Definition new_engine : Engine :=
  {| ctx := None; masterGain := None; masterFilter := None;
     compressor := None; analyser := None;
     reverbNode := None; reverbSend := None;
     delayNode := None; delayFeedback := None; delaySend := None;
     distortionNode := None; distortionSend := None;
     wiring := [];
     nextNoteTime := lit 0; currentStep := 0; timerID := None;
     isPlaying := false; trackData := None;
     mediaRecorder := None; dest := None; recordedChunks := [];
     customBuffer := None; isCustomMuted := false;
     tempoModifier := lit 1.0; bassDistortionActive := false;
     onStep := None |}.

(** [init()].  [fresh] is the context that [new AudioContext()] yields.
    The graph is built once; a suspended context is resumed. *)
Definition init (fresh : AudioContext N) (e : Engine) : Engine :=
  let e1 :=
    match ctx e with
    | Some _ => e
    | None =>
        {| ctx := Some fresh;
           masterGain := Some {| gain := new_param (lit 0.5) |};
           masterFilter :=
             Some {| filter_type := lowpass;
                     frequency := new_param (lit 22000);
                     Q_ := new_param (lit 1) |};
           compressor :=
             Some {| threshold := new_param (lit (-18));
                     ratio := new_param (lit 6) |};
           analyser := Some {| fftSize := 2048 |};
           reverbNode :=
             Some {| impulse_duration := lit 2.0; impulse_decay := lit 2.0 |};
           reverbSend := Some {| gain := new_param (lit 0) |};
           delayNode := Some {| delayTime := new_param (lit 0.375) |};
           delayFeedback := Some {| gain := new_param (lit 0.6) |};
           delaySend := Some {| gain := new_param (lit 0) |};
           distortionNode := Some {| curve_amount := lit 400 |};
           distortionSend := Some {| gain := new_param (lit 0) |};
           wiring :=
             [ (DelayNode, DelayFeedback); (DelayFeedback, DelayNode);
               (MasterGain, MasterFilter); (MasterFilter, Compressor);
               (MasterFilter, ReverbSend); (ReverbSend, ReverbNode);
               (ReverbNode, Compressor);
               (MasterFilter, DelaySend); (DelaySend, DelayNode);
               (DelayNode, Compressor);
               (MasterFilter, DistortionSend);
               (DistortionSend, DistortionNode);
               (DistortionNode, Compressor);
               (Compressor, Analyser); (Analyser, Destination);
               (Compressor, RecordingDest) ];
           nextNoteTime := nextNoteTime e;
           currentStep := currentStep e;
           timerID := timerID e;
           isPlaying := isPlaying e;
           trackData := trackData e;
           mediaRecorder := mediaRecorder e;
           dest := Some MediaStream;
           recordedChunks := recordedChunks e;
           customBuffer := customBuffer e;
           isCustomMuted := isCustomMuted e;
           tempoModifier := tempoModifier e;
           bassDistortionActive := bassDistortionActive e;
           onStep := onStep e |}
    end in
  match ctx e1 with
  | Some c =>
      match state c with
      | suspended =>
          set_ctx (Some {| currentTime := currentTime c;
                           sampleRate := sampleRate c;
                           state := running |}) e1
      | _ => e1
      end
  | None => e1
  end.

(** What the engine does to the world outside its own fields. *)
(** A voice is tagged by the function that builds it. *)
Inductive VoiceKind :=
| Kick | Hat | Bass | Lead | Custom | Cowbell
| People | Meow | Bark | Chirp | NoiseBurst | Machinery | Traffic.

Inductive Event :=
| Voice (k : VoiceKind) (requests : list (Cmd N))
    (* a trigger function ran past its guard and made these requests *)
| SetTimeout_onStep (step : nat) (delay : N)
    (* setTimeout(() => this.onStep!(step), delay) *)
| SetTimeout_scheduler (delay : N)
    (* setTimeout(() => this.scheduler(), delay) *)
| ClearTimeout (id : nat)
| ConsoleError (message : string) (error : Exn).

Definition voice (k : VoiceKind) (b : Run (Cmd N) unit) : Run Event unit :=
  ([Voice k (logged b)], outcome b).

(** *** Custom sample *)

(** The part of [loadCustomSample] that runs once the decoder has
    answered: [r] is what [await this.ctx.decodeAudioData(arrayBuffer)]
    gave, inside the [try]. *)
Definition loadCustomSample_decoded (r : Exn + AudioBuffer N) (e : Engine)
  : Engine * Run Event unit :=
  match r with
  | inr decoded =>
      (set_isCustomMuted false (set_customBuffer (Some decoded) e), ret tt)
  | inl error =>
      (e, log (ConsoleError "Failed to decode custom audio:" error))
  end.

(** [loadCustomSample(arrayBuffer)], run without anything else touching
    the engine while it waits.  [decodeAudioData] is the device's
    decoder. *)
Definition loadCustomSample (fresh : AudioContext N)
    (decodeAudioData : ArrayBuffer -> Exn + AudioBuffer N)
    (arrayBuffer : ArrayBuffer) (e : Engine) : Engine * Run Event unit :=
  let e1 := match ctx e with None => init fresh e | Some _ => e end in
  match ctx e1 with
  | None => (e1, ret tt)
  | Some _ => loadCustomSample_decoded (decodeAudioData arrayBuffer) e1
  end.

Definition muteCustomTrack (mute : bool) (e : Engine) : Engine :=
  set_isCustomMuted mute e.

Definition loadTrack (data : TrackData N) (e : Engine) : Engine :=
  set_currentStep 0 (set_trackData (Some data) e).

(** *** Recording *)

(** [opus] is what [MediaRecorder.isTypeSupported] answers. *)
Definition startRecording (opus : bool) (e : Engine) : Engine :=
  match dest e with
  | None => e
  | Some _ =>
      let options :=
        if opus
        then Some {| mimeType := "audio/webm;codecs=opus";
                     audioBitsPerSecond := 320000%Z |}
        else None in
      set_mediaRecorder (Some {| options := options; recording := true |})
        (set_recordedChunks [] e)
  end.

(** The [ondataavailable] handler the recorder is given. *)
Definition ondataavailable (data : Blob) (e : Engine) : Engine :=
  match data with
  | [] => e
  | _ :: _ => set_recordedChunks (recordedChunks e ++ [data])%list e
  end.

(** What the promise of [stopRecording] can be rejected with: stopping a
    recorder that is not recording. *)
Inductive RecorderError := InvalidStateError.

(** [stopRecording()], with what its promise settles to.  Without a
    recorder: an empty blob.  Otherwise [mediaRecorder.stop()] hands over
    the data it still holds ([flushed], through [ondataavailable]) and
    fires [onstop], which makes one blob of the chunks gathered; on a
    recorder already stopped it throws, and the promise is rejected. *)
Definition stopRecording (flushed : Blob) (e : Engine)
  : Engine * (RecorderError + Blob) :=
  match mediaRecorder e with
  | None => (e, inr [])
  | Some r =>
      if recording r then
        let e1 := ondataavailable flushed e in
        (set_mediaRecorder
           (Some {| options := options r; recording := false |}) e1,
         inr (List.concat (recordedChunks e1)))
      else (e, inl InvalidStateError)
  end.

Definition getAnalyser (e : Engine) : option AnalyserNode := analyser e.

(** *** Real-time modifiers *)

Definition setVolume (level : N) (e : Engine) : Engine :=
  match masterGain e, ctx e with
  | Some g, Some c =>
      set_masterGain
        (Some {| gain := setTargetAtTime level (currentTime c) (lit 0.1)
                           (gain g) |}) e
  | _, _ => e
  end.

Definition setTempoModifier (modifier : N) (e : Engine) : Engine :=
  set_tempoModifier (Math_max (lit 0.5) (Math_min (lit 2.0) modifier)) e.

Definition setBassDistortion (active : bool) (e : Engine) : Engine :=
  set_bassDistortionActive active e.

(** *** Gesture effects *)

Definition triggerReverb (time : N) (e : Engine) : Engine :=
  match reverbSend e with
  | None => e
  | Some send =>
      let g := cancelScheduledValues time (gain send) in
      let g := setValueAtTime (value g) time g in
      let g := linearRampToValueAtTime (lit 1.0) (time + lit 0.1) g in
      let g := exponentialRampToValueAtTime (lit 0.01) (time + lit 2.0) g in
      set_reverbSend (Some {| gain := g |}) e
  end.

Definition triggerLowPass (time : N) (e : Engine) : Engine :=
  match masterFilter e with
  | None => e
  | Some flt =>
      let f := cancelScheduledValues time (frequency flt) in
      let f := setValueAtTime (value f) time f in
      let f := exponentialRampToValueAtTime (lit 100) (time + lit 0.2) f in
      let f := exponentialRampToValueAtTime (lit 22000) (time + lit 1.5) f in
      set_masterFilter
        (Some {| filter_type := filter_type flt;
                 frequency := f;
                 Q_ := Q_ flt |}) e
  end.

Definition triggerDistortion (time : N) (e : Engine) : Engine :=
  match distortionSend e with
  | None => e
  | Some send =>
      let g := cancelScheduledValues time (gain send) in
      let g := setValueAtTime (value g) time g in
      let g := linearRampToValueAtTime (lit 0.8) (time + lit 0.1) g in
      let g := linearRampToValueAtTime (lit 0) (time + lit 0.5) g in
      set_distortionSend (Some {| gain := g |}) e
  end.

Definition triggerDelay (time : N) (e : Engine) : Engine :=
  match delaySend e with
  | None => e
  | Some send =>
      let g := cancelScheduledValues time (gain send) in
      let g := setValueAtTime (value g) time g in
      let g := linearRampToValueAtTime (lit 1.0) (time + lit 0.1) g in
      let g := linearRampToValueAtTime (lit 0) (time + lit 0.4) g in
      set_delaySend (Some {| gain := g |}) e
  end.

Definition triggerGestureFX (effectName : string) (e : Engine) : Engine :=
  match ctx e with
  | None => e
  | Some c =>
      let time := currentTime c in
      if String.eqb effectName "reverb" then triggerReverb time e
      else if String.eqb effectName "filter" then triggerLowPass time e
      else if String.eqb effectName "distortion" then triggerDistortion time e
      else if String.eqb effectName "delay" then triggerDelay time e
      else e
  end.

Definition triggerCowbell (e : Engine) : Run Event unit :=
  match ctx e, masterGain e with
  | Some c, Some _ =>
      let time := currentTime c in
      voice Cowbell (
        log (Create "osc1" Oscillator) ;;
        log (Create "osc2" Oscillator) ;;
        log (SetOscType "osc1" square) ;;
        log (SetOscType "osc2" square) ;;
        log (SetValue (Local "osc1") p_frequency (lit 540)) ;;
        log (SetValue (Local "osc2") p_frequency (lit 800)) ;;
        log (Create "filter" BiquadFilter) ;;
        log (SetFilterType "filter" bandpass) ;;
        log (SetValue (Local "filter") p_frequency (lit 1200)) ;;
        log (SetValue (Local "filter") p_Q (lit 2)) ;;
        log (Create "gain" Gain) ;;
        log (SetValueAtTime (Local "gain") p_gain (lit 0.8) time) ;;
        log (ExponentialRampToValueAtTime (Local "gain") p_gain (lit 0.01)
               (time + lit 0.15)) ;;
        log (Connect (Local "osc1") (Input (Local "filter"))) ;;
        log (Connect (Local "osc2") (Input (Local "filter"))) ;;
        log (Connect (Local "filter") (Input (Local "gain"))) ;;
        log (Connect (Local "gain") (Input (Shared MasterGain))) ;;
        log (Start "osc1" time) ;;
        log (Start "osc2" time) ;;
        log (Stop "osc1" (time + lit 0.2)) ;;
        log (Stop "osc2" (time + lit 0.2)))
  | _, _ => ret tt
  end.

(** *** Voices *)

Definition triggerKick (e : Engine) (time punch : N) : Run Event unit :=
  match ctx e, masterGain e with
  | Some _, Some _ =>
      voice Kick (
        log (Create "osc" Oscillator) ;;
        log (Create "gain" Gain) ;;
        log (Connect (Local "osc") (Input (Local "gain"))) ;;
        log (Connect (Local "gain") (Input (Shared MasterGain))) ;;
        let startFreq := lit 150 + punch * lit 100 in
        let endFreq := lit 45 in
        log (SetValueAtTime (Local "osc") p_frequency startFreq time) ;;
        log (ExponentialRampToValueAtTime (Local "osc") p_frequency endFreq
               (time + lit 0.08)) ;;
        log (SetValueAtTime (Local "gain") p_gain (lit 1.0) time) ;;
        log (ExponentialRampToValueAtTime (Local "gain") p_gain (lit 0.001)
               (time + lit 0.25 + punch * lit 0.1)) ;;
        log (Start "osc" time) ;;
        log (Stop "osc" (time + lit 0.3)))
  | _, _ => ret tt
  end.

Definition triggerHat (e : Engine) (time bright : N) : Run Event unit :=
  match ctx e, masterGain e with
  | Some c, Some _ =>
      voice Hat (
        let bufferSize := sampleRate c * lit 0.05 in
        log (CreateNoiseBuffer "buffer" bufferSize (sampleRate c)) ;;
        log (Create "noise" BufferSource) ;;
        log (SetBuffer "noise" (LocalBuffer "buffer")) ;;
        log (Create "filter" BiquadFilter) ;;
        log (SetFilterType "filter" highpass) ;;
        log (SetValue (Local "filter") p_frequency
               (lit 6000 + bright * lit 6000)) ;;
        log (Create "gain" Gain) ;;
        log (Connect (Local "noise") (Input (Local "filter"))) ;;
        log (Connect (Local "filter") (Input (Local "gain"))) ;;
        log (Connect (Local "gain") (Input (Shared MasterGain))) ;;
        log (SetValueAtTime (Local "gain") p_gain
               (lit 0.3 + bright * lit 0.2) time) ;;
        log (ExponentialRampToValueAtTime (Local "gain") p_gain (lit 0.001)
               (time + lit 0.03)) ;;
        log (Start "noise" time))
  | _, _ => ret tt
  end.

(** [freq] is whatever the table read gave the caller. *)
Definition triggerBass (e : Engine) (time : N) (freq : JsValue N)
    (settings : BassSettings N) : Run Event unit :=
  match ctx e, masterGain e with
  | Some _, Some _ =>
      if bassDistortionActive e then
        voice Bass (
          log (Create "osc" Oscillator) ;;
          log (SetOscType "osc" sawtooth) ;;
          _ <- assign_value (Local "osc") p_frequency freq ;;
          log (Create "filter" BiquadFilter) ;;
          log (SetFilterType "filter" lowpass) ;;
          log (SetValueAtTime (Local "filter") p_frequency
                 (filterFreq settings * lit 2.5) time) ;;
          log (ExponentialRampToValueAtTime (Local "filter") p_frequency
                 (filterFreq settings) (time + lit 0.3)) ;;
          log (SetValue (Local "filter") p_Q (lit 15)) ;;
          log (Create "distGain" Gain) ;;
          log (SetValue (Local "distGain") p_gain (lit 5.0)) ;;
          log (Create "outGain" Gain) ;;
          log (SetValueAtTime (Local "outGain") p_gain (lit 0.6) time) ;;
          log (ExponentialRampToValueAtTime (Local "outGain") p_gain
                 (lit 0.001) (time + lit 0.3)) ;;
          log (Connect (Local "osc") (Input (Local "filter"))) ;;
          log (Connect (Local "filter") (Input (Local "distGain"))) ;;
          match distortionNode e with
          | Some _ =>
              log (Connect (Local "distGain") (Input (Shared DistortionNode))) ;;
              log (Connect (Shared DistortionNode) (Input (Local "outGain")))
          | None =>
              log (Connect (Local "distGain") (Input (Local "outGain")))
          end ;;
          log (Connect (Local "outGain") (Input (Shared MasterGain))) ;;
          log (Start "osc" time) ;;
          log (Stop "osc" (time + lit 0.4)))
      else
        voice Bass (
          log (Create "osc" Oscillator) ;;
          log (SetOscType "osc" (bass_waveform settings)) ;;
          _ <- assign_value (Local "osc") p_frequency freq ;;
          log (Create "filter" BiquadFilter) ;;
          log (SetFilterType "filter" lowpass) ;;
          log (SetValueAtTime (Local "filter") p_frequency
                 (filterFreq settings) time) ;;
          log (LinearRampToValueAtTime (Local "filter") p_frequency
                 (filterFreq settings * lit 0.8) (time + lit 0.2)) ;;
          log (SetValue (Local "filter") p_Q (lit 2)) ;;
          log (Create "gain" Gain) ;;
          log (SetValueAtTime (Local "gain") p_gain (lit 0.8) time) ;;
          log (ExponentialRampToValueAtTime (Local "gain") p_gain (lit 0.001)
                 (time + lit 0.3)) ;;
          log (Connect (Local "osc") (Input (Local "filter"))) ;;
          log (Connect (Local "filter") (Input (Local "gain"))) ;;
          log (Connect (Local "gain") (Input (Shared MasterGain))) ;;
          log (Start "osc" time) ;;
          log (Stop "osc" (time + lit 0.4)))
  | _, _ => ret tt
  end.

(** [freq * 2] is computed after [osc1.frequency.value = freq] went
    through, on the number [f] that assignment stored. *)
Definition triggerLead (e : Engine) (time : N) (freq : JsValue N)
    (settings : SynthSettings N) : Run Event unit :=
  match ctx e, masterGain e with
  | Some _, Some _ =>
      voice Lead (
        log (Create "gain" Gain) ;;
        log (SetValueAtTime (Local "gain") p_gain (lit 0) time) ;;
        log (LinearRampToValueAtTime (Local "gain") p_gain (lit 0.2)
               (time + lit 0.005)) ;;
        log (ExponentialRampToValueAtTime (Local "gain") p_gain (lit 0.001)
               (time + decay settings * lit 0.8 + lit 0.05)) ;;
        log (Create "filter" BiquadFilter) ;;
        log (SetFilterType "filter" lowpass) ;;
        log (SetValue (Local "filter") p_Q (resonance settings * lit 0.5)) ;;
        log (SetValueAtTime (Local "filter") p_frequency
               (cutoff settings) time) ;;
        log (ExponentialRampToValueAtTime (Local "filter") p_frequency
               (cutoff settings * lit 0.5) (time + lit 0.1)) ;;
        log (Create "osc1" Oscillator) ;;
        log (SetOscType "osc1" (waveform settings)) ;;
        f <- assign_value (Local "osc1") p_frequency freq ;;
        log (Connect (Local "osc1") (Input (Local "filter"))) ;;
        match waveform settings with
        | sine | triangle =>
            log (Create "fmOsc" Oscillator) ;;
            log (Create "fmGain" Gain) ;;
            log (SetValue (Local "fmOsc") p_frequency (f * lit 2)) ;;
            log (SetValue (Local "fmGain") p_gain (lit 200)) ;;
            log (Connect (Local "fmOsc") (Input (Local "fmGain"))) ;;
            log (Connect (Local "fmGain") (Param (Local "osc1") p_frequency)) ;;
            log (Start "fmOsc" time) ;;
            log (Stop "fmOsc" (time + lit 0.5))
        | sawtooth | square => ret tt
        end ;;
        log (Connect (Local "filter") (Input (Local "gain"))) ;;
        log (Create "delay" Delay) ;;
        log (SetValue (Local "delay") p_delayTime (lit 3 / lit 16)) ;;
        log (Create "feedback" Gain) ;;
        log (SetValue (Local "feedback") p_gain (lit 0.3)) ;;
        log (Create "delayGain" Gain) ;;
        log (SetValue (Local "delayGain") p_gain (lit 0.3)) ;;
        log (Connect (Local "gain") (Input (Shared MasterGain))) ;;
        log (Connect (Local "gain") (Input (Local "delay"))) ;;
        log (Connect (Local "delay") (Input (Local "delayGain"))) ;;
        log (Connect (Local "delayGain") (Input (Shared MasterGain))) ;;
        log (Connect (Local "delay") (Input (Local "feedback"))) ;;
        log (Connect (Local "feedback") (Input (Local "delay"))) ;;
        log (Start "osc1" time) ;;
        log (Stop "osc1" (time + lit 1.0)))
  | _, _ => ret tt
  end.

Definition triggerCustomSample (e : Engine) (time : N) : Run Event unit :=
  match ctx e, masterGain e, customBuffer e, isCustomMuted e with
  | Some _, Some _, Some buffer, false =>
      voice Custom (
        log (Create "source" BufferSource) ;;
        log (SetBuffer "source" (Decoded buffer)) ;;
        log (Create "gain" Gain) ;;
        log (SetValue (Local "gain") p_gain (lit 0.7)) ;;
        log (Connect (Local "source") (Input (Local "gain"))) ;;
        log (Connect (Local "gain") (Input (Shared MasterGain))) ;;
        log (Start "source" time))
  | _, _, _, _ => ret tt
  end.

(** *** Ambience and creature one-shots *)

Definition synthesizePeople (e : Engine) (time : N) : Run Event unit :=
  match ctx e, masterGain e with
  | Some c, Some _ =>
      voice People (
        let bufferSize := sampleRate c * lit 4.0 in
        log (CreatePinkNoiseBuffer "buffer" bufferSize (sampleRate c)) ;;
        log (Create "noise" BufferSource) ;;
        log (SetBuffer "noise" (LocalBuffer "buffer")) ;;
        log (Create "filter1" BiquadFilter) ;;
        log (SetFilterType "filter1" bandpass) ;;
        log (SetValueAtTime (Local "filter1") p_frequency (lit 400) time) ;;
        log (SetValue (Local "filter1") p_Q (lit 4)) ;;
        log (Create "filter2" BiquadFilter) ;;
        log (SetFilterType "filter2" bandpass) ;;
        log (SetValueAtTime (Local "filter2") p_frequency (lit 850) time) ;;
        log (SetValue (Local "filter2") p_Q (lit 5)) ;;
        log (Create "lfo" Oscillator) ;;
        log (SetOscType "lfo" sine) ;;
        log (SetValue (Local "lfo") p_frequency (lit 2.5)) ;;
        log (Create "lfoGain" Gain) ;;
        log (SetValue (Local "lfoGain") p_gain (lit 150)) ;;
        log (Connect (Local "lfo") (Input (Local "lfoGain"))) ;;
        log (Connect (Local "lfoGain") (Param (Local "filter1") p_frequency)) ;;
        log (Connect (Local "lfoGain") (Param (Local "filter2") p_frequency)) ;;
        log (Create "noiseGain" Gain) ;;
        log (SetValueAtTime (Local "noiseGain") p_gain (lit 0) time) ;;
        log (LinearRampToValueAtTime (Local "noiseGain") p_gain (lit 0.4)
               (time + lit 0.5)) ;;
        log (LinearRampToValueAtTime (Local "noiseGain") p_gain (lit 0)
               (time + lit 3.8)) ;;
        log (Connect (Local "noise") (Input (Local "filter1"))) ;;
        log (Connect (Local "noise") (Input (Local "filter2"))) ;;
        log (Connect (Local "filter1") (Input (Local "noiseGain"))) ;;
        log (Connect (Local "filter2") (Input (Local "noiseGain"))) ;;
        log (Connect (Local "noiseGain") (Input (Shared MasterGain))) ;;
        log (Start "noise" time) ;;
        log (Start "lfo" time) ;;
        log (Stop "lfo" (time + lit 4.0)))
  | _, _ => ret tt
  end.

Definition synthesizeMeow (e : Engine) (time : N) : Run Event unit :=
  match ctx e, masterGain e with
  | Some _, Some _ =>
      voice Meow (
        log (Create "osc" Oscillator) ;;
        log (Create "gain" Gain) ;;
        log (Create "filter" BiquadFilter) ;;
        log (SetOscType "osc" sawtooth) ;;
        log (SetValueAtTime (Local "osc") p_frequency (lit 400) time) ;;
        log (LinearRampToValueAtTime (Local "osc") p_frequency (lit 800)
               (time + lit 0.15)) ;;
        log (LinearRampToValueAtTime (Local "osc") p_frequency (lit 300)
               (time + lit 0.4)) ;;
        log (SetFilterType "filter" bandpass) ;;
        log (SetValue (Local "filter") p_Q (lit 5)) ;;
        log (SetValueAtTime (Local "filter") p_frequency (lit 800) time) ;;
        log (LinearRampToValueAtTime (Local "filter") p_frequency (lit 1200)
               (time + lit 0.15)) ;;
        log (LinearRampToValueAtTime (Local "filter") p_frequency (lit 600)
               (time + lit 0.4)) ;;
        log (SetValueAtTime (Local "gain") p_gain (lit 0) time) ;;
        log (LinearRampToValueAtTime (Local "gain") p_gain (lit 0.3)
               (time + lit 0.05)) ;;
        log (ExponentialRampToValueAtTime (Local "gain") p_gain (lit 0.001)
               (time + lit 0.4)) ;;
        log (Connect (Local "osc") (Input (Local "filter"))) ;;
        log (Connect (Local "filter") (Input (Local "gain"))) ;;
        log (Connect (Local "gain") (Input (Shared MasterGain))) ;;
        log (Start "osc" time) ;;
        log (Stop "osc" (time + lit 0.5)))
  | _, _ => ret tt
  end.

(** The closure [triggerOne] of [synthesizeBark]. *)
Definition bark_triggerOne (c : AudioContext N) (t : N) : Run (Cmd N) unit :=
  log (Create "osc" Oscillator) ;;
  log (SetOscType "osc" triangle) ;;
  log (SetValueAtTime (Local "osc") p_frequency (lit 180) t) ;;
  log (ExponentialRampToValueAtTime (Local "osc") p_frequency (lit 80)
         (t + lit 0.12)) ;;
  let bufferSize := sampleRate c * lit 0.15 in
  log (CreateNoiseBuffer "buffer" bufferSize (sampleRate c)) ;;
  log (Create "noise" BufferSource) ;;
  log (SetBuffer "noise" (LocalBuffer "buffer")) ;;
  log (Create "noiseFilter" BiquadFilter) ;;
  log (SetFilterType "noiseFilter" lowpass) ;;
  log (SetValue (Local "noiseFilter") p_frequency (lit 1200)) ;;
  log (Create "gain" Gain) ;;
  log (SetValueAtTime (Local "gain") p_gain (lit 0.6) t) ;;
  log (ExponentialRampToValueAtTime (Local "gain") p_gain (lit 0.001)
         (t + lit 0.12)) ;;
  log (Connect (Local "osc") (Input (Local "gain"))) ;;
  log (Connect (Local "noise") (Input (Local "noiseFilter"))) ;;
  log (Connect (Local "noiseFilter") (Input (Local "gain"))) ;;
  log (Connect (Local "gain") (Input (Shared MasterGain))) ;;
  log (Start "osc" t) ;;
  log (Stop "osc" (t + lit 0.15)) ;;
  log (Start "noise" t).

Definition synthesizeBark (e : Engine) (time : N) : Run Event unit :=
  match ctx e, masterGain e with
  | Some c, Some _ =>
      voice Bark (
        bark_triggerOne c time ;;
        bark_triggerOne c (time + lit 0.18))
  | _, _ => ret tt
  end.

Definition synthesizeChirp (e : Engine) (time : N) : Run Event unit :=
  match ctx e, masterGain e with
  | Some _, Some _ =>
      voice Chirp (
        log (Create "osc" Oscillator) ;;
        log (Create "gain" Gain) ;;
        log (SetOscType "osc" sine) ;;
        log (SetValueAtTime (Local "osc") p_frequency (lit 2000) time) ;;
        log (LinearRampToValueAtTime (Local "osc") p_frequency (lit 3000)
               (time + lit 0.05)) ;;
        log (LinearRampToValueAtTime (Local "osc") p_frequency (lit 1500)
               (time + lit 0.1)) ;;
        log (SetValueAtTime (Local "gain") p_gain (lit 0.3) time) ;;
        log (ExponentialRampToValueAtTime (Local "gain") p_gain (lit 0.001)
               (time + lit 0.1)) ;;
        log (Connect (Local "osc") (Input (Local "gain"))) ;;
        log (Connect (Local "gain") (Input (Shared MasterGain))) ;;
        log (Start "osc" time) ;;
        log (Stop "osc" (time + lit 0.15)))
  | _, _ => ret tt
  end.

Definition synthesizeNoiseBurst (e : Engine) (time : N)
    (filterType : FilterType) (freq duration vol : N) : Run Event unit :=
  match ctx e, masterGain e with
  | Some c, Some _ =>
      voice NoiseBurst (
        let bufferSize := sampleRate c * duration in
        log (CreateNoiseBuffer "buffer" bufferSize (sampleRate c)) ;;
        log (Create "noise" BufferSource) ;;
        log (SetBuffer "noise" (LocalBuffer "buffer")) ;;
        log (Create "filter" BiquadFilter) ;;
        log (SetFilterType "filter" filterType) ;;
        log (SetValue (Local "filter") p_frequency freq) ;;
        log (Create "gain" Gain) ;;
        log (SetValueAtTime (Local "gain") p_gain vol time) ;;
        log (ExponentialRampToValueAtTime (Local "gain") p_gain (lit 0.001)
               (time + duration)) ;;
        log (Connect (Local "noise") (Input (Local "filter"))) ;;
        log (Connect (Local "filter") (Input (Local "gain"))) ;;
        log (Connect (Local "gain") (Input (Shared MasterGain))) ;;
        log (Start "noise" time))
  | _, _ => ret tt
  end.

Definition synthesizeThunder (e : Engine) (time : N) : Run Event unit :=
  synthesizeNoiseBurst e time lowpass (lit 150) (lit 1.5) (lit 0.4).

Definition synthesizeWater (e : Engine) (time : N) : Run Event unit :=
  synthesizeNoiseBurst e time bandpass (lit 600) (lit 0.3) (lit 0.15).

Definition synthesizeWind (e : Engine) (time : N) : Run Event unit :=
  synthesizeNoiseBurst e time lowpass (lit 400) (lit 1.0) (lit 0.2).

Definition synthesizeMachinery (e : Engine) (time : N) : Run Event unit :=
  match ctx e, masterGain e with
  | Some _, Some _ =>
      voice Machinery (
        log (Create "osc" Oscillator) ;;
        log (Create "fm" Oscillator) ;;
        log (Create "fmGain" Gain) ;;
        log (Create "gain" Gain) ;;
        log (SetOscType "osc" square) ;;
        log (SetValue (Local "osc") p_frequency (lit 110)) ;;
        log (SetValue (Local "fm") p_frequency (lit 500)) ;;
        log (SetOscType "fm" sawtooth) ;;
        log (SetValue (Local "fmGain") p_gain (lit 300)) ;;
        log (Connect (Local "fm") (Input (Local "fmGain"))) ;;
        log (Connect (Local "fmGain") (Param (Local "osc") p_frequency)) ;;
        log (SetValueAtTime (Local "gain") p_gain (lit 0.2) time) ;;
        log (ExponentialRampToValueAtTime (Local "gain") p_gain (lit 0.001)
               (time + lit 0.3)) ;;
        log (Connect (Local "osc") (Input (Local "gain"))) ;;
        log (Connect (Local "gain") (Input (Shared MasterGain))) ;;
        log (Start "osc" time) ;;
        log (Start "fm" time) ;;
        log (Stop "osc" (time + lit 0.35)) ;;
        log (Stop "fm" (time + lit 0.35)))
  | _, _ => ret tt
  end.

Definition synthesizeTraffic (e : Engine) (time : N) : Run Event unit :=
  match ctx e, masterGain e with
  | Some _, Some _ =>
      voice Traffic (
        log (Create "osc" Oscillator) ;;
        log (Create "gain" Gain) ;;
        log (Create "filter" BiquadFilter) ;;
        log (SetOscType "osc" sawtooth) ;;
        log (SetValueAtTime (Local "osc") p_frequency (lit 80) time) ;;
        log (LinearRampToValueAtTime (Local "osc") p_frequency (lit 60)
               (time + lit 0.8)) ;;
        log (SetFilterType "filter" lowpass) ;;
        log (SetValueAtTime (Local "filter") p_frequency (lit 400) time) ;;
        log (LinearRampToValueAtTime (Local "filter") p_frequency (lit 200)
               (time + lit 0.8)) ;;
        log (SetValueAtTime (Local "gain") p_gain (lit 0) time) ;;
        log (LinearRampToValueAtTime (Local "gain") p_gain (lit 0.2)
               (time + lit 0.2)) ;;
        log (LinearRampToValueAtTime (Local "gain") p_gain (lit 0)
               (time + lit 0.8)) ;;
        log (Connect (Local "osc") (Input (Local "filter"))) ;;
        log (Connect (Local "filter") (Input (Local "gain"))) ;;
        log (Connect (Local "gain") (Input (Shared MasterGain))) ;;
        log (Start "osc" time) ;;
        log (Stop "osc" (time + lit 1.0)))
  | _, _ => ret tt
  end.

(** The switch of [triggerSFX]: nine tags have a one-shot, ['none'] has
    no case. *)
Definition triggerSFX (e : Engine) (time : N) (type : SoundEffect)
  : Run Event unit :=
  match ctx e, masterGain e with
  | Some _, Some _ =>
      match type with
      | cat => synthesizeMeow e time
      | dog => synthesizeBark e time
      | bird => synthesizeChirp e time
      | thunder => synthesizeThunder e time
      | water => synthesizeWater e time
      | traffic => synthesizeTraffic e time
      | wind => synthesizeWind e time
      | machinery => synthesizeMachinery e time
      | people => synthesizePeople e time
      | none => ret tt
      end
  | _, _ => ret tt
  end.

(** *** Step dispatch and the clock *)

(** [a[step]] for an array of [string | null]: past the end it reads
    [undefined], which is as falsy as [null]. *)
Definition slot_at (a : list (option string)) (step : nat) : option string :=
  match nth_error a step with
  | Some s => s
  | None => None
  end.

(** [if (note && NOTE_FREQS[note]) trigger(time, NOTE_FREQS[note], ...)] *)
Definition dispatch_note (note : option string)
    (trigger : JsValue N -> Run Event unit) : Run Event unit :=
  when (ToBoolean_slot note)
    (match note with
     | Some name =>
         when (ToBoolean (get NOTE_FREQS name)) (trigger (get NOTE_FREQS name))
     | None => ret tt
     end).

Definition scheduleStep (e : Engine) (step : nat) (time : N)
  : Run Event unit :=
  match trackData e, ctx e, masterGain e with
  | Some td, Some c, Some _ =>
      match onStep e with
      | Some _ =>
          let delay := (time - currentTime c) * lit 1000 in
          log (SetTimeout_onStep step (Math_max (lit 0) delay))
      | None => ret tt
      end ;;
      let seqs := sequences td in
      when (ToBoolean_at (kick seqs) step)
        (triggerKick e time (kickPunch (drumSettings td))) ;;
      when (ToBoolean_at (hat seqs) step)
        (triggerHat e time (hatBright (drumSettings td))) ;;
      let bassNote := slot_at (bass seqs) step in
      dispatch_note bassNote
        (fun freq => triggerBass e time freq (bassSettings td)) ;;
      let leadNote := slot_at (lead seqs) step in
      dispatch_note leadNote
        (fun freq => triggerLead e time freq (synthSettings td)) ;;
      match sfx seqs, soundEffect td with
      | Some sfx_seq, Some effect =>
          when (ToBoolean_at sfx_seq step && negb (is_none effect))
            (triggerSFX e time effect)
      | _, _ => ret tt
      end ;;
      let shouldTriggerCustom :=
        match custom seqs with
        | Some custom_seq => ToBoolean_at custom_seq step
        | None => false
        end in
      match customBuffer e with
      | Some _ =>
          when (shouldTriggerCustom && negb (isCustomMuted e))
            (triggerCustomSample e time)
      | None => ret tt
      end
  | _, _, _ => ret tt
  end.

Definition nextStep (e : Engine) : Engine :=
  match trackData e with
  | None => e
  | Some td =>
      let currentBpm := bpm td * tempoModifier e in
      let secondsPerBeat := lit 60.0 / currentBpm in
      set_currentStep ((currentStep e + 1) mod 16)%nat
        (set_nextNoteTime (nextNoteTime e + lit 0.25 * secondsPerBeat) e)
  end.

(** The [while] loop of [scheduler]: every step due within the lookahead
    is dispatched, then the clock advances.  The device clock reads [now]
    all along the loop.  [fuel] bounds the number of rounds; [None] when
    it does not suffice.  A step that throws ends the loop with the
    engine as it stood before that step was advanced over. *)
Fixpoint drain (fuel : nat) (now : N) (e : Engine)
  : option (Engine * Run Event unit) :=
  let scheduleAheadTime := lit 0.1 in
  if (nextNoteTime e <? now + scheduleAheadTime)%js then
    match fuel with
    | O => None
    | S fuel' =>
        match scheduleStep e (currentStep e) (nextNoteTime e) with
        | (l, inl ex) => Some (e, (l, inl ex))
        | (l, inr _) =>
            match drain fuel' now (nextStep e) with
            | Some (e', (l', r)) => Some (e', ((l ++ l')%list, r))
            | None => None
            end
        end
    end
  else Some (e, ret tt).

(** [id] is the handle that [setTimeout] returns. *)
Definition scheduler (fuel : nat) (id : nat) (e : Engine)
  : option (Engine * Run Event unit) :=
  match ctx e, trackData e, isPlaying e with
  | Some c, Some _, true =>
      let lookahead := lit 25.0 in
      match drain fuel (currentTime c) e with
      | Some (e', (l, inr _)) =>
          Some (set_timerID (Some id) e',
                ((l ++ [SetTimeout_scheduler lookahead])%list, inr tt))
      | Some (e', (l, inl ex)) => Some (e', (l, inl ex))
      | None => None
      end
  | _, _, _ => Some (e, ret tt)
  end.

Definition play (fuel : nat) (id : nat) (e : Engine)
  : option (Engine * Run Event unit) :=
  match ctx e, trackData e with
  | Some c, Some _ =>
      scheduler fuel id
        (set_nextNoteTime (currentTime c + lit 0.1) (set_isPlaying true e))
  | _, _ => Some (e, ret tt)
  end.

Definition stop (e : Engine) : Engine * Run Event unit :=
  let e' := set_isPlaying false e in
  match timerID e' with
  | Some id => (e', when (negb (Nat.eqb id 0)) (log (ClearTimeout id)))
  | None => (e', ret tt)
  end.

End Engine.

Arguments Engine : clear implicits.
Arguments Event : clear implicits.

End AudioEngine.
Export AudioEngine.

(* ================================================================== *)
(** ** Reading what the engine did *)
(* ================================================================== *)

Module Observe.

Definition VoiceKind_eqb (a b : VoiceKind) : bool :=
  match a, b with
  | Kick, Kick | Hat, Hat | Bass, Bass | Lead, Lead
  | Custom, Custom | Cowbell, Cowbell
  | People, People | Meow, Meow | Bark, Bark | Chirp, Chirp
  | NoiseBurst, NoiseBurst | Machinery, Machinery | Traffic, Traffic => true
  | _, _ => false
  end.

Definition SharedNode_eqb (a b : SharedNode) : bool :=
  match a, b with
  | MasterGain, MasterGain | MasterFilter, MasterFilter
  | Compressor, Compressor | Analyser, Analyser
  | ReverbNode, ReverbNode | ReverbSend, ReverbSend
  | DelayNode, DelayNode | DelayFeedback, DelayFeedback
  | DelaySend, DelaySend
  | DistortionNode, DistortionNode | DistortionSend, DistortionSend
  | Destination, Destination | RecordingDest, RecordingDest => true
  | _, _ => false
  end.

Definition NodeRef_eqb (a b : NodeRef) : bool :=
  match a, b with
  | Local x, Local y => String.eqb x y
  | Shared x, Shared y => SharedNode_eqb x y
  | _, _ => false
  end.

Definition ParamName_eqb (a b : ParamName) : bool :=
  match a, b with
  | p_frequency, p_frequency | p_Q, p_Q
  | p_gain, p_gain | p_delayTime, p_delayTime => true
  | _, _ => false
  end.

(** One element of the structure of a chain: a node, or a connection. *)
Inductive Link :=
| Node (name : string) (k : NodeKind)
| Wire (src : NodeRef) (dst : Port).

Section Observe.
Context {N : Type} `{JsNumber N}.

(** The request lists of the voices of kind [k], in the order fired. *)
Fixpoint voices_of (k : VoiceKind) (l : list (Event N)) : list (list (Cmd N)) :=
  match l with
  | [] => []
  | Voice k' requests :: rest =>
      if VoiceKind_eqb k k' then requests :: voices_of k rest
      else voices_of k rest
  | _ :: rest => voices_of k rest
  end.

(** The sources a voice starts, with their start times. *)
Fixpoint starts (requests : list (Cmd N)) : list (string * N) :=
  match requests with
  | [] => []
  | Start name t :: rest => (name, t) :: starts rest
  | _ :: rest => starts rest
  end.

(** The values a voice assigns to parameter [p] of node [n]
    ([n.p.value = v]). *)
Fixpoint param_values (n : NodeRef) (p : ParamName) (requests : list (Cmd N))
  : list N :=
  match requests with
  | [] => []
  | SetValue n' p' v :: rest =>
      if NodeRef_eqb n n' && ParamName_eqb p p'
      then v :: param_values n p rest
      else param_values n p rest
  | _ :: rest => param_values n p rest
  end.

(** The structure of a chain: which nodes it creates and how it wires
    them, whatever the numbers, waveforms and times. *)
Fixpoint structure (requests : list (Cmd N)) : list Link :=
  match requests with
  | [] => []
  | Create name k :: rest => Node name k :: structure rest
  | Connect src dst :: rest => Wire src dst :: structure rest
  | _ :: rest => structure rest
  end.

(** A run that fires no voice of kind [k]. *)
Definition fires_no {A} (k : VoiceKind) (m : Run (Event N) A) : Prop :=
  voices_of k (logged m) = [].

Definition isSome {A} (o : option A) : bool :=
  match o with Some _ => true | None => false end.

(** [init] has run: the context and every long-lived node are there. *)
Definition initialised (e : Engine N) : bool :=
  isSome (ctx e) && isSome (masterGain e) && isSome (masterFilter e)
  && isSome (compressor e) && isSome (analyser e)
  && isSome (reverbNode e) && isSome (reverbSend e)
  && isSome (delayNode e) && isSome (delayFeedback e) && isSome (delaySend e)
  && isSome (distortionNode e) && isSome (distortionSend e).

(** What every reachable state satisfies: the nodes come with the
    context. *)
Definition graph_ok (e : Engine N) : Prop :=
  ctx e = None \/ initialised e = true.

(** The four parameters the gestures drive. *)
Inductive Target :=
| ReverbSendGain | MasterFilterFrequency | DistortionSendGain | DelaySendGain.

Definition target_param (t : Target) (e : Engine N) : option (AudioParam N) :=
  match t with
  | ReverbSendGain => option_map (@gain N) (reverbSend e)
  | MasterFilterFrequency => option_map (@frequency N) (masterFilter e)
  | DistortionSendGain => option_map (@gain N) (distortionSend e)
  | DelaySendGain => option_map (@gain N) (delaySend e)
  end.

(** What a retrigger at time [now] with the two ramps [curve] leaves on a
    parameter that was [p]: the events strictly before [now] survive, the
    value read at [now] is pinned there, the ramps follow. *)
Definition retriggered (now : N) (curve : list (AutomationEvent N))
    (p : AudioParam N) : AudioParam N :=
  {| value := value p;
     events :=
       filter (fun ev => (event_time ev <? now)%js) (events p)
       ++ SetValueEvent (value p) now :: curve |}.

End Observe.
End Observe.
Export Observe.

(* ================================================================== *)
(** ** The specification's formulas and signal paths, in its own words *)
(* ================================================================== *)

Module SpecWords.
Section Words.
Context {N : Type} `{JsNumber N}.
Local Open Scope js_scope.

(** The length of one step: a quarter of a beat,
    [0.25 * 60 / (bpm * tempoModifier)]. *)
Definition step_seconds (bpm tempoModifier : N) : N :=
  lit 0.25 * lit 60 / (bpm * tempoModifier).

(** [3/16] of a beat at the tempo [bpm * tempoModifier]. *)
Definition three_sixteenths_beat (bpm tempoModifier : N) : N :=
  lit 3 / lit 16 * (lit 60 / (bpm * tempoModifier)).

(** The clamp of the tempo modifier to [0.5, 2.0]. *)
Definition clamp_tempo (x : N) : N :=
  Math_max (lit 0.5) (Math_min (lit 2.0) x).

Local Open Scope string_scope.

(** The four gesture tokens: the parameter each one drives and the two
    ramps of its curve, counted from the time [now] of the trigger
    (wash-in and decay, sweep down then up, crunch, quick throw). *)
Definition gesture (token : string)
  : option (Target * (N -> list (AutomationEvent N))) :=
  if String.eqb token "reverb" then
    Some (ReverbSendGain, fun now =>
      [ LinearRampEvent (lit 1.0) (now + lit 0.1);
        ExponentialRampEvent (lit 0.01) (now + lit 2.0) ])
  else if String.eqb token "filter" then
    Some (MasterFilterFrequency, fun now =>
      [ ExponentialRampEvent (lit 100) (now + lit 0.2);
        ExponentialRampEvent (lit 22000) (now + lit 1.5) ])
  else if String.eqb token "distortion" then
    Some (DistortionSendGain, fun now =>
      [ LinearRampEvent (lit 0.8) (now + lit 0.1);
        LinearRampEvent (lit 0) (now + lit 0.5) ])
  else if String.eqb token "delay" then
    Some (DelaySendGain, fun now =>
      [ LinearRampEvent (lit 1.0) (now + lit 0.1);
        LinearRampEvent (lit 0) (now + lit 0.4) ])
  else None.

(** The range each driven parameter is meant to stay in: a send gain
    between silence and unity, the master cutoff between the bottom and
    the top of its sweep. *)
Definition valid_range (t : Target) : N * N :=
  match t with
  | MasterFilterFrequency => (lit 100, lit 22000)
  | ReverbSendGain | DistortionSendGain | DelaySendGain => (lit 0, lit 1.0)
  end.

(** The distorted bass path: sawtooth, lowpass with Q 15 sweeping from
    2.5 times the cutoff down to it, 5 times drive, the shared distortion
    stage. *)
Definition distorted_chain (time freq : N) (settings : BassSettings N)
  : list (Cmd N) :=
  [ Create "osc" Oscillator; SetOscType "osc" sawtooth;
    SetValue (Local "osc") p_frequency freq;
    Create "filter" BiquadFilter; SetFilterType "filter" lowpass;
    SetValueAtTime (Local "filter") p_frequency
      (filterFreq settings * lit 2.5) time;
    ExponentialRampToValueAtTime (Local "filter") p_frequency
      (filterFreq settings) (time + lit 0.3);
    SetValue (Local "filter") p_Q (lit 15);
    Create "distGain" Gain; SetValue (Local "distGain") p_gain (lit 5.0);
    Create "outGain" Gain;
    SetValueAtTime (Local "outGain") p_gain (lit 0.6) time;
    ExponentialRampToValueAtTime (Local "outGain") p_gain (lit 0.001)
      (time + lit 0.3);
    Connect (Local "osc") (Input (Local "filter"));
    Connect (Local "filter") (Input (Local "distGain"));
    Connect (Local "distGain") (Input (Shared DistortionNode));
    Connect (Shared DistortionNode) (Input (Local "outGain"));
    Connect (Local "outGain") (Input (Shared MasterGain));
    Start "osc" time; Stop "osc" (time + lit 0.4) ].

(** The normal bass path: an oscillator of the track's waveform, lowpass
    with Q 2, no distortion stage. *)
Definition normal_chain (time freq : N) (settings : BassSettings N)
  : list (Cmd N) :=
  [ Create "osc" Oscillator; SetOscType "osc" (bass_waveform settings);
    SetValue (Local "osc") p_frequency freq;
    Create "filter" BiquadFilter; SetFilterType "filter" lowpass;
    SetValueAtTime (Local "filter") p_frequency (filterFreq settings) time;
    LinearRampToValueAtTime (Local "filter") p_frequency
      (filterFreq settings * lit 0.8) (time + lit 0.2);
    SetValue (Local "filter") p_Q (lit 2);
    Create "gain" Gain;
    SetValueAtTime (Local "gain") p_gain (lit 0.8) time;
    ExponentialRampToValueAtTime (Local "gain") p_gain (lit 0.001)
      (time + lit 0.3);
    Connect (Local "osc") (Input (Local "filter"));
    Connect (Local "filter") (Input (Local "gain"));
    Connect (Local "gain") (Input (Shared MasterGain));
    Start "osc" time; Stop "osc" (time + lit 0.4) ].

End Words.

(** [lo <= v <= hi] on binary64; false for NaN. *)
Definition within (range : float * float) (v : float) : bool :=
  PrimFloat.leb (fst range) v && PrimFloat.leb v (snd range).

End SpecWords.
Export SpecWords.

(* ================================================================== *)
(** ** A concrete session, on binary64 *)
(* ================================================================== *)

Module Demo.
Local Open Scope string_scope.

Definition demo_context : AudioContext float :=
  {| currentTime := lit 1; sampleRate := lit 44100; state := running |}.

(** 120 bpm, kicks on the four beats, a bass line whose second slot holds
    a name that is not a note, one lead note. *)
Definition demo_track : TrackData float :=
  {| bpm := lit 120; key := "Am"; mood := "Glitchy"; visualSummary := "";
     soundEffect := Some none;
     synthSettings :=
       {| waveform := sine; cutoff := lit 1000; resonance := lit 2;
          attack := lit 0.01; decay := lit 0.5 |};
     bassSettings := {| bass_waveform := square; filterFreq := lit 400 |};
     drumSettings := {| kickPunch := lit 0.5; hatBright := lit 0.5 |};
     sequences :=
       {| kick := [true; false; false; false; true; false; false; false;
                   true; false; false; false; true; false; false; false];
          hat := repeat false 16;
          bass := Some "C2" :: Some "constructor" :: repeat None 14;
          lead := None :: None :: Some "A4" :: repeat None 13;
          sfx := Some (repeat false 16);
          custom := Some (repeat true 16) |} |}.

(** Kicks only: the scenario of the specification. *)
Definition kick_only_track : TrackData float :=
  {| bpm := lit 120; key := "Am"; mood := "Glitchy"; visualSummary := "";
     soundEffect := Some none;
     synthSettings := synthSettings demo_track;
     bassSettings := bassSettings demo_track;
     drumSettings := drumSettings demo_track;
     sequences :=
       {| kick := kick (sequences demo_track);
          hat := repeat false 16;
          bass := repeat None 16;
          lead := repeat None 16;
          sfx := None;
          custom := None |} |}.

Definition demo_engine : Engine float :=
  loadTrack demo_track (init demo_context new_engine).

(** The same track on exact rationals. *)
Definition exact_track : TrackData Q :=
  {| bpm := 120; key := "Am"; mood := "Glitchy"; visualSummary := "";
     soundEffect := None;
     synthSettings :=
       {| waveform := sine; cutoff := 1000; resonance := 2;
          attack := 0.01; decay := 0.5 |}%Q;
     bassSettings := {| bass_waveform := square; filterFreq := 400%Q |};
     drumSettings := {| kickPunch := 0.5; hatBright := 0.5 |}%Q;
     sequences :=
       {| kick := kick (sequences demo_track);
          hat := repeat false 16;
          bass := repeat None 16;
          lead := repeat None 16;
          sfx := None;
          custom := None |} |}.

Definition exact_engine : Engine Q := loadTrack exact_track new_engine.

(** A decoder that accepts nothing, and one that accepts everything. *)
Definition reject_all : ArrayBuffer -> Exn + AudioBuffer float :=
  fun _ => inl (EncodingError "Unable to decode audio data").

Definition decoded_sample : AudioBuffer float :=
  {| buffer_sampleRate := lit 44100;
     channelData := [[lit 0; lit 0.5; lit 0; lit (-0.5)]] |}.

Definition accept_all : ArrayBuffer -> Exn + AudioBuffer float :=
  fun _ => inr decoded_sample.

(** The device moves on: the clock reads [t] and the reverb send is
    heard at gain [v]; its scheduled events are untouched. *)
Definition later (t v : float) (e : Engine float) : Engine float :=
  match ctx e, reverbSend e with
  | Some c, Some send =>
      set_reverbSend
        (Some {| gain := {| value := v; events := events (gain send) |} |})
        (set_ctx (Some {| currentTime := t; sampleRate := sampleRate c;
                          state := state c |}) e)
  | _, _ => e
  end.

(** A first reverb gesture at time 1, seen again half a second later,
    in the middle of its decay. *)
Definition mid_decay : Engine float :=
  later (lit 1.5) (lit 0.5) (triggerGestureFX "reverb" demo_engine).

End Demo.
Export Demo.

(* ================================================================== *)
(** ** Binary64 numbers as the rationals they are *)
(* ================================================================== *)

Module Binary64.
Local Open Scope Q_scope.

(** [2^e], for any integer [e]. *)
Definition pow2 (e : Z) : Q := 2 ^ e.

(** The rational a binary64 number is: mantissa times a power of two.
    NaN and the infinities are none. *)
Definition SF2Q (x : spec_float) : option Q :=
  match x with
  | S754_zero _ => Some 0
  | S754_finite s m e => Some (inject_Z (cond_Zopp s (Zpos m)) * pow2 e)
  | S754_infinity _ | S754_nan => None
  end.

Definition real (x : float) : option Q := SF2Q (Prim2SF x).

(** The relative error of one correctly rounded operation: [2^-53]. *)
Definition u53 : Q := 1 # 9007199254740992.

(** The tolerance of the step clock: [2^-48], relative to the time it
    has reached. *)
Definition float_tolerance : Q := 1 # 281474976710656.

(** Where an exact quantity [Y] lies, given the mantissa it was cut to
    with its round and sticky bits. *)
Definition located (Y : Q) (mrs : shr_record) : Prop :=
  let m := inject_Z (shr_m mrs) in
  match shr_r mrs, shr_s mrs with
  | false, false => Y == m
  | false, true => m < Y /\ Y < m + (1#2)
  | true, false => Y == m + (1#2)
  | true, true => m + (1#2) < Y /\ Y < m + 1
  end.

(** [k] additions of [d] to [t], each followed by a multiplication by
    [c]: with [c = 1 - u53] and [c = 1 + u53], the least and the most
    that [k] rounded additions can give. *)
Fixpoint acc (c : Q) (k : nat) (t d : Q) : Q :=
  match k with
  | O => t
  | S k' => (acc c k' t d + d) * c
  end.

(** The demo track at 118 bpm, its next step due at 1.1 s. *)
Definition track_118 : TrackData float :=
  {| bpm := lit 118; key := key demo_track; mood := mood demo_track;
     visualSummary := visualSummary demo_track;
     soundEffect := soundEffect demo_track;
     synthSettings := synthSettings demo_track;
     bassSettings := bassSettings demo_track;
     drumSettings := drumSettings demo_track;
     sequences := sequences demo_track |}.

Definition engine_118 : Engine float :=
  set_nextNoteTime (lit 1.1)
    (loadTrack track_118 (init demo_context new_engine)).

End Binary64.
Export Binary64.

(* ================================================================== *)
(** ** The engine over time *)
(* ================================================================== *)

Module Session.
Section Session.
Context {N : Type} `{JsNumber N}.
Local Open Scope js_scope.

(** [engine.onStep = cb], which the host does from outside. *)
Definition set_onStep (v : option Callback) (e : Engine N) : Engine N :=
  {| ctx := ctx e; masterGain := masterGain e;
     masterFilter := masterFilter e; compressor := compressor e;
     analyser := analyser e; reverbNode := reverbNode e;
     reverbSend := reverbSend e; delayNode := delayNode e;
     delayFeedback := delayFeedback e; delaySend := delaySend e;
     distortionNode := distortionNode e;
     distortionSend := distortionSend e; wiring := wiring e;
     nextNoteTime := nextNoteTime e; currentStep := currentStep e;
     timerID := timerID e; isPlaying := isPlaying e;
     trackData := trackData e; mediaRecorder := mediaRecorder e;
     dest := dest e; recordedChunks := recordedChunks e;
     customBuffer := customBuffer e; isCustomMuted := isCustomMuted e;
     tempoModifier := tempoModifier e;
     bassDistortionActive := bassDistortionActive e; onStep := v |}.

(** The device clock reads [t] and the context is in state [s]. *)
Definition tick_clock (t : N) (s : ContextState) (e : Engine N) : Engine N :=
  match ctx e with
  | Some c =>
      set_ctx (Some {| currentTime := t; sampleRate := sampleRate c;
                       state := s |}) e
  | None => e
  end.

(** The states the engine can be in: from the constructor, by the public
    methods, the timer callback, the recorder's data handler, and the
    device clock. *)
Inductive reachable : Engine N -> Prop :=
| reach_new : reachable new_engine
| reach_clock t s e : reachable e -> reachable (tick_clock t s e)
| reach_onStep cb e : reachable e -> reachable (set_onStep cb e)
| reach_init fresh e : reachable e -> reachable (init fresh e)
| reach_loadCustomSample fresh decode arrayBuffer e :
    reachable e ->
    reachable (fst (loadCustomSample fresh decode arrayBuffer e))
| reach_decoded r e :
    reachable e -> ctx e <> None ->
    reachable (fst (loadCustomSample_decoded r e))
| reach_muteCustomTrack mute e :
    reachable e -> reachable (muteCustomTrack mute e)
| reach_loadTrack data e : reachable e -> reachable (loadTrack data e)
| reach_play fuel id e e' r :
    reachable e -> play fuel id e = Some (e', r) -> reachable e'
| reach_scheduler fuel id e e' r :
    reachable e -> scheduler fuel id e = Some (e', r) -> reachable e'
| reach_stop e : reachable e -> reachable (fst (stop e))
| reach_startRecording opus e :
    reachable e -> reachable (startRecording opus e)
| reach_ondataavailable data e :
    reachable e -> reachable (ondataavailable data e)
| reach_stopRecording flushed e :
    reachable e -> reachable (fst (stopRecording flushed e))
| reach_setVolume level e : reachable e -> reachable (setVolume level e)
| reach_setTempoModifier x e :
    reachable e -> reachable (setTempoModifier x e)
| reach_setBassDistortion active e :
    reachable e -> reachable (setBassDistortion active e)
| reach_triggerGestureFX token e :
    reachable e -> reachable (triggerGestureFX token e).

(** What holds in every such state. *)
Definition session_ok (e : Engine N) : Prop :=
  graph_ok e /\
  (currentStep e < 16)%nat /\
  (isPlaying e = true -> initialised e = true /\ trackData e <> None) /\
  (tempoModifier e = lit 1.0 \/ exists x, tempoModifier e = clamp_tempo x) /\
  (mediaRecorder e <> None -> dest e <> None) /\
  isSome (dest e) = isSome (ctx e).


(** Every entry of the log of a run passes the test [P]. *)
Definition log_all {A} (P : Event N -> bool) (m : Run (Event N) A) : Prop :=
  forallb P (logged m) = true.


(** Two engines that agree on what [session_ok] reads. *)
Definition same_core (e e' : Engine N) : Prop :=
  initialised e' = initialised e /\ isSome (ctx e') = isSome (ctx e) /\
  currentStep e' = currentStep e /\ isPlaying e' = isPlaying e /\
  isSome (trackData e') = isSome (trackData e) /\
  tempoModifier e' = tempoModifier e /\
  isSome (mediaRecorder e') = isSome (mediaRecorder e) /\
  isSome (dest e') = isSome (dest e).

(** What the first [k] rounds of the scheduler loop log, from [e]. *)
Fixpoint dispatched (k : nat) (e : Engine N) : list (Event N) :=
  match k with
  | O => []
  | S k' =>
      logged (scheduleStep e (currentStep e) (nextNoteTime e))
      ++ dispatched k' (nextStep e)
  end.

(** The kinds of one-shot voices. *)
Definition is_ambience (k : VoiceKind) : bool :=
  match k with
  | People | Meow | Bark | Chirp | NoiseBurst | Machinery | Traffic => true
  | Kick | Hat | Bass | Lead | Custom | Cowbell => false
  end.

(** The voice function behind each sound effect tag. *)
Definition one_shot_kind (s : SoundEffect) : option VoiceKind :=
  match s with
  | cat => Some Meow
  | dog => Some Bark
  | bird => Some Chirp
  | thunder | water | wind => Some NoiseBurst
  | traffic => Some Traffic
  | machinery => Some Machinery
  | people => Some People
  | none => None
  end.

(** All the voices of a log, whatever their kind. *)
Fixpoint voices (l : list (Event N)) : list (VoiceKind * list (Cmd N)) :=
  match l with
  | [] => []
  | Voice k requests :: rest => (k, requests) :: voices rest
  | _ :: rest => voices rest
  end.

(** Every source of every voice of the log starts at [time], or, for the
    second bark of a dog, 0.18 s later. *)
Definition starts_on (time : N) (l : list (Event N)) : Prop :=
  forall k requests name t,
    In (k, requests) (voices l) -> In (name, t) (starts requests) ->
    t = time \/ (k = Bark /\ t = time + lit 0.18).

End Session.
End Session.
Export Session.

(* ================================================================== *)
(** ** The checks on a generated track ([analyzeImage]) *)
(* ================================================================== *)

Module Gemini.
Section Gemini.
Context {N : Type}.

(** The three safety checks [analyzeImage] runs on the parsed document
    before it returns it. *)
Definition safety_checks (data : TrackData N) : TrackData N :=
  let seqs := sequences data in
  {| bpm := bpm data; key := key data; mood := mood data;
     visualSummary := visualSummary data;
     soundEffect := soundEffect data;
     synthSettings := synthSettings data;
     bassSettings := bassSettings data;
     drumSettings := drumSettings data;
     sequences :=
       {| kick := if Nat.eqb (List.length (kick seqs)) 16
                  then kick seqs else repeat false 16;
          hat := hat seqs;
          bass := bass seqs;
          lead := lead seqs;
          sfx := match sfx seqs with
                 | Some a => Some a
                 | None => Some (repeat false 16)
                 end;
          custom := match custom seqs with
                    | Some a => Some a
                    | None => Some (repeat false 16)
                    end |} |}.

End Gemini.
End Gemini.
Export Gemini.

(* ================================================================== *)
(** ** The sequencer grid ([SequencerGrid]) *)
(* ================================================================== *)

Module Grid.
Local Open Scope string_scope.

Record GridTrack := {
  name : string;
  steps : list bool;
  isSfx : bool;
  isUser : bool
}.

(** The rows the grid shows: five, and the user row once a custom sound
    is there. *)
Definition tracks {N} (data : TrackData N) (hasCustomSound : bool)
  : list GridTrack :=
  [ {| name := "KICK"; steps := kick (sequences data);
       isSfx := false; isUser := false |};
    {| name := "HIHAT"; steps := hat (sequences data);
       isSfx := false; isUser := false |};
    {| name := "BASS"; steps := map ToBoolean_slot (bass (sequences data));
       isSfx := false; isUser := false |};
    {| name := "LEAD"; steps := map ToBoolean_slot (lead (sequences data));
       isSfx := false; isUser := false |};
    {| name := "SFX";
       steps := match sfx (sequences data) with
                | Some a => a
                | None => repeat false 16
                end;
       isSfx := true; isUser := false |} ]
  ++ (if hasCustomSound
      then [ {| name := "USER";
                steps := match custom (sequences data) with
                         | Some a => a
                         | None => repeat false 16
                         end;
                isSfx := false; isUser := true |} ]
      else []).

(** The cell of row [row] at [step] is lit. *)
Definition lit_at {N} (data : TrackData N) (hasCustomSound : bool)
    (row : string) (step : nat) : Prop :=
  exists t, In t (tracks data hasCustomSound) /\ name t = row /\
            nth_error (steps t) step = Some true.

End Grid.

(* ================================================================== *)
(** ** The camera overlay ([LiveCameraOverlay]), as far as it drives the
       engine *)
(* ================================================================== *)

Module Overlay.
Section Overlay.
Context {N : Type} `{JsNumber N}.

(** The three functions of [Math] the overlay uses beyond the engine's. *)
Variable Math_abs : N -> N.
Variable Math_sqrt : N -> N.
Variable Math_pow : N -> N -> N.

Local Open Scope js_scope.
Local Open Scope string_scope.

(** *** Face *)

Record Category := {
  categoryName : string;
  score : N
}.

(** [categories.find(c => c.categoryName === name)?.score || 0] *)
Definition getScore (categories : list Category) (name : string) : N :=
  match find (fun c => String.eqb (categoryName c) name) categories with
  | Some c => if ToBoolean_number (score c) then score c else lit 0
  | None => lit 0
  end.

(** What the overlay writes over the face; the numbers are shown
    formatted, which is left out. *)
Inductive Label :=
| VOL (percent : N)
| SPEED (speedMod : N)
| COWBELL_808.

(** [analyzeFaceExpression(categories)]: the engine after it, the new
    [wasBlinking], what the engine was made to sound, and the labels. *)
Definition analyzeFaceExpression (categories : list Category)
    (wasBlinking : bool) (audioEngine : Engine N)
  : Engine N * bool * Run (Event N) unit * list Label :=
  let jawOpen := getScore categories "jawOpen" in
  let mouthSmile :=
    (getScore categories "mouthSmileLeft"
     + getScore categories "mouthSmileRight") / lit 2 in
  let eyeBlink :=
    (getScore categories "eyeBlinkLeft"
     + getScore categories "eyeBlinkRight") / lit 2 in
  let volume := Math_min (lit 1.0) (lit 0.5 + jawOpen * lit 2) in
  let e1 := setVolume volume audioEngine in
  let detected1 :=
    if (lit 0.2 <? jawOpen)%js then [VOL (volume * lit 100)] else [] in
  let speedMod := lit 1.0 + mouthSmile * lit 0.5 in
  let e2 := setTempoModifier speedMod e1 in
  let detected2 :=
    if (lit 0.3 <? mouthSmile)%js then [SPEED speedMod] else [] in
  let isBlinking := (lit 0.4 <? eyeBlink)%js in
  let sounded :=
    if isBlinking && negb wasBlinking then triggerCowbell e2 else ret tt in
  let e3 := setBassDistortion false e2 in
  let detected3 := if isBlinking then [COWBELL_808] else [] in
  (e3, isBlinking, sounded, (detected1 ++ detected2 ++ detected3)%list).

(** A run of face frames, each with the device time it is seen at: the
    engine and [wasBlinking] at the end, and all that sounded. *)
Fixpoint face_frames (frames : list (N * list Category))
    (wasBlinking : bool) (e : Engine N)
  : Engine N * bool * list (Event N) :=
  match frames with
  | [] => (e, wasBlinking, [])
  | (t, categories) :: rest =>
      let e0 := match ctx e with
                | Some c => tick_clock t (state c) e
                | None => e
                end in
      let '(e1, blinking, sounded, _) :=
        analyzeFaceExpression categories wasBlinking e0 in
      let '(e2, blinking', l) := face_frames rest blinking e1 in
      (e2, blinking', (logged sounded ++ l)%list)
  end.

(** Whether a frame blinks. *)
Definition blinks (categories : list Category) : bool :=
  (lit 0.4 <? (getScore categories "eyeBlinkLeft"
               + getScore categories "eyeBlinkRight") / lit 2)%js.

(** The number of times a run of flags goes from false to true. *)
Fixpoint rising_edges (was : bool) (flags : list bool) : nat :=
  match flags with
  | [] => 0
  | b :: rest =>
      (if b && negb was then 1 else 0) + rising_edges b rest
  end.

(** *** Hand *)

Record Landmark := {
  x : N;
  y : N
}.

(** The refs the hand detector keeps between frames. *)
Record HandState := {
  lastGestureTime : Z;
  wristHistory : list N
}.

Definition initial_hand : HandState :=
  {| lastGestureTime := 0; wristHistory := [] |}.

Definition distance (p1 p2 : Landmark) : N :=
  Math_sqrt (Math_pow (x p1 - x p2) (lit 2) + Math_pow (y p1 - y p2) (lit 2)).

(** The tracker always delivers its 21 landmarks, so every read is of a
    landmark that is there. *)
Definition isFingerOpen (landmarks : nat -> Landmark) (tipIdx pipIdx : nat)
  : bool :=
  (y (landmarks tipIdx) <? y (landmarks pipIdx))%js.

(** [push], then [shift] once the history is longer than 5. *)
Definition push_wrist (history : list N) (wrist_x : N) : list N :=
  let pushed := (history ++ [wrist_x])%list in
  if Nat.ltb 5 (List.length pushed) then tl pushed else pushed.

Definition velocity (history : list N) : N :=
  if Nat.ltb 1 (List.length history)
  then Math_abs (last history (lit 0) - hd (lit 0) history)
  else lit 0.

(** The gesture a hand shows, if any, given the wrist history with this
    frame in it. *)
Definition hand_gesture (landmarks : nat -> Landmark) (history : list N)
  : option string :=
  let indexOpen := isFingerOpen landmarks 8 6 in
  let middleOpen := isFingerOpen landmarks 12 10 in
  let ringOpen := isFingerOpen landmarks 16 14 in
  let pinkyOpen := isFingerOpen landmarks 20 18 in
  let thumbTip := landmarks 4%nat in
  let indexTip := landmarks 8%nat in
  if (distance thumbTip indexTip <? lit 0.05)%js then Some "distortion"
  else if negb indexOpen && negb middleOpen && negb ringOpen
          && negb pinkyOpen then Some "filter"
  else if indexOpen && middleOpen && ringOpen && pinkyOpen then
    if (lit 0.08 <? velocity history)%js then Some "reverb" else Some "delay"
  else None.

(** [detectHandGesture(landmarks)].  [now1] and [now2] are the two
    readings of [Date.now()], in milliseconds: the one tested and the one
    stored.  Beside the new refs and engine: the token sent, if any. *)
Definition detectHandGesture (landmarks : nat -> Landmark) (now1 now2 : Z)
    (h : HandState) (audioEngine : Engine N)
  : HandState * Engine N * option string :=
  let wrist := landmarks 0%nat in
  let history := push_wrist (wristHistory h) (x wrist) in
  match hand_gesture landmarks history with
  | Some gesture =>
      if (300 <? now1 - lastGestureTime h)%Z then
        ({| lastGestureTime := now2; wristHistory := history |},
         triggerGestureFX gesture audioEngine, Some gesture)
      else
        ({| lastGestureTime := lastGestureTime h; wristHistory := history |},
         audioEngine, None)
  | None =>
      ({| lastGestureTime := lastGestureTime h; wristHistory := history |},
       audioEngine, None)
  end.

(** A run of hand frames: the refs and engine at the end, and the tokens
    sent with the times tested and stored. *)
Fixpoint hand_frames (frames : list ((nat -> Landmark) * Z * Z))
    (h : HandState) (e : Engine N)
  : HandState * Engine N * list (string * Z * Z) :=
  match frames with
  | [] => (h, e, [])
  | (landmarks, now1, now2) :: rest =>
      let '(h1, e1, sent) := detectHandGesture landmarks now1 now2 h e in
      let '(h2, e2, l) := hand_frames rest h1 e1 in
      (h2, e2,
       match sent with
       | Some token => (token, now1, now2) :: l
       | None => l
       end)
  end.

(** Each token of the list was tested more than 300 ms after the time
    stored for the one before it ([last] to begin with). *)
Fixpoint spaced (last : Z) (sent : list (string * Z * Z)) : Prop :=
  match sent with
  | [] => True
  | (_, now1, now2) :: rest => (300 < now1 - last)%Z /\ spaced now2 rest
  end.

End Overlay.
End Overlay.

(* ================================================================== *)
(** ** The live session service ([LiveSessionService]) *)
(* ================================================================== *)

Module Live.
Local Open Scope string_scope.
Local Open Scope run_scope.

(** A function call of a tool-call message: [fc.id], [fc.name] and
    [fc.args.effect]. *)
Record FunctionCall := {
  id : string;
  name : string;
  effect : option string
}.

Inductive SessionHandle := LiveSocket.

Record LiveSessionService := {
  session : option SessionHandle;
  onEffectCallback : option Callback;
  isConnected : bool
}.

(** What the service does to the outside. *)
Inductive LiveEvent :=
| ConsoleLog (message : string) (effect : option string)
| OnEffect (effect : string)                 (* this.onEffectCallback(effect) *)
| SendToolResponse (id name : string)        (* acknowledges a call *)
| SendRealtimeInput (data : string)
| ConsoleErrorSending.

(** The body of the loop of [handleMessage], for one call. *)
Definition handle_call (s : LiveSessionService) (fc : FunctionCall)
  : Run LiveEvent unit :=
  when (String.eqb (name fc) "triggerEffect")
    (log (ConsoleLog "AI TRIGGERED EFFECT:" (effect fc)) ;;
     match onEffectCallback s, effect fc with
     | Some _, Some ef =>
         when (negb (String.eqb ef "")) (log (OnEffect ef))
     | _, _ => ret tt
     end ;;
     match session s with
     | Some _ => log (SendToolResponse (id fc) (name fc))
     | None =>
         throw (TypeError "Cannot read properties of null")
     end).

Fixpoint handle_calls (s : LiveSessionService) (calls : list FunctionCall)
  : Run LiveEvent unit :=
  match calls with
  | [] => ret tt
  | fc :: rest => handle_call s fc ;; handle_calls s rest
  end.

(** [handleMessage(message)]: [toolCall] is [message.toolCall], with its
    function calls, when the message has one. *)
Definition handleMessage (s : LiveSessionService)
    (toolCall : option (list FunctionCall)) : Run LiveEvent unit :=
  match toolCall with
  | Some functionCalls => handle_calls s functionCalls
  | None => ret tt
  end.

(** [sendVideoFrame(base64Image)]; [accepted] tells whether the session
    takes the frame or rejects it. *)
Definition sendVideoFrame (s : LiveSessionService) (base64Image : string)
    (accepted : bool) : Run LiveEvent unit :=
  match isConnected s, session s with
  | true, Some _ =>
      log (SendRealtimeInput base64Image) ;;
      when (negb accepted) (log ConsoleErrorSending)
  | _, _ => ret tt
  end.

Definition disconnect (s : LiveSessionService) : LiveSessionService :=
  match session s with
  | Some _ =>
      {| session := None; onEffectCallback := onEffectCallback s;
         isConnected := false |}
  | None => s
  end.

(** The calls of a message that ask for an effect. *)
Definition effect_calls (calls : list FunctionCall) : list FunctionCall :=
  filter (fun fc => String.eqb (name fc) "triggerEffect") calls.

(** The effect of a call, when it has one worth forwarding. *)
Definition forwarded (fc : FunctionCall) : list LiveEvent :=
  match effect fc with
  | Some ef => if String.eqb ef "" then [] else [OnEffect ef]
  | None => []
  end.

End Live.

(* ================================================================== *)
(** ** More concrete sessions *)
(* ================================================================== *)

Module Scenes.
Local Open Scope string_scope.

(** The exact engine, initialised at time 0. *)
Definition exact_context : AudioContext Q :=
  {| currentTime := 0; sampleRate := 44100; state := running |}.

Definition exact_playing : Engine Q := init exact_context exact_engine.

(** A track with nothing in it, at a tempo whose step is shorter than the
    spacing of binary64 numbers around one second. *)
Definition runaway_track : TrackData float :=
  {| bpm := lit 1000000000000000000; key := "Am"; mood := "Glitchy";
     visualSummary := "";
     soundEffect := Some none;
     synthSettings := synthSettings demo_track;
     bassSettings := bassSettings demo_track;
     drumSettings := drumSettings demo_track;
     sequences :=
       {| kick := []; hat := []; bass := []; lead := [];
          sfx := None; custom := None |} |}.

Definition runaway_engine : Engine float :=
  set_nextNoteTime (lit 1.1)
    (loadTrack runaway_track (init demo_context new_engine)).


End Scenes.
Export Scenes.

(* ================================================================== *)
(** * Properties *)
(* ================================================================== *)

(** ** Runs and observations *)

Section RunLaws.
Context {N : Type} `{JsNumber N}.

Lemma logged_bind {L A B} (m : Run L A) (k : A -> Run L B) :
  logged (bind m k) =
  logged m ++ match outcome m with
              | inr a => logged (k a)
              | inl _ => []
              end.
Proof.
  destruct m as [l [ex | a]]; cbn.
  - now rewrite app_nil_r.
  - now destruct (k a).
Qed.

Lemma outcome_bind {L A B} (m : Run L A) (k : A -> Run L B) :
  outcome (bind m k) =
  match outcome m with
  | inr a => outcome (k a)
  | inl ex => inl ex
  end.
Proof.
  destruct m as [l [ex | a]]; cbn; [reflexivity | now destruct (k a)].
Qed.

Lemma voices_of_app k (l1 l2 : list (Event N)) :
  voices_of k (l1 ++ l2) = voices_of k l1 ++ voices_of k l2.
Proof.
  induction l1 as [| ev l1 IH]; cbn; [reflexivity |].
  destruct ev as [k' requests | | | |]; try assumption.
  destruct (VoiceKind_eqb k k'); cbn; now rewrite IH.
Qed.

Lemma fires_no_ret {A} k (a : A) : fires_no k (ret a : Run (Event N) A).
Proof. reflexivity. Qed.

Lemma fires_no_bind {A B} k (m : Run (Event N) A) (f : A -> Run (Event N) B) :
  fires_no k m -> (forall a, fires_no k (f a)) -> fires_no k (bind m f).
Proof.
  unfold fires_no. intros Hm Hf.
  rewrite logged_bind, voices_of_app, Hm. cbn.
  destruct (outcome m); [reflexivity | apply Hf].
Qed.

Lemma fires_no_when k b (m : Run (Event N) unit) :
  fires_no k m -> fires_no k (when b m).
Proof. destruct b; [trivial | reflexivity]. Qed.

Lemma fires_no_voice k k' (b : Run (Cmd N) unit) :
  VoiceKind_eqb k k' = false -> fires_no k (voice k' b).
Proof. unfold fires_no, voice. cbn. now intros ->. Qed.

Lemma fires_no_triggerHat k (e : Engine N) time bright :
  VoiceKind_eqb k Hat = false -> fires_no k (triggerHat e time bright).
Proof.
  intros Hk. unfold triggerHat.
  destruct (ctx e), (masterGain e);
    auto using fires_no_voice, fires_no_ret.
Qed.

Lemma fires_no_triggerBass k (e : Engine N) time freq settings :
  VoiceKind_eqb k Bass = false ->
  fires_no k (triggerBass e time freq settings).
Proof.
  intros Hk. unfold triggerBass.
  destruct (ctx e), (masterGain e), (bassDistortionActive e);
    auto using fires_no_voice, fires_no_ret.
Qed.

Lemma fires_no_triggerLead k (e : Engine N) time freq settings :
  VoiceKind_eqb k Lead = false ->
  fires_no k (triggerLead e time freq settings).
Proof.
  intros Hk. unfold triggerLead.
  destruct (ctx e), (masterGain e);
    auto using fires_no_voice, fires_no_ret.
Qed.

Lemma fires_no_triggerSFX (e : Engine N) time type :
  fires_no Kick (triggerSFX e time type).
Proof.
  unfold triggerSFX, synthesizeMeow, synthesizeBark, synthesizeChirp,
    synthesizeThunder, synthesizeWater, synthesizeWind, synthesizeTraffic,
    synthesizeMachinery, synthesizePeople, synthesizeNoiseBurst.
  destruct (ctx e), (masterGain e), type;
    auto using fires_no_voice, fires_no_ret.
Qed.

Lemma fires_no_triggerCustomSample k (e : Engine N) time :
  VoiceKind_eqb k Custom = false -> fires_no k (triggerCustomSample e time).
Proof.
  intros Hk. unfold triggerCustomSample.
  destruct (ctx e), (masterGain e), (customBuffer e), (isCustomMuted e);
    auto using fires_no_voice, fires_no_ret.
Qed.

Lemma fires_no_dispatch_note k note
    (trigger : JsValue N -> Run (Event N) unit) :
  (forall freq, fires_no k (trigger freq)) ->
  fires_no k (dispatch_note note trigger).
Proof.
  intros Ht. unfold dispatch_note.
  apply fires_no_when. destruct note; [apply fires_no_when, Ht | reflexivity].
Qed.

End RunLaws.

(** ** Reachable states have their graph *)

Section Reachable.
Context {N : Type} `{JsNumber N}.

Lemma graph_ok_new_engine : graph_ok (new_engine : Engine N).
Proof. now left. Qed.

Lemma init_initialised (fresh : AudioContext N) (e : Engine N) :
  graph_ok e -> initialised (init fresh e) = true.
Proof.
  intros [Hnone | Hinit]; unfold init.
  - rewrite Hnone. cbn. destruct (state fresh); reflexivity.
  - unfold initialised in Hinit.
    destruct (ctx e) as [c |] eqn:Hc; [| discriminate]. rewrite Hc.
    destruct (state c); try (unfold initialised; now rewrite Hc).
    unfold initialised in *. cbn. exact Hinit.
Qed.

Lemma initialised_nodes (e : Engine N) :
  initialised e = true ->
  exists c g d,
    ctx e = Some c /\ masterGain e = Some g /\ distortionNode e = Some d.
Proof.
  unfold initialised.
  destruct (ctx e) as [c |], (masterGain e) as [g |],
    (distortionNode e) as [d |];
    cbn; rewrite ?andb_false_r; try discriminate; eauto 6.
Qed.

Lemma initialised_sends (e : Engine N) :
  initialised e = true ->
  exists c rs mf ds dl,
    ctx e = Some c /\ reverbSend e = Some rs /\ masterFilter e = Some mf /\
    distortionSend e = Some ds /\ delaySend e = Some dl.
Proof.
  unfold initialised.
  destruct (ctx e), (reverbSend e), (masterFilter e), (distortionSend e),
    (delaySend e); cbn; rewrite ?andb_false_r; try discriminate.
  intros _. do 5 eexists. repeat split.
Qed.

(** The methods that only touch the session fields keep the graph. *)
Lemma initialised_session (e : Engine N) data x flag mute :
  initialised e = true ->
  initialised (loadTrack data e) = true /\
  initialised (setTempoModifier x e) = true /\
  initialised (setBassDistortion flag e) = true /\
  initialised (muteCustomTrack mute e) = true /\
  initialised (nextStep e) = true.
Proof.
  intros Hinit. repeat split; try exact Hinit.
  unfold nextStep. destruct (trackData e); exact Hinit.
Qed.

(** Before [init], dispatch and the voices do nothing at all. *)
Lemma uninitialised_is_silent (e : Engine N) step time punch freq settings :
  ctx e = None ->
  scheduleStep e step time = ret tt /\
  triggerKick e time punch = ret tt /\
  triggerBass e time freq settings = ret tt /\
  triggerGestureFX "reverb" e = e.
Proof.
  intros Hnone. unfold scheduleStep, triggerKick, triggerBass,
    triggerGestureFX. rewrite Hnone.
  destruct (trackData e); auto.
Qed.

End Reachable.

(** ** Step dispatch *)

Section Dispatch.
Context {N : Type} `{JsNumber N}.
Local Open Scope js_scope.
Local Open Scope string_scope.

(** The requests of a kick voice: what [triggerKick] does past its
    guard. *)
Lemma triggerKick_requests (e : Engine N) c g time punch :
  ctx e = Some c -> masterGain e = Some g ->
  triggerKick e time punch =
  ([Voice Kick
      [ Create "osc" Oscillator; Create "gain" Gain;
        Connect (Local "osc") (Input (Local "gain"));
        Connect (Local "gain") (Input (Shared MasterGain));
        SetValueAtTime (Local "osc") p_frequency
          (lit 150 + punch * lit 100) time;
        ExponentialRampToValueAtTime (Local "osc") p_frequency (lit 45)
          (time + lit 0.08);
        SetValueAtTime (Local "gain") p_gain (lit 1.0) time;
        ExponentialRampToValueAtTime (Local "gain") p_gain (lit 0.001)
          (time + lit 0.25 + punch * lit 0.1);
        Start "osc" time; Stop "osc" (time + lit 0.3) ]],
   inr tt).
Proof. intros Hc Hg. unfold triggerKick. rewrite Hc, Hg. reflexivity. Qed.

(** What follows the kick in a step fires no kick. *)
Lemma after_kick_fires_no_kick (e : Engine N) td step time :
  fires_no Kick
    ((when (ToBoolean_at (hat (sequences td)) step)
        (triggerHat e time (hatBright (drumSettings td))) ;;
      dispatch_note (slot_at (bass (sequences td)) step)
        (fun freq => triggerBass e time freq (bassSettings td)) ;;
      dispatch_note (slot_at (lead (sequences td)) step)
        (fun freq => triggerLead e time freq (synthSettings td)) ;;
      match sfx (sequences td), soundEffect td with
      | Some sfx_seq, Some effect =>
          when (ToBoolean_at sfx_seq step && negb (is_none effect))
            (triggerSFX e time effect)
      | _, _ => ret tt
      end ;;
      match customBuffer e with
      | Some _ =>
          when (match custom (sequences td) with
                | Some custom_seq => ToBoolean_at custom_seq step
                | None => false
                end && negb (isCustomMuted e))
            (triggerCustomSample e time)
      | None => ret tt
      end)%run).
Proof.
  apply fires_no_bind;
    [apply fires_no_when, fires_no_triggerHat; reflexivity | intros _].
  apply fires_no_bind;
    [apply fires_no_dispatch_note; intros;
     now apply fires_no_triggerBass | intros _].
  apply fires_no_bind;
    [apply fires_no_dispatch_note; intros;
     now apply fires_no_triggerLead | intros _].
  apply fires_no_bind.
  - destruct (sfx _), (soundEffect td); try reflexivity.
    apply fires_no_when, fires_no_triggerSFX.
  - intros _. destruct (customBuffer e); [| reflexivity].
    apply fires_no_when. now apply fires_no_triggerCustomSample.
Qed.

(** C1.  On an initialised engine with a track loaded, dispatching step
    [step] (one of the sixteen) for time [time] fires exactly one kick
    voice when [kick[step]] is true, namely the one [triggerKick] builds
    for [time], whose only source is started at [time]; and fires no kick
    voice when [kick[step]] is false. *)
Theorem scheduleStep_kick (e : Engine N) td c g step time :
  trackData e = Some td -> ctx e = Some c -> masterGain e = Some g ->
  (step < 16)%nat ->
  let fired := voices_of Kick (logged (scheduleStep e step time)) in
  (nth_error (kick (sequences td)) step = Some true ->
     exists requests,
       fired = [requests] /\
       logged (triggerKick e time (kickPunch (drumSettings td)))
         = [Voice Kick requests] /\
       starts requests = [("osc", time)]) /\
  (nth_error (kick (sequences td)) step = Some false -> fired = []).
Proof.
  intros Htd Hc Hg Hstep fired. subst fired.
  unfold scheduleStep. rewrite Htd, Hc, Hg.
  rewrite logged_bind, voices_of_app.
  assert (Hobserver : forall m : Run (Event N) unit,
            m = match onStep e with
                | Some _ =>
                    log (SetTimeout_onStep step
                           (Math_max (lit 0)
                              ((time - currentTime c) * lit 1000)))
                | None => ret tt
                end ->
            voices_of Kick (logged m) = [] /\ outcome m = inr tt).
  { intros m ->. destruct (onStep e); split; reflexivity. }
  destruct (Hobserver _ eq_refl) as [-> ->]. clear Hobserver. cbn [app].
  rewrite logged_bind, voices_of_app.
  set (rest := match outcome (when _ _) with inr _ => _ | inl _ => [] end).
  assert (Hrest : voices_of Kick rest = []).
  { subst rest. destruct (outcome _); [reflexivity |].
    apply after_kick_fires_no_kick. }
  rewrite Hrest, app_nil_r. clear Hrest rest.
  unfold ToBoolean_at.
  split; intros ->; cbn [when].
  - erewrite triggerKick_requests by eassumption. cbn.
    eexists. repeat split.
  - reflexivity.
Qed.

End Dispatch.

(** The kick rule at work: step 4 of the demo track has a kick, step 5
    has none. *)
Lemma scheduleStep_kick_witness :
  (exists requests,
     voices_of Kick (logged (scheduleStep demo_engine 4 (lit 1.6)))
       = [requests] /\
     starts requests = [("osc"%string, lit 1.6)]) /\
  voices_of Kick (logged (scheduleStep demo_engine 5 (lit 1.725))) = [].
Proof.
  split.
  - destruct (@scheduleStep_kick float _ demo_engine demo_track
                demo_context {| gain := new_param (lit 0.5) |} 4 (lit 1.6)
                eq_refl eq_refl eq_refl ltac:(lia)) as [Hkick _].
    destruct (Hkick eq_refl) as (requests & Hfired & _ & Hstart).
    exists requests. split; assumption.
  - destruct (@scheduleStep_kick float _ demo_engine demo_track
                demo_context {| gain := new_param (lit 0.5) |} 5 (lit 1.725)
                eq_refl eq_refl eq_refl ltac:(lia)) as [_ Hnone].
    exact (Hnone eq_refl).
Defined.

(** ** The clock *)

Section Clock.
Context {N : Type} `{JsNumber N}.
Local Open Scope js_scope.

(** With a track loaded, one advance adds a quarter of a beat at the
    modified tempo and moves the index on, modulo 16. *)
Lemma nextStep_loaded (e : Engine N) td :
  trackData e = Some td ->
  nextStep e =
  set_currentStep ((currentStep e + 1) mod 16)%nat
    (set_nextNoteTime
       (nextNoteTime e + lit 0.25 * (lit 60.0 / (bpm td * tempoModifier e)))
       e).
Proof. intros Htd. unfold nextStep. now rewrite Htd. Qed.

Lemma nextStep_keeps (e : Engine N) :
  trackData (nextStep e) = trackData e /\
  tempoModifier (nextStep e) = tempoModifier e.
Proof. unfold nextStep. destruct (trackData e) eqn:E; cbn; auto. Qed.

Lemma iter_nextStep_keeps n (e : Engine N) :
  trackData (Nat.iter n nextStep e) = trackData e /\
  tempoModifier (Nat.iter n nextStep e) = tempoModifier e.
Proof.
  induction n as [| n [IHt IHm]]; [auto |].
  rewrite Nat.iter_succ.
  destruct (nextStep_keeps (Nat.iter n nextStep e)) as [-> ->]. auto.
Qed.

Lemma iter_nextStep_step n (e : Engine N) td :
  trackData e = Some td -> (currentStep e < 16)%nat ->
  currentStep (Nat.iter n nextStep e) = ((currentStep e + n) mod 16)%nat.
Proof.
  intros Htd Hlt. induction n as [| n IH].
  - cbn [Nat.iter nat_rect]. rewrite Nat.add_0_r. symmetry.
    now apply Nat.mod_small.
  - rewrite Nat.iter_succ, (@nextStep_loaded _ td).
    + cbn [currentStep set_currentStep]. rewrite IH.
      rewrite Nat.Div0.add_mod_idemp_l. f_equal. lia.
    + now rewrite (proj1 (iter_nextStep_keeps _ _)).
Qed.

(** The step index stays one of the sixteen. *)
Lemma nextStep_step_bound (e : Engine N) :
  (currentStep e < 16)%nat -> (currentStep (nextStep e) < 16)%nat.
Proof.
  intros Hlt. unfold nextStep. destruct (trackData e); [| exact Hlt].
  cbn [currentStep set_currentStep]. apply Nat.mod_upper_bound. discriminate.
Qed.

(** On any numbers, [n] advances add the step length [n] times, one
    addition after the other. *)
Lemma iter_nextStep_time n (e : Engine N) td :
  trackData e = Some td ->
  nextNoteTime (Nat.iter n nextStep e) =
  Nat.iter n
    (fun t => t + lit 0.25 * (lit 60.0 / (bpm td * tempoModifier e)))
    (nextNoteTime e).
Proof.
  intros Htd. induction n as [| n IH]; [reflexivity |].
  rewrite !Nat.iter_succ, (@nextStep_loaded _ td).
  - cbn [nextNoteTime set_currentStep set_nextNoteTime].
    now rewrite IH, (proj2 (iter_nextStep_keeps _ _)).
  - now rewrite (proj1 (iter_nextStep_keeps _ _)).
Qed.

End Clock.

Section ExactClock.
Local Open Scope Q_scope.

Lemma Q_iter_add n (d t : Q) :
  Nat.iter n (fun t => t + d) t == t + inject_Z (Z.of_nat n) * d.
Proof.
  induction n as [| n IH].
  - cbn. ring.
  - rewrite Nat.iter_succ, IH, Nat2Z.inj_succ. unfold Z.succ.
    rewrite inject_Z_plus. ring.
Qed.

(** The clock in exact arithmetic: with a track of positive bpm loaded
    and a positive tempo modifier held fixed, one advance adds
    [0.25 * 60 / (bpm * m)] seconds to the next-trigger time and moves
    the step index on modulo 16; sixteen advances bring the step index
    back to where it started and add exactly
    [16 * 0.25 * 60 / (bpm * m)] seconds. *)
Theorem nextStep_periodic (e : Engine Q) (td : TrackData Q) :
  trackData e = Some td ->
  0 < bpm td -> 0 < tempoModifier e -> (currentStep e < 16)%nat ->
  let m := tempoModifier e in
  nextNoteTime (nextStep e) == nextNoteTime e + step_seconds (bpm td) m /\
  currentStep (nextStep e) = ((currentStep e + 1) mod 16)%nat /\
  tempoModifier (nextStep e) = m /\
  currentStep (Nat.iter 16 nextStep e) = currentStep e /\
  tempoModifier (Nat.iter 16 nextStep e) = m /\
  nextNoteTime (Nat.iter 16 nextStep e)
    == nextNoteTime e + 16 * 0.25 * 60 / (bpm td * m).
Proof.
  intros Htd Hbpm Hm Hstep m.
  assert (Hb : ~ bpm td == 0)
    by (intros E; rewrite E in Hbpm; now apply (Qlt_irrefl 0)).
  assert (Hm' : ~ m == 0)
    by (intros E; unfold m in E; rewrite E in Hm; now apply (Qlt_irrefl 0)).
  split; [| split; [| split; [| split; [| split]]]].
  - rewrite (nextStep_loaded e Htd). cbn. unfold step_seconds. cbn.
    fold m. field. auto.
  - now rewrite (nextStep_loaded e Htd).
  - apply nextStep_keeps.
  - rewrite (iter_nextStep_step 16 e Htd Hstep).
    rewrite Nat.Div0.add_mod, Nat.Div0.mod_same, Nat.add_0_r,
      Nat.Div0.mod_mod.
    now apply Nat.mod_small.
  - apply iter_nextStep_keeps.
  - rewrite (iter_nextStep_time 16 e Htd).
    change (@nadd Q Q_JsNumber) with Qplus.
    rewrite (Q_iter_add 16). cbn. fold m. field. auto.
Qed.

End ExactClock.

(** At 120 bpm and modifier 1, from step 0 and time 0: two seconds and
    back to step 0. *)
Lemma nextStep_periodic_witness :
  currentStep (Nat.iter 16 nextStep exact_engine) = 0%nat /\
  (nextNoteTime (Nat.iter 16 nextStep exact_engine)
   == 0 + 16 * 0.25 * 60 / (120 * 1.0))%Q.
Proof.
  destruct (@nextStep_periodic exact_engine exact_track eq_refl
              ltac:(reflexivity) ltac:(reflexivity) ltac:(cbn; lia))
    as (_ & _ & _ & Hstep & _ & Htime).
  split; [exact Hstep | exact Htime].
Defined.

(** The same sixteen advances on binary64, at 120 bpm: the rounded sums
    land on two seconds later exactly, and on step 0. *)
Example sixteen_steps_binary64 :
  let e := set_nextNoteTime (lit 1.1) demo_engine in
  currentStep (Nat.iter 16 nextStep e) = 0%nat /\
  nextNoteTime (Nat.iter 16 nextStep e) = PrimFloat.add (lit 1.1) (lit 2).
Proof. vm_compute. split; reflexivity. Qed.

(** The scenario of the specification: 120 bpm, modifier 1, kicks on
    steps 0, 4, 8 and 12 only.  Draining one bar from [t0 = 1.1] starts
    the four kicks at [t0], [t0 + 0.5], [t0 + 1.0] and [t0 + 1.5]. *)
Example scenario_four_kicks :
  let t0 : float := lit 1.1 in
  let e := set_isPlaying true
             (set_nextNoteTime t0
                (loadTrack kick_only_track (init demo_context new_engine))) in
  option_map
    (fun r => map (@starts float) (voices_of Kick (logged (snd r))))
    (drain 16 (lit 2.9) e)
  = Some [ [("osc"%string, t0)];
           [("osc"%string, PrimFloat.add t0 (lit 0.5))];
           [("osc"%string, PrimFloat.add t0 (lit 1.0))];
           [("osc"%string, PrimFloat.add t0 (lit 1.5))] ].
Proof. vm_compute. reflexivity. Qed.

(** ** The clock on binary64

    What the program computes: every operation of [nextStep] is a
    correctly rounded binary64 operation.  From the specification of
    rounding ([binary_round_aux], on which multiplication, division and
    addition all end) each of them is within [2^-53], relatively, of the
    exact result, as long as that result is in the normal range; the
    nineteen operations of sixteen advances then stay within [2^-48]. *)

Unset Implicit Arguments.



Section Powers.
Local Open Scope Q_scope.

Lemma pow2_pos e : 0 < pow2 e.
Proof. apply Qpower_0_lt. reflexivity. Qed.

Lemma pow2_add a b : pow2 (a + b) == pow2 a * pow2 b.
Proof. apply Qpower_plus. discriminate. Qed.

Lemma pow2_le a b : (a <= b)%Z -> pow2 a <= pow2 b.
Proof. intros Hab. apply Qpower_le_compat_l; [assumption | discriminate]. Qed.

Lemma pow2_lt a b : (a < b)%Z -> pow2 a < pow2 b.
Proof. intros Hab. apply Qpower_lt_compat_l; [assumption | reflexivity]. Qed.

Lemma pow2_Z n : (0 <= n)%Z -> pow2 n == inject_Z (2 ^ n).
Proof. intros Hn. symmetry. now apply Zpower_Qpower. Qed.

Lemma pow2_succ a : pow2 (a + 1) == 2 * pow2 a.
Proof. rewrite pow2_add. change (pow2 1) with 2. ring. Qed.

Lemma pow2_pred a : pow2 (a - 1) == pow2 a / 2.
Proof.
  setoid_replace (pow2 a) with (pow2 (a - 1 + 1)) at 1
    by (now replace (a - 1 + 1)%Z with a by lia).
  rewrite pow2_succ. field.
Qed.

End Powers.

Section Mantissas.

Lemma digits2_spec p :
  (2 ^ (Zpos (digits2_pos p) - 1) <= Zpos p < 2 ^ Zpos (digits2_pos p))%Z.
Proof.
  induction p as [p IH | p IH |]; cbn [digits2_pos].
  - rewrite Pos2Z.inj_succ.
    replace (Z.succ (Zpos (digits2_pos p)) - 1)%Z
      with (Z.succ (Zpos (digits2_pos p) - 1)) by lia.
    rewrite !Z.pow_succ_r by lia. lia.
  - rewrite Pos2Z.inj_succ.
    replace (Z.succ (Zpos (digits2_pos p)) - 1)%Z
      with (Z.succ (Zpos (digits2_pos p) - 1)) by lia.
    rewrite !Z.pow_succ_r by lia. lia.
  - cbn. lia.
Qed.

Lemma digits2_unique p k :
  (2 ^ (k - 1) <= Zpos p < 2 ^ k)%Z -> Zpos (digits2_pos p) = k.
Proof.
  intros [Hlo Hhi]. pose proof (digits2_spec p) as [Dlo Dhi].
  set (d := Zpos (digits2_pos p)) in *.
  assert (Hk : (0 < k)%Z).
  { destruct (Z_lt_le_dec 0 k) as [| Hneg]; [assumption |].
    exfalso. destruct (Z.eq_dec k 0) as [-> | Hne].
    - cbn in Hhi. lia.
    - rewrite Z.pow_neg_r in Hhi by lia. lia. }
  assert (H1 : (k - 1 < d)%Z).
  { apply (Z.pow_lt_mono_r_iff 2); lia. }
  assert (H2 : (d - 1 < k)%Z).
  { apply (Z.pow_lt_mono_r_iff 2); lia. }
  lia.
Qed.

End Mantissas.

Section ShiftOnce.
Local Open Scope Q_scope.

Lemma inject_Z_xO p : inject_Z (Zpos p~0) == 2 * inject_Z (Zpos p).
Proof.
  change (Zpos p~0) with (2 * Zpos p)%Z. rewrite inject_Z_mult. reflexivity.
Qed.

Lemma inject_Z_xI p : inject_Z (Zpos p~1) == 2 * inject_Z (Zpos p) + 1.
Proof.
  change (Zpos p~1) with (2 * Zpos p + 1)%Z.
  rewrite inject_Z_plus, inject_Z_mult. reflexivity.
Qed.

Lemma shr_1_located Y mrs :
  (0 <= shr_m mrs)%Z -> located Y mrs ->
  (0 <= shr_m (shr_1 mrs))%Z /\ located (Y * (1#2)) (shr_1 mrs).
Proof.
  destruct mrs as [m r s]. cbn [shr_m]. intros Hm.
  destruct m as [| [p | p |] | p]; [| | | | lia];
    unfold located; destruct r, s; cbn [shr_1 shr_m shr_r shr_s orb];
    rewrite ?inject_Z_xO, ?inject_Z_xI;
    change (inject_Z 0) with 0; change (inject_Z 1) with 1;
    intros HY; (split; [lia |]); try lra.
Qed.

End ShiftOnce.

Section Shifts.
Local Open Scope Q_scope.

Lemma located_compat Y Y' mrs : Y == Y' -> located Y mrs -> located Y' mrs.
Proof.
  intros E. unfold located. destruct (shr_r mrs), (shr_s mrs);
    rewrite E; trivial.
Qed.

Lemma located_bounds Y mrs :
  located Y mrs -> inject_Z (shr_m mrs) <= Y /\ Y < inject_Z (shr_m mrs) + 1.
Proof.
  unfold located. destruct (shr_r mrs), (shr_s mrs); intros HY; lra.
Qed.

Lemma pow2_neg_xI p :
  pow2 (Zneg p~1) == (1#2) * pow2 (Zneg p) * pow2 (Zneg p).
Proof.
  replace (Zneg p~1) with (-1 + (Zneg p + Zneg p))%Z by lia.
  rewrite !pow2_add. change (pow2 (-1)) with (1#2). ring.
Qed.

Lemma pow2_neg_xO p : pow2 (Zneg p~0) == pow2 (Zneg p) * pow2 (Zneg p).
Proof.
  replace (Zneg p~0) with (Zneg p + Zneg p)%Z by lia.
  now rewrite pow2_add.
Qed.

Lemma iter_shr_located p : forall Y mrs,
  (0 <= shr_m mrs)%Z -> located Y mrs ->
  (0 <= shr_m (iter_pos shr_1 p mrs))%Z /\
  located (Y * pow2 (Zneg p)) (iter_pos shr_1 p mrs).
Proof.
  induction p as [p IH | p IH |]; intros Y mrs Hm HY; cbn [iter_pos].
  - destruct (shr_1_located Y mrs Hm HY) as [Hm1 HY1].
    destruct (IH _ _ Hm1 HY1) as [Hm2 HY2].
    destruct (IH _ _ Hm2 HY2) as [Hm3 HY3].
    split; [assumption |].
    eapply located_compat; [| exact HY3]. rewrite pow2_neg_xI. ring.
  - destruct (IH _ _ Hm HY) as [Hm2 HY2].
    destruct (IH _ _ Hm2 HY2) as [Hm3 HY3].
    split; [assumption |].
    eapply located_compat; [| exact HY3]. rewrite pow2_neg_xO. ring.
  - destruct (shr_1_located Y mrs Hm HY) as [Hm1 HY1].
    split; [assumption |].
    eapply located_compat; [| exact HY1]. reflexivity.
Qed.

Lemma shr_located Y mrs e n :
  (0 <= n)%Z -> (0 <= shr_m mrs)%Z -> located Y mrs ->
  exists mrs', shr mrs e n = (mrs', (e + n)%Z) /\
    (0 <= shr_m mrs')%Z /\ located (Y * pow2 (- n)) mrs'.
Proof.
  intros Hn Hm HY. destruct n as [| p | p]; [| | lia].
  - exists mrs. cbn [shr]. rewrite Z.add_0_r.
    split; [reflexivity |]. split; [assumption |].
    eapply located_compat; [| exact HY]. change (pow2 (-0)) with 1. ring.
  - exists (iter_pos shr_1 p mrs). cbn [shr].
    split; [reflexivity |]. now apply iter_shr_located.
Qed.

Lemma round_nearest_even_located Y mrs :
  located Y mrs ->
  let m1 := round_nearest_even (shr_m mrs) (loc_of_shr_record mrs) in
  (m1 = shr_m mrs \/ m1 = (shr_m mrs + 1)%Z) /\
  inject_Z m1 - (1#2) <= Y /\ Y <= inject_Z m1 + (1#2).
Proof.
  destruct mrs as [m r s]. unfold located. cbn [shr_m shr_r shr_s].
  destruct r, s; cbn [loc_of_shr_record round_nearest_even]; intros HY.
  - split; [now right |]. rewrite inject_Z_plus.
    change (inject_Z 1) with 1. lra.
  - destruct (Z.even m); (split; [auto |]);
      rewrite ?inject_Z_plus; change (inject_Z 1) with 1; lra.
  - split; [now left |]. lra.
  - split; [now left |]. lra.
Qed.

End Shifts.

Section Rounding.
Local Open Scope Q_scope.

Lemma fexp_normal k :
  (-1074 <= k - 53)%Z -> fexp 53 1024 k = (k - 53)%Z.
Proof. unfold fexp. intros Hk. apply Z.max_l. exact Hk. Qed.

Lemma inject_Z_pow2 k : (0 <= k)%Z -> inject_Z (2 ^ k) == pow2 k.
Proof. intros Hk. now rewrite pow2_Z. Qed.

Lemma rel_half (Yq M : Q) :
  4503599627370496 <= Yq -> M - (1#2) <= Yq -> Yq <= M + (1#2) ->
  Yq * (1 - u53) <= M /\ M <= Yq * (1 + u53).
Proof. intros H1 H2 H3. unfold u53. split; lra. Qed.

Lemma binary_round_aux_spec sx mx ex lx (Y : Q) :
  let d := Zpos (digits2_pos mx) in
  located Y (shr_record_of_loc (Zpos mx) lx) ->
  (53 <= d)%Z -> (-1021 <= d + ex)%Z -> (d + ex <= 1023)%Z ->
  exists m e,
    binary_round_aux 53 1024 sx (Zpos mx) ex lx = S754_finite sx m e /\
    (Y * pow2 ex) * (1 - u53) <= inject_Z (Zpos m) * pow2 e /\
    inject_Z (Zpos m) * pow2 e <= (Y * pow2 ex) * (1 + u53).
Proof.
  intros d HY Hd Hlo Hhi.
  pose proof (digits2_spec mx) as [Dlo Dhi]. fold d in Dlo, Dhi.
  set (n := (d - 53)%Z).
  assert (Hn : (0 <= n)%Z) by (unfold n; lia).
  assert (Hshift : (fexp 53 1024 (Zdigits2 (Zpos mx) + ex) - ex = n)%Z).
  { cbn [Zdigits2]. fold d. rewrite fexp_normal by lia. unfold n. lia. }
  assert (Hm0 : (0 <= shr_m (shr_record_of_loc (Zpos mx) lx))%Z).
  { destruct lx as [| []]; cbn; lia. }
  destruct (shr_located Y _ ex n Hn Hm0 HY) as (mrs' & Hshr & Hm' & HY').
  unfold binary_round_aux, shr_fexp. rewrite Hshift, Hshr.
  set (e' := (ex + n)%Z).
  set (Y' := Y * pow2 (- n)) in *.
  (* the bounds on Y and Y' *)
  assert (HYb : inject_Z (Zpos mx) <= Y /\ Y < inject_Z (Zpos mx) + 1).
  { destruct lx as [| []]; apply located_bounds in HY; cbn [shr_m shr_record_of_loc] in HY; exact HY. }
  assert (HY1 : pow2 (d - 1) <= Y).
  { eapply Qle_trans; [| apply HYb]. rewrite <- inject_Z_pow2 by lia.
    rewrite <- Zle_Qle. exact Dlo. }
  assert (HY2 : Y < pow2 d).
  { eapply Qlt_le_trans; [apply HYb |]. rewrite <- inject_Z_pow2 by lia.
    change 1 with (inject_Z 1). rewrite <- inject_Z_plus, <- Zle_Qle. lia. }
  assert (Hpn : 0 < pow2 (- n)) by apply pow2_pos.
  assert (HY1' : pow2 52 <= Y').
  { assert (E : pow2 52 == pow2 (d - 1) * pow2 (- n)).
    { rewrite <- (pow2_add (d - 1) (- n)).
      now replace (d - 1 + - n)%Z with 52%Z by (unfold n; lia). }
    rewrite E. unfold Y'. apply Qmult_le_compat_r; [assumption |].
    now apply Qlt_le_weak. }
  assert (HY2' : Y' < pow2 53).
  { assert (E : pow2 53 == pow2 d * pow2 (- n)).
    { rewrite <- (pow2_add d (- n)).
      now replace (d + - n)%Z with 53%Z by (unfold n; lia). }
    rewrite E. unfold Y'. apply Qmult_lt_compat_r; assumption. }
  pose proof (round_nearest_even_located Y' mrs' HY') as Hrne.
  cbn zeta in Hrne.
  set (m1 := round_nearest_even (shr_m mrs') (loc_of_shr_record mrs')) in *.
  destruct Hrne as (Hm1 & Hr1 & Hr2).
  pose proof (located_bounds Y' mrs' HY') as [Hb1 Hb2].
  (* the rounded mantissa has 53 bits, or is 2^53 *)
  assert (Hm1lo : (2 ^ 52 <= m1)%Z).
  { assert (H0 : (2 ^ 52 < shr_m mrs' + 1)%Z).
    { rewrite Zlt_Qlt, inject_Z_plus. change (inject_Z 1) with 1.
      eapply Qle_lt_trans; [| exact Hb2].
      rewrite inject_Z_pow2 by lia. exact HY1'. }
    destruct Hm1 as [-> | ->]; lia. }
  assert (Hm1hi : (m1 <= 2 ^ 53)%Z).
  { assert (H0 : (shr_m mrs' < 2 ^ 53)%Z).
    { rewrite Zlt_Qlt. eapply Qle_lt_trans; [exact Hb1 |].
      rewrite inject_Z_pow2 by lia. exact HY2'. }
    destruct Hm1 as [-> | ->]; lia. }
  assert (He' : (-1074 <= e')%Z) by (unfold e', n; lia).
  assert (HX : Y * pow2 ex == Y' * pow2 e').
  { unfold Y', e'. rewrite (pow2_add ex n).
    assert (E : pow2 (- n) * pow2 n == 1).
    { rewrite <- (pow2_add (- n) n). now replace (- n + n)%Z with 0%Z by lia. }
    rewrite <- (Qmult_1_r (Y * pow2 ex)), <- E. ring. }
  assert (Hpe : 0 < pow2 e') by apply pow2_pos.
  assert (Hgoal :
    (Y * pow2 ex) * (1 - u53) <= inject_Z m1 * pow2 e' /\
    inject_Z m1 * pow2 e' <= (Y * pow2 ex) * (1 + u53)).
  { rewrite HX. change (pow2 52) with (4503599627370496 # 1) in HY1'.
    destruct (rel_half Y' (inject_Z m1) HY1' Hr1 Hr2) as [A B].
    split.
    - setoid_replace (Y' * pow2 e' * (1 - u53))
        with (Y' * (1 - u53) * pow2 e') by ring.
      apply Qmult_le_compat_r; [exact A | now apply Qlt_le_weak].
    - setoid_replace (Y' * pow2 e' * (1 + u53))
        with (Y' * (1 + u53) * pow2 e') by ring.
      apply Qmult_le_compat_r; [exact B | now apply Qlt_le_weak]. }
  destruct (Z.eq_dec m1 (2 ^ 53)) as [Etop | Hne].
  - (* rounded up to 2^53: one more shift, which is exact *)
    rewrite Etop in *.
    change (2 ^ 53)%Z with (Zpos (Pos.iter xO xH 53)) in *.
    assert (Hs2 : (fexp 53 1024 (Zdigits2 (Zpos (Pos.iter xO xH 53)) + e') - e' = 1)%Z).
    { change (Zdigits2 (Zpos (Pos.iter xO xH 53))) with 54%Z.
      rewrite fexp_normal by lia.
      lia. }
    rewrite Hs2. cbn [shr shr_record_of_loc iter_pos].
    change (shr_m (shr_1 {| shr_m := Zpos (Pos.iter xO xH 53); shr_r := false; shr_s := false |}))
      with (Zpos (Pos.iter xO xH 52)).
    cbv iota.
    assert (Hle : (e' + 1 <=? 1024 - 53)%Z = true).
    { apply Z.leb_le. unfold e', n. lia. }
    rewrite Hle. exists (Pos.iter xO xH 52), (e' + 1)%Z.
    split; [reflexivity |].
    assert (E : inject_Z (Zpos (Pos.iter xO xH 52)) * pow2 (e' + 1)
                == inject_Z (Zpos (Pos.iter xO xH 53)) * pow2 e').
    { rewrite pow2_succ.
      change (inject_Z (Zpos (Pos.iter xO xH 53)))
        with (inject_Z (2 * Zpos (Pos.iter xO xH 52))).
      rewrite inject_Z_mult. change (inject_Z 2) with 2. ring. }
    rewrite E. exact Hgoal.
  - destruct m1 as [| p1 | p1] eqn:Em1; [lia | | lia].
    assert (Hdig : Zpos (digits2_pos p1) = 53%Z).
    { apply digits2_unique. change (53 - 1)%Z with 52%Z. lia. }
    assert (Hs2 : (fexp 53 1024 (Zdigits2 (Zpos p1) + e') - e' = 0)%Z).
    { cbn [Zdigits2]. rewrite Hdig.
      rewrite fexp_normal by lia.
      lia. }
    rewrite Hs2. cbn [shr shr_record_of_loc shr_m].
    assert (Hle : (e' <=? 1024 - 53)%Z = true).
    { apply Z.leb_le. unfold e', n. lia. }
    rewrite Hle. exists p1, e'. split; [reflexivity | exact Hgoal].
Qed.

End Rounding.

Section RoundingRange.
Local Open Scope Q_scope.

Lemma pow2_le_inv a b : pow2 a <= pow2 b -> (a <= b)%Z.
Proof.
  intros H. destruct (Z_le_gt_dec a b) as [| Hgt]; [assumption |].
  exfalso. apply (Qlt_not_le (pow2 b) (pow2 a)); [apply pow2_lt; lia | exact H].
Qed.

Lemma pow2_lt_inv a b : pow2 a < pow2 b -> (a < b)%Z.
Proof.
  intros H. destruct (Z_lt_le_dec a b) as [| Hge]; [assumption |].
  exfalso. apply (Qle_not_lt (pow2 b) (pow2 a)); [now apply pow2_le | exact H].
Qed.

(** A mantissa of [d] bits at exponent [e] is worth between [2^(d-1+e)]
    and [2^(d+e)]. *)
Lemma value_digits (m : positive) (e : Z) :
  let d := Zpos (digits2_pos m) in
  pow2 (d - 1 + e) <= inject_Z (Zpos m) * pow2 e /\
  inject_Z (Zpos m) * pow2 e + pow2 e <= pow2 (d + e).
Proof.
  intros d. pose proof (digits2_spec m) as [Dlo Dhi]. fold d in Dlo, Dhi.
  assert (Hd : (0 < d)%Z) by (unfold d; lia).
  pose proof (pow2_pos e) as Hp.
  split.
  - rewrite (pow2_add (d - 1) e).
    apply Qmult_le_compat_r; [| now apply Qlt_le_weak].
    rewrite <- inject_Z_pow2 by lia. now rewrite <- Zle_Qle.
  - rewrite (pow2_add d e).
    setoid_replace (inject_Z (Zpos m) * pow2 e + pow2 e)
      with ((inject_Z (Zpos m) + 1) * pow2 e) by ring.
    apply Qmult_le_compat_r; [| now apply Qlt_le_weak].
    rewrite <- inject_Z_pow2 by lia. change 1 with (inject_Z 1).
    rewrite <- inject_Z_plus, <- Zle_Qle. lia.
Qed.

(** The rounding lemma, with the range given on the exact value. *)
Lemma binary_round_aux_range sx mx ex lx (Y : Q) :
  located Y (shr_record_of_loc (Zpos mx) lx) ->
  (53 <= Zpos (digits2_pos mx))%Z ->
  pow2 (-1000) <= Y * pow2 ex -> Y * pow2 ex <= pow2 1000 ->
  exists m e,
    binary_round_aux 53 1024 sx (Zpos mx) ex lx = S754_finite sx m e /\
    (Y * pow2 ex) * (1 - u53) <= inject_Z (Zpos m) * pow2 e /\
    inject_Z (Zpos m) * pow2 e <= (Y * pow2 ex) * (1 + u53).
Proof.
  intros HY Hd Hlo Hhi.
  assert (HYb : inject_Z (Zpos mx) <= Y /\ Y < inject_Z (Zpos mx) + 1).
  { destruct lx as [| []]; apply located_bounds in HY;
      cbn [shr_m shr_record_of_loc] in HY; exact HY. }
  destruct (value_digits mx ex) as [V1 V2]. cbn zeta in V1, V2.
  pose proof (pow2_pos ex) as Hp.
  assert (X1 : inject_Z (Zpos mx) * pow2 ex <= Y * pow2 ex).
  { apply Qmult_le_compat_r; [apply HYb | now apply Qlt_le_weak]. }
  assert (X2 : Y * pow2 ex < inject_Z (Zpos mx) * pow2 ex + pow2 ex).
  { setoid_replace (inject_Z (Zpos mx) * pow2 ex + pow2 ex)
      with ((inject_Z (Zpos mx) + 1) * pow2 ex) by ring.
    apply Qmult_lt_compat_r; [assumption | apply HYb]. }
  apply binary_round_aux_spec; try assumption.
  - assert (H : (-1000 < Zpos (digits2_pos mx) + ex)%Z).
    { apply pow2_lt_inv. eapply Qle_lt_trans; [exact Hlo |].
      eapply Qlt_le_trans; [exact X2 | exact V2]. }
    lia.
  - assert (H : (Zpos (digits2_pos mx) - 1 + ex <= 1000)%Z).
    { apply pow2_le_inv. eapply Qle_trans; [exact V1 |].
      eapply Qle_trans; [exact X1 | exact Hhi]. }
    lia.
Qed.

(** Shifting a mantissa left. *)
Lemma iter_xO m d : Zpos (Pos.iter xO m d) = (Zpos m * 2 ^ Zpos d)%Z.
Proof.
  induction d as [| d IH] using Pos.peano_ind.
  - cbn. lia.
  - rewrite Pos.iter_succ, Pos2Z.inj_succ, Z.pow_succ_r by lia.
    change (Zpos (Pos.iter xO m d)~0) with (2 * Zpos (Pos.iter xO m d))%Z.
    rewrite IH. ring.
Qed.

Lemma shl_align_spec m e t :
  let r := shl_align m e t in
  snd r = Z.min e t /\ Zpos (fst r) = (Zpos m * 2 ^ (e - snd r))%Z.
Proof.
  unfold shl_align. destruct (t - e)%Z as [| d | d] eqn:E; cbn [fst snd].
  - split; [lia |]. replace (e - e)%Z with 0%Z by lia. cbn. lia.
  - split; [lia |]. replace (e - e)%Z with 0%Z by lia. cbn. lia.
  - split; [lia |]. rewrite iter_xO. f_equal. f_equal. lia.
Qed.

Lemma shl_align_value m e t :
  let r := shl_align m e t in
  inject_Z (Zpos (fst r)) * pow2 (snd r) == inject_Z (Zpos m) * pow2 e.
Proof.
  destruct (shl_align_spec m e t) as [Hs Hm]. cbn zeta in *.
  set (r := shl_align m e t) in *. rewrite Hm.
  assert (Hk : (0 <= e - snd r)%Z) by lia.
  rewrite inject_Z_mult, inject_Z_pow2 by assumption.
  rewrite <- Qmult_assoc, <- (pow2_add (e - snd r) (snd r)).
  now replace (e - snd r + snd r)%Z with e by lia.
Qed.

Lemma digits2_shift m k :
  (0 <= k)%Z -> forall p, Zpos p = (Zpos m * 2 ^ k)%Z ->
  Zpos (digits2_pos p) = (Zpos (digits2_pos m) + k)%Z.
Proof.
  intros Hk p Hp. apply digits2_unique. rewrite Hp.
  pose proof (digits2_spec m) as [Dlo Dhi].
  set (d := Zpos (digits2_pos m)) in *.
  assert (Hd : (0 < d)%Z) by (unfold d; lia).
  replace (d + k - 1)%Z with ((d - 1) + k)%Z by lia.
  rewrite !Z.pow_add_r by lia.
  assert (Hpk : (0 < 2 ^ k)%Z) by (apply Z.pow_pos_nonneg; lia).
  split; [apply Z.mul_le_mono_nonneg_r; lia | apply Z.mul_lt_mono_pos_r; lia].
Qed.

(** [binary_round] rounds any positive integer times a power of two in
    the normal range to within half a unit in the last place. *)
Lemma binary_round_range sx mx ex :
  pow2 (-1000) <= inject_Z (Zpos mx) * pow2 ex ->
  inject_Z (Zpos mx) * pow2 ex <= pow2 1000 ->
  exists m e,
    binary_round 53 1024 sx mx ex = S754_finite sx m e /\
    (inject_Z (Zpos mx) * pow2 ex) * (1 - u53) <= inject_Z (Zpos m) * pow2 e /\
    inject_Z (Zpos m) * pow2 e <= (inject_Z (Zpos mx) * pow2 ex) * (1 + u53).
Proof.
  intros Hlo Hhi. unfold binary_round.
  set (d := Zpos (digits2_pos mx)).
  set (t := fexp 53 1024 (d + ex)).
  destruct (shl_align_spec mx ex t) as [Hs Hm].
  pose proof (shl_align_value mx ex t) as Hv. cbn zeta in *.
  destruct (shl_align mx ex t) as [mz ez]. cbn [fst snd] in *.
  destruct (value_digits mx ex) as [V1 V2]. cbn zeta in V1, V2. fold d in V1, V2.
  pose proof (pow2_pos ex) as Hp.
  assert (Hd1 : (-1000 < d + ex)%Z).
  { apply pow2_lt_inv. eapply Qle_lt_trans; [exact Hlo |].
    eapply Qlt_le_trans; [| exact V2]. lra. }
  assert (Ht : t = (d + ex - 53)%Z) by (unfold t; apply fexp_normal; lia).
  assert (Hdz : (53 <= Zpos (digits2_pos mz))%Z).
  { rewrite (digits2_shift mx (ex - ez) ltac:(lia) mz Hm). fold d. lia. }
  assert (Hloc : located (inject_Z (Zpos mz))
                   (shr_record_of_loc (Zpos mz) loc_Exact)).
  { cbn. reflexivity. }
  destruct (binary_round_aux_range sx mz ez loc_Exact _ Hloc Hdz)
    as (m & e & Hr & B1 & B2).
  - now rewrite Hv.
  - now rewrite Hv.
  - exists m, e. split; [exact Hr |]. rewrite Hv in B1, B2. split; assumption.
Qed.

(** The location [new_location] computes for a remainder. *)
Lemma new_location_located (q m2 r : Z) :
  (0 <= r < m2)%Z ->
  located (inject_Z q + inject_Z r / inject_Z m2)
    (shr_record_of_loc q (new_location m2 r)).
Proof.
  intros Hr.
  assert (Hm2 : 0 < inject_Z m2).
  { change 0 with (inject_Z 0). rewrite <- Zlt_Qlt. lia. }
  assert (Hr0 : 0 <= inject_Z r).
  { change 0 with (inject_Z 0). rewrite <- Zle_Qle. lia. }
  set (f := inject_Z r / inject_Z m2).
  assert (Hhalf : forall c, (2 * r ?= m2)%Z = c ->
            match c with
            | Lt => f < 1#2
            | Eq => f == 1#2
            | Gt => 1#2 < f
            end).
  { intros c Hc. unfold f. destruct c.
    - apply Z.compare_eq in Hc.
      assert (E : inject_Z m2 == 2 * inject_Z r).
      { rewrite <- Hc, inject_Z_mult. reflexivity. }
      rewrite E. field. intros E0. rewrite E0 in E. lra.
    - apply Qlt_shift_div_r; [assumption |].
      rewrite Z.compare_lt_iff, Zlt_Qlt, inject_Z_mult in Hc.
      change (inject_Z 2) with 2 in Hc. lra.
    - apply Qlt_shift_div_l; [assumption |].
      rewrite Z.compare_gt_iff, Zlt_Qlt, inject_Z_mult in Hc.
      change (inject_Z 2) with 2 in Hc. lra. }
  assert (Hf0 : r <> 0%Z -> 0 < f).
  { intros Hne. unfold f. apply Qlt_shift_div_l; [assumption |].
    rewrite Qmult_0_l. change 0 with (inject_Z 0). rewrite <- Zlt_Qlt. lia. }
  assert (Hf1 : f < 1).
  { unfold f. apply Qlt_shift_div_r; [assumption |].
    rewrite Qmult_1_l, <- Zlt_Qlt. lia. }
  unfold new_location, new_location_even, new_location_odd.
  destruct (Z.even m2) eqn:Ev.
  - destruct (Z.eqb_spec r 0) as [-> | Hne].
    + cbn. unfold f. change (inject_Z 0) with 0. unfold located. cbn.
      field. intros E0. rewrite E0 in Hm2. lra.
    + specialize (Hf0 Hne). pose proof (Hhalf _ eq_refl) as Hc.
      destruct (2 * r ?= m2)%Z; unfold located; cbn; fold f; lra.
  - destruct (Z.eqb_spec r 0) as [-> | Hne].
    + cbn. unfold f. change (inject_Z 0) with 0. unfold located. cbn.
      field. intros E0. rewrite E0 in Hm2. lra.
    + specialize (Hf0 Hne). pose proof (Hhalf _ eq_refl) as Hc.
      assert (Hodd : (2 * r <> m2)%Z).
      { intros E. rewrite <- E, Z.even_mul in Ev. discriminate. }
      destruct (2 * r + 1 ?= m2)%Z eqn:Ec.
      * apply Z.compare_eq in Ec.
        assert (Hlt : (2 * r ?= m2)%Z = Lt) by (apply Z.compare_lt_iff; lia).
        rewrite Hlt in Hc. unfold located; cbn; fold f; lra.
      * rewrite Z.compare_lt_iff in Ec.
        assert (Hlt : (2 * r ?= m2)%Z = Lt) by (apply Z.compare_lt_iff; lia).
        rewrite Hlt in Hc. unfold located; cbn; fold f; lra.
      * rewrite Z.compare_gt_iff in Ec.
        assert (Hgt : (2 * r ?= m2)%Z = Gt) by (apply Z.compare_gt_iff; lia).
        rewrite Hgt in Hc. unfold located; cbn; fold f; lra.
Qed.

End RoundingRange.

Section MulAdd.
Local Open Scope Q_scope.

Lemma valid_normal m e :
  bounded 53 1024 m e = true ->
  pow2 (-1000) <= inject_Z (Zpos m) * pow2 e ->
  Zpos (digits2_pos m) = 53%Z.
Proof.
  unfold bounded, canonical_mantissa. intros Hb Hlo.
  apply andb_prop in Hb. destruct Hb as [Hc _].
  apply Z.eqb_eq in Hc.
  destruct (value_digits m e) as [_ V2]. cbn zeta in V2.
  pose proof (pow2_pos e) as Hp.
  set (d := Zpos (digits2_pos m)) in *.
  assert (Hd : (-1000 < d + e)%Z).
  { apply pow2_lt_inv. eapply Qle_lt_trans; [exact Hlo |].
    eapply Qlt_le_trans; [| exact V2]. lra. }
  rewrite fexp_normal in Hc by lia. lia.
Qed.

Lemma digits2_lower p k :
  (0 <= k)%Z -> (2 ^ k <= Zpos p)%Z -> (k + 1 <= Zpos (digits2_pos p))%Z.
Proof.
  intros Hk Hp. pose proof (digits2_spec p) as [_ Dhi].
  assert (H : (k < Zpos (digits2_pos p))%Z).
  { apply (Z.pow_lt_mono_r_iff 2); lia. }
  lia.
Qed.

Lemma SFmul_range mx ex my ey :
  Zpos (digits2_pos mx) = 53%Z -> Zpos (digits2_pos my) = 53%Z ->
  let X := (inject_Z (Zpos mx) * pow2 ex) * (inject_Z (Zpos my) * pow2 ey) in
  pow2 (-1000) <= X -> X <= pow2 1000 ->
  exists m e,
    SFmul 53 1024 (S754_finite false mx ex) (S754_finite false my ey)
      = S754_finite false m e /\
    X * (1 - u53) <= inject_Z (Zpos m) * pow2 e /\
    inject_Z (Zpos m) * pow2 e <= X * (1 + u53).
Proof.
  intros Hdx Hdy X Hlo Hhi. cbn [SFmul xorb].
  assert (HX : inject_Z (Zpos (mx * my)) * pow2 (ex + ey) == X).
  { unfold X. rewrite Pos2Z.inj_mul, inject_Z_mult, (pow2_add ex ey). ring. }
  assert (Hd : (53 <= Zpos (digits2_pos (mx * my)))%Z).
  { pose proof (digits2_spec mx) as [Lx _]. pose proof (digits2_spec my) as [Ly _].
    rewrite Hdx in Lx. rewrite Hdy in Ly.
    assert (H : (104 + 1 <= Zpos (digits2_pos (mx * my)))%Z).
    { apply digits2_lower; [lia |]. rewrite Pos2Z.inj_mul.
      change (2 ^ 104)%Z with (2 ^ (53 - 1) * 2 ^ (53 - 1))%Z.
      apply Z.mul_le_mono_nonneg; lia. }
    lia. }
  assert (Hloc : located (inject_Z (Zpos (mx * my)))
                   (shr_record_of_loc (Zpos (mx * my)) loc_Exact)).
  { cbn. reflexivity. }
  destruct (binary_round_aux_range false (mx * my) (ex + ey) loc_Exact _ Hloc Hd)
    as (m & e & Hr & B1 & B2).
  - now rewrite HX.
  - now rewrite HX.
  - exists m, e. split; [exact Hr |]. rewrite HX in B1, B2. split; assumption.
Qed.

Lemma SFadd_range mx ex my ey :
  let X := inject_Z (Zpos mx) * pow2 ex + inject_Z (Zpos my) * pow2 ey in
  pow2 (-1000) <= X -> X <= pow2 1000 ->
  exists m e,
    SFadd 53 1024 (S754_finite false mx ex) (S754_finite false my ey)
      = S754_finite false m e /\
    X * (1 - u53) <= inject_Z (Zpos m) * pow2 e /\
    inject_Z (Zpos m) * pow2 e <= X * (1 + u53).
Proof.
  intros X Hlo Hhi. cbn [SFadd cond_Zopp].
  set (ez := Z.min ex ey).
  pose proof (shl_align_value mx ex ez) as Vx.
  pose proof (shl_align_value my ey ez) as Vy.
  destruct (shl_align_spec mx ex ez) as [Sx _].
  destruct (shl_align_spec my ey ez) as [Sy _].
  cbn zeta in *.
  destruct (shl_align mx ex ez) as [mx' ex'].
  destruct (shl_align my ey ez) as [my' ey'].
  cbn [fst snd] in *.
  assert (Ex : ex' = ez) by (unfold ez in *; lia).
  assert (Ey : ey' = ez) by (unfold ez in *; lia).
  clear Sx Sy. subst ex' ey'.
  change (Zpos mx' + Zpos my')%Z with (Zpos (mx' + my')).
  cbn [binary_normalize].
  assert (HX : inject_Z (Zpos (mx' + my')) * pow2 ez == X).
  { unfold X. rewrite <- Vx, <- Vy, Pos2Z.inj_add, inject_Z_plus. ring. }
  destruct (binary_round_range false (mx' + my') ez) as (m & e & Hr & B1 & B2).
  - now rewrite HX.
  - now rewrite HX.
  - exists m, e. split; [exact Hr |]. rewrite HX in B1, B2. split; assumption.
Qed.

End MulAdd.

Section Division.
Local Open Scope Q_scope.

Lemma SFdiv_range mx ex my ey :
  Zpos (digits2_pos mx) = 53%Z -> Zpos (digits2_pos my) = 53%Z ->
  let X := (inject_Z (Zpos mx) * pow2 ex) / (inject_Z (Zpos my) * pow2 ey) in
  pow2 (-1000) <= X -> X <= pow2 1000 ->
  exists m e,
    SFdiv 53 1024 (S754_finite false mx ex) (S754_finite false my ey)
      = S754_finite false m e /\
    X * (1 - u53) <= inject_Z (Zpos m) * pow2 e /\
    inject_Z (Zpos m) * pow2 e <= X * (1 + u53).
Proof.
  intros Hdx Hdy X Hlo Hhi.
  pose proof (digits2_spec mx) as [Lx Ux]. rewrite Hdx in Lx, Ux.
  pose proof (digits2_spec my) as [Ly Uy]. rewrite Hdy in Ly, Uy.
  change (53 - 1)%Z with 52%Z in *.
  pose proof (pow2_pos ex) as Pex. pose proof (pow2_pos ey) as Pey.
  assert (Hmy : 0 < inject_Z (Zpos my)).
  { change 0 with (inject_Z 0). rewrite <- Zlt_Qlt. lia. }
  assert (Hmx : 0 < inject_Z (Zpos mx)).
  { change 0 with (inject_Z 0). rewrite <- Zlt_Qlt. lia. }
  (* the exact quotient, in units of 2^(ex - ey - 53) *)
  set (e' := (ex - ey - 53)%Z).
  assert (HXe : X == inject_Z (Zpos mx * 2 ^ 53) / inject_Z (Zpos my) * pow2 e').
  { unfold X, e'.
    replace (ex - ey - 53)%Z with (ex + (- ey + -53))%Z by lia.
    rewrite (pow2_add ex (- ey + -53)), (pow2_add (- ey) (-53)).
    assert (E : pow2 (- ey) == / pow2 ey) by (apply Qpower_opp).
    rewrite E, inject_Z_mult.
    change (inject_Z (2 ^ 53)) with (9007199254740992 # 1).
    change (pow2 (-53)) with (1 # 9007199254740992).
    field. split; lra. }
  (* the exponent the division picks *)
  assert (Hrange : (-1001 <= ex - ey)%Z).
  { (* X < 2^(ex - ey + 1) *)
    assert (HXhi : X < pow2 (ex - ey + 1)).
    { unfold X. apply Qlt_shift_div_r; [apply Qmult_lt_0_compat; assumption |].
      replace (ex - ey + 1)%Z with ((ex + 53) + (- ey + -52))%Z by lia.
      rewrite (pow2_add (ex + 53) (- ey + -52)), (pow2_add ex 53),
        (pow2_add (- ey) (-52)).
      assert (E : pow2 (- ey) == / pow2 ey) by (apply Qpower_opp).
      rewrite E.
      change (pow2 53) with (9007199254740992 # 1).
      change (pow2 (-52)) with (1 # 4503599627370496).
      assert (A : inject_Z (Zpos mx) < 9007199254740992 # 1).
      { change (9007199254740992 # 1) with (inject_Z (2 ^ 53)).
        now rewrite <- Zlt_Qlt. }
      assert (B : (4503599627370496 # 1) <= inject_Z (Zpos my)).
      { change (4503599627370496 # 1) with (inject_Z (2 ^ 52)).
        now rewrite <- Zle_Qle. }
      setoid_replace (pow2 ex * (9007199254740992 # 1)
                      * (/ pow2 ey * (1 # 4503599627370496))
                      * (inject_Z (Zpos my) * pow2 ey))
        with ((pow2 ex * (9007199254740992 # 1))
              * (inject_Z (Zpos my) * (1 # 4503599627370496)))
        by (field; lra).
      setoid_replace (inject_Z (Zpos mx) * pow2 ex)
        with (pow2 ex * inject_Z (Zpos mx)) by ring.
      apply Qlt_le_trans with (pow2 ex * (9007199254740992 # 1)).
      - apply Qmult_lt_l; assumption.
      - rewrite <- (Qmult_1_r (pow2 ex * (9007199254740992 # 1))) at 1.
        apply Qmult_le_l; [apply Qmult_lt_0_compat; [assumption | reflexivity] |].
        lra. }
    assert (H : (-1000 < ex - ey + 1)%Z).
    { apply pow2_lt_inv. eapply Qle_lt_trans; [exact Hlo | exact HXhi]. }
    lia. }
  cbn [SFdiv xorb]. unfold SFdiv_core_binary. cbn [Zdigits2].
  rewrite Hdx, Hdy.
  replace (53 + ex - (53 + ey))%Z with (ex - ey)%Z by lia.
  rewrite fexp_normal by lia.
  replace (Z.min (ex - ey - 53) (ex - ey)) with e' by (unfold e'; lia).
  replace (ex - ey - e')%Z with 53%Z by (unfold e'; lia).
  cbv iota. rewrite Z.shiftl_mul_pow2 by lia.
  pose proof (Z_div_mod (Zpos mx * 2 ^ 53) (Zpos my) ltac:(lia)) as Hdiv.
  destruct (Z.div_eucl (Zpos mx * 2 ^ 53) (Zpos my)) as [q r].
  destruct Hdiv as [Hq Hr].
  assert (Hqlo : (2 ^ 52 <= q)%Z) by nia.
  destruct q as [| pq | pq]; [lia | | lia].
  assert (HY : inject_Z (Zpos mx * 2 ^ 53) / inject_Z (Zpos my)
               == inject_Z (Zpos pq) + inject_Z r / inject_Z (Zpos my)).
  { rewrite Hq, inject_Z_plus, inject_Z_mult. field. lra. }
  pose proof (new_location_located (Zpos pq) (Zpos my) r Hr) as Hloc.
  assert (Hd : (53 <= Zpos (digits2_pos pq))%Z).
  { apply (digits2_lower pq 52); lia. }
  destruct (binary_round_aux_range false pq e' _ _ Hloc Hd)
    as (m & e & Hres & B1 & B2).
  - now rewrite <- HY, <- HXe.
  - now rewrite <- HY, <- HXe.
  - exists m, e. split; [exact Hres |].
    rewrite <- HY, <- HXe in B1, B2. split; assumption.
Qed.

End Division.

Section Reals.
Local Open Scope Q_scope.

Lemma real_pos x v :
  real x = Some v -> 0 < v ->
  exists m e, Prim2SF x = S754_finite false m e /\
              v = inject_Z (Zpos m) * pow2 e.
Proof.
  unfold real. destruct (Prim2SF x) as [s | s | | s m e]; cbn [SF2Q];
    try discriminate.
  - intros [= <-] H. exfalso. now apply (Qlt_irrefl 0).
  - intros [= <-] H. destruct s; cbn [cond_Zopp] in *.
    + exfalso. pose proof (pow2_pos e) as Hp.
      assert (Hneg : inject_Z (Zneg m) * pow2 e < 0).
      { setoid_replace (inject_Z (Zneg m) * pow2 e)
          with (- (inject_Z (Zpos m) * pow2 e))
          by (change (Zneg m) with (- Zpos m)%Z; rewrite inject_Z_opp; ring).
        assert (Hm : 0 < inject_Z (Zpos m)).
        { change 0 with (inject_Z 0). rewrite <- Zlt_Qlt. lia. }
        pose proof (Qmult_lt_0_compat _ _ Hm Hp). lra. }
      apply (Qlt_irrefl 0). exact (Qlt_trans _ _ _ H Hneg).
    + eauto.
Qed.

Lemma real_normal x v :
  real x = Some v -> pow2 (-1000) <= v ->
  exists m e, Prim2SF x = S754_finite false m e /\
              v = inject_Z (Zpos m) * pow2 e /\
              Zpos (digits2_pos m) = 53%Z.
Proof.
  intros Hx Hv.
  assert (Hpos : 0 < v).
  { eapply Qlt_le_trans; [apply (pow2_pos (-1000)) | exact Hv]. }
  destruct (real_pos x v Hx Hpos) as (m & e & Hsf & ->).
  exists m, e. split; [assumption |]. split; [reflexivity |].
  pose proof (FloatAxioms.Prim2SF_valid x) as Hvalid. rewrite Hsf in Hvalid.
  cbn [SpecFloat.valid_binary] in Hvalid.
  now apply (valid_normal m e).
Qed.

Lemma mul_real (x y : float) vx vy :
  real x = Some vx -> real y = Some vy ->
  pow2 (-1000) <= vx -> pow2 (-1000) <= vy ->
  pow2 (-1000) <= vx * vy -> vx * vy <= pow2 1000 ->
  exists v, real (x * y)%float = Some v /\
    vx * vy * (1 - u53) <= v /\ v <= vx * vy * (1 + u53).
Proof.
  intros Hx Hy Lx Ly Hlo Hhi.
  destruct (real_normal x vx Hx Lx) as (mx & ex & Sx & -> & Dx).
  destruct (real_normal y vy Hy Ly) as (my & ey & Sy & -> & Dy).
  destruct (SFmul_range mx ex my ey Dx Dy Hlo Hhi) as (m & e & Hr & B1 & B2).
  unfold real. rewrite FloatAxioms.mul_spec, Sx, Sy.
  change (SF64mul (S754_finite false mx ex) (S754_finite false my ey))
    with (SFmul 53 1024 (S754_finite false mx ex) (S754_finite false my ey)).
  rewrite Hr. cbn [SF2Q cond_Zopp]. eauto.
Qed.

Lemma div_real (x y : float) vx vy :
  real x = Some vx -> real y = Some vy ->
  pow2 (-1000) <= vx -> pow2 (-1000) <= vy ->
  pow2 (-1000) <= vx / vy -> vx / vy <= pow2 1000 ->
  exists v, real (x / y)%float = Some v /\
    vx / vy * (1 - u53) <= v /\ v <= vx / vy * (1 + u53).
Proof.
  intros Hx Hy Lx Ly Hlo Hhi.
  destruct (real_normal x vx Hx Lx) as (mx & ex & Sx & -> & Dx).
  destruct (real_normal y vy Hy Ly) as (my & ey & Sy & -> & Dy).
  destruct (SFdiv_range mx ex my ey Dx Dy Hlo Hhi) as (m & e & Hr & B1 & B2).
  unfold real. rewrite FloatAxioms.div_spec, Sx, Sy.
  change (SF64div (S754_finite false mx ex) (S754_finite false my ey))
    with (SFdiv 53 1024 (S754_finite false mx ex) (S754_finite false my ey)).
  rewrite Hr. cbn [SF2Q cond_Zopp]. eauto.
Qed.

Lemma add_real (x y : float) vx vy :
  real x = Some vx -> real y = Some vy ->
  0 <= vx -> 0 < vy ->
  pow2 (-1000) <= vx + vy -> vx + vy <= pow2 1000 ->
  exists v, real (x + y)%float = Some v /\
    (vx + vy) * (1 - u53) <= v /\ v <= (vx + vy) * (1 + u53).
Proof.
  intros Hx Hy Lx Ly Hlo Hhi.
  destruct (real_pos y vy Hy Ly) as (my & ey & Sy & ->).
  destruct (Qle_lt_or_eq _ _ Lx) as [Hpos | Hzero].
  - destruct (real_pos x vx Hx Hpos) as (mx & ex & Sx & ->).
    destruct (SFadd_range mx ex my ey Hlo Hhi) as (m & e & Hr & B1 & B2).
    unfold real. rewrite FloatAxioms.add_spec, Sx, Sy.
    change (SF64add (S754_finite false mx ex) (S754_finite false my ey))
      with (SFadd 53 1024 (S754_finite false mx ex) (S754_finite false my ey)).
    rewrite Hr. cbn [SF2Q cond_Zopp]. eauto.
  - (* x is a zero: the sum is y *)
    assert (Hsum : 0 <= vx + inject_Z (Zpos my) * pow2 ey) by lra.
    assert (Hv : vx + inject_Z (Zpos my) * pow2 ey
                 == inject_Z (Zpos my) * pow2 ey) by lra.
    unfold real in Hx |- *. rewrite FloatAxioms.add_spec, Sy.
    destruct (Prim2SF x) as [s | s | | s m e] eqn:Sx; cbn [SF2Q] in Hx;
      try discriminate.
    + exists (inject_Z (Zpos my) * pow2 ey). split; [reflexivity |].
      rewrite Hv. unfold u53.
      assert (Hy0 : 0 < inject_Z (Zpos my) * pow2 ey) by assumption.
      split; lra.
    + exfalso. injection Hx as <-.
      assert (Hne : ~ inject_Z (cond_Zopp s (Zpos m)) * pow2 e == 0).
      { intros E. apply Qmult_integral in E. destruct E as [E | E].
        - destruct s; cbn in E; unfold Qeq in E; cbn in E; lia.
        - pose proof (pow2_pos e). lra. }
      apply Hne. symmetry. exact Hzero.
Qed.

End Reals.

Section Sums.
Local Open Scope Q_scope.

Lemma acc_nonneg c k t d : 0 <= c -> 0 <= t -> 0 <= d -> 0 <= acc c k t d.
Proof.
  intros Hc Ht Hd. induction k as [| k IH]; cbn [acc]; [assumption |].
  apply Qmult_le_0_compat; [| assumption].
  change 0 with (0 + 0). now apply Qplus_le_compat.
Qed.

Lemma acc_grows k t d : 0 <= t -> 0 <= d ->
  acc (1 + u53) k t d + d <= acc (1 + u53) (S k) t d.
Proof.
  intros Ht Hd. cbn [acc].
  assert (H : 0 <= acc (1 + u53) k t d + d).
  { change 0 with (0 + 0). apply Qplus_le_compat; [| assumption].
    apply acc_nonneg; [unfold u53; lra | assumption | assumption]. }
  generalize dependent (acc (1 + u53) k t d + d). intros s Hs.
  unfold u53. nra.
Qed.

Lemma iter_add_real (d : float) vd :
  real d = Some vd -> pow2 (-1000) <= vd ->
  forall k t vt, real t = Some vt -> 0 <= vt ->
  acc (1 + u53) k vt vd <= pow2 1000 ->
  exists v, real (Nat.iter k (fun t => t + d)%float t) = Some v /\
    acc (1 - u53) k vt vd <= v /\ v <= acc (1 + u53) k vt vd.
Proof.
  intros Hd Ld.
  assert (Hd0 : 0 < vd).
  { eapply Qlt_le_trans; [apply (pow2_pos (-1000)) | exact Ld]. }
  induction k as [| k IH]; intros t vt Ht Lt Hhi.
  - exists vt. cbn. split; [assumption | split; apply Qle_refl].
  - pose proof (acc_grows k vt vd Lt (Qlt_le_weak _ _ Hd0)) as Hg.
    assert (Hk : acc (1 + u53) k vt vd <= pow2 1000) by lra.
    destruct (IH t vt Ht Lt Hk) as (v & Hv & B1 & B2).
    assert (Hv0 : 0 <= v).
    { eapply Qle_trans; [| exact B1].
      apply acc_nonneg; [unfold u53; lra | assumption | now apply Qlt_le_weak]. }
    destruct (add_real _ d v vd Hv Hd Hv0 Hd0) as (v' & Hv' & C1 & C2).
    + lra.
    + lra.
    + exists v'. rewrite Nat.iter_succ. split; [exact Hv' |].
      cbn [acc]. split.
      * eapply Qle_trans; [| exact C1].
        apply Qmult_le_compat_r; [lra | unfold u53; lra].
      * eapply Qle_trans; [exact C2 |].
        apply Qmult_le_compat_r; [lra | unfold u53; lra].
Qed.

End Sums.

Section StepAlgebra.
Local Open Scope Q_scope.

Lemma step_algebra (A p q d : Q) :
  0 < A ->
  A * (1 - u53) <= p -> p <= A * (1 + u53) ->
  60 / p * (1 - u53) <= q -> q <= 60 / p * (1 + u53) ->
  (1#4) * q * (1 - u53) <= d -> d <= (1#4) * q * (1 + u53) ->
  15 * (1 - u53) * (1 - u53) <= d * A * (1 + u53) /\
  d * A * (1 - u53) <= 15 * (1 + u53) * (1 + u53).
Proof.
  intros HA P1 P2 Q1 Q2 D1 D2.
  assert (Hp : 0 < p) by (unfold u53 in *; nra).
  set (w := 60 / p) in *.
  assert (Hw : w * p == 60) by (unfold w; field; lra).
  assert (Hw0 : 0 < w).
  { unfold w. apply Qlt_shift_div_l; [assumption | lra]. }
  clearbody w.
  assert (Hq : 0 < q) by (unfold u53 in *; nra).
  assert (Hd : 0 < d) by (unfold u53 in *; nra).
  (* d * p is between 15 (1-u)^2 and 15 (1+u)^2 *)
  assert (L : 15 * (1 - u53) * (1 - u53) <= d * p).
  { assert (E : 15 * (1 - u53) * (1 - u53)
                == (1#4) * (w * p) * (1 - u53) * (1 - u53))
      by (rewrite Hw; ring).
    rewrite E.
    apply Qle_trans with ((1#4) * q * (1 - u53) * p).
    - setoid_replace ((1#4) * (w * p) * (1 - u53) * (1 - u53))
        with ((1#4) * (1 - u53) * p * (w * (1 - u53))) by ring.
      setoid_replace ((1#4) * q * (1 - u53) * p)
        with ((1#4) * (1 - u53) * p * q) by ring.
      apply Qmult_le_l; [unfold u53; nra | exact Q1].
    - apply Qmult_le_compat_r; [exact D1 | lra]. }
  assert (U : d * p <= 15 * (1 + u53) * (1 + u53)).
  { assert (E : 15 * (1 + u53) * (1 + u53)
                == (1#4) * (w * p) * (1 + u53) * (1 + u53))
      by (rewrite Hw; ring).
    rewrite E.
    apply Qle_trans with ((1#4) * q * (1 + u53) * p).
    - apply Qmult_le_compat_r; [exact D2 | lra].
    - setoid_replace ((1#4) * (w * p) * (1 + u53) * (1 + u53))
        with ((1#4) * (1 + u53) * p * (w * (1 + u53))) by ring.
      setoid_replace ((1#4) * q * (1 + u53) * p)
        with ((1#4) * (1 + u53) * p * q) by ring.
      apply Qmult_le_l; [unfold u53; nra | exact Q2]. }
  split.
  - eapply Qle_trans; [exact L |].
    setoid_replace (d * A * (1 + u53)) with (d * (A * (1 + u53))) by ring.
    apply Qmult_le_l; assumption.
  - eapply Qle_trans; [| exact U].
    setoid_replace (d * A * (1 - u53)) with (d * (A * (1 - u53))) by ring.
    apply Qmult_le_l; assumption.
Qed.

End StepAlgebra.

Ltac pow2_num :=
  repeat match goal with
         | |- context [pow2 ?k] =>
             let c := eval vm_compute in (pow2 k) in change (pow2 k) with c
         | H : context [pow2 ?k] |- _ =>
             let c := eval vm_compute in (pow2 k) in change (pow2 k) with c in H
         end.

Section StepLength.
Local Open Scope Q_scope.

Lemma product_range (x y : Q) :
  pow2 (-300) <= x -> x <= pow2 300 -> pow2 (-300) <= y -> y <= pow2 300 ->
  pow2 (-600) <= x * y /\ x * y <= pow2 600.
Proof.
  intros X1 X2 Y1 Y2.
  assert (E1 : pow2 (-600) == pow2 (-300) * pow2 (-300))
    by (rewrite <- (pow2_add (-300) (-300)); reflexivity).
  assert (E2 : pow2 600 == pow2 300 * pow2 300)
    by (rewrite <- (pow2_add 300 300); reflexivity).
  pose proof (pow2_pos (-300)) as P.
  rewrite E1, E2. split.
  - apply Qle_trans with (x * pow2 (-300)).
    + apply Qmult_le_compat_r; [assumption | lra].
    + apply Qmult_le_l; [lra | assumption].
  - apply Qle_trans with (x * pow2 300).
    + apply Qmult_le_l; [lra | assumption].
    + apply Qmult_le_compat_r; [assumption |]. pose proof (pow2_pos 300). lra.
Qed.

Lemma quotient_range (p : Q) :
  pow2 (-601) <= p -> p <= pow2 601 ->
  pow2 (-596) <= 60 / p /\ 60 / p <= pow2 607.
Proof.
  intros P1 P2. pose proof (pow2_pos (-601)) as P0.
  assert (Hp : 0 < p) by lra.
  split.
  - apply Qle_shift_div_l; [assumption |].
    apply Qle_trans with (pow2 (-596) * pow2 601).
    + apply Qmult_le_l; [apply pow2_pos | assumption].
    + rewrite <- (pow2_add (-596) 601). vm_compute. discriminate.
  - apply Qle_shift_div_r; [assumption |].
    apply Qle_trans with (pow2 607 * pow2 (-601)).
    + rewrite <- (pow2_add 607 (-601)). vm_compute. discriminate.
    + apply Qmult_le_l; [apply pow2_pos | assumption].
Qed.

Lemma pow2_half a : pow2 (a - 1) == pow2 a * (1#2).
Proof. rewrite pow2_pred. field. Qed.

Lemma rounded_range (X v : Q) (lo hi : Z) :
  pow2 lo <= X -> X <= pow2 hi ->
  X * (1 - u53) <= v -> v <= X * (1 + u53) ->
  pow2 (lo - 1) <= v /\ v <= pow2 (hi + 1).
Proof.
  intros X1 X2 V1 V2. rewrite pow2_half, pow2_succ.
  pose proof (pow2_pos lo). pose proof (pow2_pos hi).
  generalize dependent (pow2 lo). generalize dependent (pow2 hi).
  intros H L. intros. unfold u53 in *. split; lra.
Qed.

Lemma step_length_real (b m : float) vb vm :
  real b = Some vb -> real m = Some vm ->
  pow2 (-300) <= vb -> vb <= pow2 300 ->
  pow2 (-300) <= vm -> vm <= pow2 300 ->
  exists vd, real (0.25 * (60 / (b * m)))%float = Some vd /\
    15 * (1 - u53) * (1 - u53) <= vd * (vb * vm) * (1 + u53) /\
    vd * (vb * vm) * (1 - u53) <= 15 * (1 + u53) * (1 + u53) /\
    pow2 (-600) <= vd /\ vd <= pow2 607.
Proof.
  intros Hb Hm B1 B2 M1 M2.
  destruct (product_range vb vm B1 B2 M1 M2) as [A1 A2].
  assert (L1000 : forall k x, (-1000 <= k)%Z -> pow2 k <= x -> pow2 (-1000) <= x).
  { intros k x Hk Hx. eapply Qle_trans; [apply (pow2_le (-1000) k Hk) | exact Hx]. }
  assert (U1000 : forall k x, (k <= 1000)%Z -> x <= pow2 k -> x <= pow2 1000).
  { intros k x Hk Hx. eapply Qle_trans; [exact Hx | apply (pow2_le k 1000 Hk)]. }
  (* b * m *)
  destruct (mul_real b m vb vm Hb Hm) as (vp & Hp & P1 & P2).
  { apply (L1000 (-300)%Z); [lia | assumption]. }
  { apply (L1000 (-300)%Z); [lia | assumption]. }
  { apply (L1000 (-600)%Z); [lia | assumption]. }
  { apply (U1000 600%Z); [lia | assumption]. }
  destruct (rounded_range _ vp _ _ A1 A2 P1 P2) as [Pl Ph].
  change (-600 - 1)%Z with (-601)%Z in Pl. change (600 + 1)%Z with 601%Z in Ph.
  (* 60 / (b * m) *)
  assert (H60 : real 60%float = Some (inject_Z 8444249301319680 * pow2 (-47))).
  { vm_compute. reflexivity. }
  assert (E60 : inject_Z 8444249301319680 * pow2 (-47) == 60)
    by (vm_compute; reflexivity).
  destruct (quotient_range vp Pl Ph) as [Ql Qh].
  destruct (div_real 60 (b * m) _ vp H60 Hp) as (vq & Hq & Q1 & Q2).
  { rewrite E60. apply (L1000 0%Z); [lia |]. vm_compute. discriminate. }
  { apply (L1000 (-601)%Z); [lia | assumption]. }
  { rewrite E60. apply (L1000 (-596)%Z); [lia | assumption]. }
  { rewrite E60. apply (U1000 607%Z); [lia | assumption]. }
  rewrite E60 in Q1, Q2.
  destruct (rounded_range _ vq _ _ Ql Qh Q1 Q2) as [Vl Vh].
  change (-596 - 1)%Z with (-597)%Z in Vl. change (607 + 1)%Z with 608%Z in Vh.
  (* 0.25 * that *)
  assert (H25 : real 0.25%float = Some (inject_Z 4503599627370496 * pow2 (-54))).
  { vm_compute. reflexivity. }
  assert (E25 : inject_Z 4503599627370496 * pow2 (-54) == 1#4)
    by (vm_compute; reflexivity).
  assert (Xl : pow2 (-599) <= (1#4) * vq).
  { setoid_replace (pow2 (-599)) with ((1#4) * pow2 (-597))
      by (change (1#4) with (pow2 (-2));
          rewrite <- (pow2_add (-2) (-597)); reflexivity).
    apply Qmult_le_l; [reflexivity | assumption]. }
  assert (Xh : (1#4) * vq <= pow2 606).
  { setoid_replace (pow2 606) with ((1#4) * pow2 608)
      by (change (1#4) with (pow2 (-2));
          rewrite <- (pow2_add (-2) 608); reflexivity).
    apply Qmult_le_l; [reflexivity | assumption]. }
  destruct (mul_real 0.25 (60 / (b * m)) _ vq H25 Hq) as (vd & Hd & D1 & D2).
  { rewrite E25. apply (L1000 (-2)%Z); [lia |]. vm_compute. discriminate. }
  { apply (L1000 (-597)%Z); [lia | assumption]. }
  { rewrite E25. apply (L1000 (-599)%Z); [lia | assumption]. }
  { rewrite E25. apply (U1000 606%Z); [lia | assumption]. }
  rewrite E25 in D1, D2.
  destruct (rounded_range _ vd _ _ Xl Xh D1 D2) as [Dl Dh].
  change (-599 - 1)%Z with (-600)%Z in Dl. change (606 + 1)%Z with 607%Z in Dh.
  exists vd. split; [exact Hd |].
  assert (HA : 0 < vb * vm).
  { eapply Qlt_le_trans; [apply (pow2_pos (-600)) | exact A1]. }
  destruct (step_algebra (vb * vm) vp vq vd HA P1 P2 Q1 Q2 D1 D2) as [S1 S2].
  repeat split; assumption.
Qed.

End StepLength.

Section SixteenSums.
Local Open Scope Q_scope.

Lemma sixteen_sums (vt vd R t16 : Q) :
  0 <= vt -> 0 < vd -> 0 < R ->
  15 * (1 - u53) * (1 - u53) * R <= vd * (1 + u53) ->
  vd * (1 - u53) <= 15 * (1 + u53) * (1 + u53) * R ->
  acc (1 - u53) 16 vt vd <= t16 -> t16 <= acc (1 + u53) 16 vt vd ->
  - (float_tolerance * (vt + 240 * R)) <= t16 - (vt + 240 * R) /\
  t16 - (vt + 240 * R) <= float_tolerance * (vt + 240 * R).
Proof.
  intros Ht Hd HR S1 S2 L U. cbn [acc] in L, U.
  unfold float_tolerance, u53 in *. split; lra.
Qed.

Lemma one_sum (vt vd R t1 : Q) :
  0 <= vt -> 0 < vd -> 0 < R ->
  15 * (1 - u53) * (1 - u53) * R <= vd * (1 + u53) ->
  vd * (1 - u53) <= 15 * (1 + u53) * (1 + u53) * R ->
  (vt + vd) * (1 - u53) <= t1 -> t1 <= (vt + vd) * (1 + u53) ->
  - (float_tolerance * (vt + 15 * R)) <= t1 - (vt + 15 * R) /\
  t1 - (vt + 15 * R) <= float_tolerance * (vt + 15 * R).
Proof.
  intros Ht Hd HR S1 S2 L U.
  unfold float_tolerance, u53 in *. split; lra.
Qed.

Lemma sums_in_range (vt vd : Q) k :
  (k <= 16)%nat ->
  0 <= vt -> vt <= pow2 300 -> 0 <= vd -> vd <= pow2 607 ->
  acc (1 + u53) k vt vd <= pow2 1000.
Proof.
  intros Hk T1 T2 D1 D2.
  assert (H16 : acc (1 + u53) 16 vt vd <= pow2 1000).
  { cbn [acc]. pow2_num. unfold u53. lra. }
  assert (Hmono : forall j, acc (1 + u53) j vt vd <= acc (1 + u53) (S j) vt vd).
  { intros j. pose proof (acc_grows j vt vd T1 D1). lra. }
  assert (Hle : forall j i, (i + j <= 16)%nat ->
            acc (1 + u53) i vt vd <= acc (1 + u53) (i + j) vt vd).
  { induction j as [| j IH]; intros i Hi.
    - rewrite Nat.add_0_r. apply Qle_refl.
    - eapply Qle_trans; [apply (Hmono i) |].
      replace (i + S j)%nat with (S i + j)%nat by lia. apply IH. lia. }
  eapply Qle_trans; [apply (Hle (16 - k)%nat k); lia |].
  replace (k + (16 - k))%nat with 16%nat by lia. exact H16.
Qed.

End SixteenSums.

Section Binary64Clock.
Local Open Scope Q_scope.

(** The step length as [nextStep] writes it is this binary64
    expression. *)
Lemma step_length_float (td : TrackData float) (e : Engine float) :
  (lit 0.25 * (lit 60.0 / (bpm td * tempoModifier e)))%js
  = (0.25 * (60 / (bpm td * tempoModifier e)))%float.
Proof. reflexivity. Qed.

(** C2.  On binary64, with a track loaded whose bpm, the tempo modifier
    and the next-trigger time [t] are finite, bpm and modifier between
    [2^-300] and [2^300] and [t] between 0 and [2^300]: one advance
    moves the step index on modulo 16, keeps the modifier, and leaves a
    finite next-trigger time within [float_tolerance] (relative, [2^-48])
    of [t + 0.25 * 60 / (bpm * m)]; sixteen advances bring the step
    index back to where it started and leave a finite next-trigger time
    within the same tolerance of [t + 16 * 0.25 * 60 / (bpm * m)].  The
    formulas are over the rationals that the three numbers are. *)
Theorem nextStep_periodic_binary64 (e : Engine float) (td : TrackData float)
    (b m t : Q) :
  trackData e = Some td -> (currentStep e < 16)%nat ->
  real (bpm td) = Some b -> real (tempoModifier e) = Some m ->
  real (nextNoteTime e) = Some t ->
  pow2 (-300) <= b -> b <= pow2 300 ->
  pow2 (-300) <= m -> m <= pow2 300 ->
  0 <= t -> t <= pow2 300 ->
  (currentStep (nextStep e) = ((currentStep e + 1) mod 16)%nat /\
   tempoModifier (nextStep e) = tempoModifier e /\
   exists t1, real (nextNoteTime (nextStep e)) = Some t1 /\
     Qabs (t1 - (t + 0.25 * 60 / (b * m)))
     <= float_tolerance * (t + 0.25 * 60 / (b * m))) /\
  (currentStep (Nat.iter 16 nextStep e) = currentStep e /\
   tempoModifier (Nat.iter 16 nextStep e) = tempoModifier e /\
   exists t16, real (nextNoteTime (Nat.iter 16 nextStep e)) = Some t16 /\
     Qabs (t16 - (t + 16 * 0.25 * 60 / (b * m)))
     <= float_tolerance * (t + 16 * 0.25 * 60 / (b * m))).
Proof.
  intros Htd Hstep Hb Hm Ht B1 B2 M1 M2 T1 T2.
  destruct (step_length_real _ _ b m Hb Hm B1 B2 M1 M2)
    as (vd & Hd & S1 & S2 & D1 & D2).
  rewrite <- step_length_float in Hd.
  set (d := (lit 0.25 * (lit 60.0 / (bpm td * tempoModifier e)))%js) in *.
  destruct (product_range b m B1 B2 M1 M2) as [A1 _].
  assert (HA : 0 < b * m).
  { eapply Qlt_le_trans; [apply (pow2_pos (-600)) | exact A1]. }
  assert (HA0 : ~ b * m == 0).
  { intros E0. rewrite E0 in HA. exact (Qlt_irrefl 0 HA). }
  set (R := / (b * m)).
  assert (HR : 0 < R) by (now apply Qinv_lt_0_compat).
  assert (HAR : (b * m) * R == 1) by (now apply Qmult_inv_r).
  assert (Hd0 : 0 < vd).
  { eapply Qlt_le_trans; [apply (pow2_pos (-600)) | exact D1]. }
  assert (S1' : 15 * (1 - u53) * (1 - u53) * R <= vd * (1 + u53)).
  { setoid_replace (vd * (1 + u53)) with (vd * (b * m) * (1 + u53) * R)
      by (setoid_replace (vd * (b * m) * (1 + u53) * R)
            with (vd * (1 + u53) * ((b * m) * R)) by ring;
          rewrite HAR; ring).
    apply Qmult_le_compat_r; [exact S1 | now apply Qlt_le_weak]. }
  assert (S2' : vd * (1 - u53) <= 15 * (1 + u53) * (1 + u53) * R).
  { setoid_replace (vd * (1 - u53)) with (vd * (b * m) * (1 - u53) * R)
      by (setoid_replace (vd * (b * m) * (1 - u53) * R)
            with (vd * (1 - u53) * ((b * m) * R)) by ring;
          rewrite HAR; ring).
    apply Qmult_le_compat_r; [exact S2 | now apply Qlt_le_weak]. }
  assert (Ld : pow2 (-1000) <= vd).
  { eapply Qle_trans; [apply (pow2_le (-1000) (-600)); lia | exact D1]. }
  assert (E1 : 0.25 * 60 / (b * m) == 15 * R).
  { unfold Qdiv. fold R. setoid_replace (0.25 * 60) with 15 by reflexivity.
    reflexivity. }
  assert (E16 : 16 * 0.25 * 60 / (b * m) == 240 * R).
  { unfold Qdiv. fold R. setoid_replace (16 * 0.25 * 60) with 240 by reflexivity.
    reflexivity. }
  split; [split; [| split] | split; [| split]].
  - now rewrite (nextStep_loaded e Htd).
  - apply nextStep_keeps.
  - destruct (iter_add_real d vd Hd Ld 1 (nextNoteTime e) t Ht T1)
      as (t1 & Ht1 & L & U).
    { apply sums_in_range; try assumption; [lia | now apply Qlt_le_weak]. }
    exists t1. split.
    + rewrite (nextStep_loaded e Htd). exact Ht1.
    + cbn [acc] in L, U. rewrite E1. apply Qabs_Qle_condition.
      now apply (one_sum t vd R t1).
  - rewrite (iter_nextStep_step 16 e Htd Hstep).
    rewrite Nat.Div0.add_mod, Nat.Div0.mod_same, Nat.add_0_r,
      Nat.Div0.mod_mod.
    now apply Nat.mod_small.
  - apply iter_nextStep_keeps.
  - destruct (iter_add_real d vd Hd Ld 16 (nextNoteTime e) t Ht T1)
      as (t16 & Ht16 & L & U).
    { apply sums_in_range; try assumption; [lia | now apply Qlt_le_weak]. }
    exists t16. split.
    + rewrite (iter_nextStep_time 16 e Htd). exact Ht16.
    + rewrite E16. apply Qabs_Qle_condition.
      now apply (sixteen_sums t vd R t16).
Qed.

End Binary64Clock.


Set Implicit Arguments.

(** At 118 bpm, modifier 1 and a next step due at 1.1 s, where the
    sixteen rounded sums do not land on the exact formula: step 0 again,
    and within the tolerance. *)
Lemma nextStep_periodic_binary64_witness :
  exists b m t t16,
    real (lit 118) = Some b /\ real (lit 1.0) = Some m /\
    real (lit 1.1) = Some t /\
    currentStep (Nat.iter 16 nextStep engine_118) = 0%nat /\
    real (nextNoteTime (Nat.iter 16 nextStep engine_118)) = Some t16 /\
    (Qabs (t16 - (t + 16 * 0.25 * 60 / (b * m)))
     <= float_tolerance * (t + 16 * 0.25 * 60 / (b * m)))%Q.
Proof.
  match eval vm_compute in
        (real (lit 118), real (lit 1.0), real (lit 1.1)) with
  | (Some ?b, Some ?m, Some ?t) =>
      destruct (@nextStep_periodic_binary64 engine_118 track_118 b m t
                  eq_refl ltac:(cbn; lia)
                  ltac:(vm_compute; reflexivity)
                  ltac:(vm_compute; reflexivity)
                  ltac:(vm_compute; reflexivity)
                  ltac:(vm_compute; discriminate)
                  ltac:(vm_compute; discriminate)
                  ltac:(vm_compute; discriminate)
                  ltac:(vm_compute; discriminate)
                  ltac:(vm_compute; discriminate)
                  ltac:(vm_compute; discriminate))
        as (_ & Hstep & _ & t16 & Ht16 & Hbound);
      exists b, m, t, t16;
      do 3 (split; [vm_compute; reflexivity |]);
      split; [exact Hstep |]; split; [exact Ht16 | exact Hbound]
  end.
Defined.

(** There the exact formula is missed, by less than the tolerance: the
    binary64 sum is not the binary64 number nearest to
    [1.1 + 16 * 0.25 * 60 / 118]. *)
Example sixteen_steps_118_inexact :
  PrimFloat.eqb (nextNoteTime (Nat.iter 16 nextStep engine_118))
    (lit (1.1 + 16 * 0.25 * 60 / 118)) = false.
Proof. vm_compute. reflexivity. Qed.

(** ** The tempo modifier, on binary64 *)

Section FloatClamp.
Local Open Scope float_scope.

Lemma leb_of_compare a b :
  PrimFloat.compare a b = FLt \/ PrimFloat.compare a b = FEq ->
  PrimFloat.leb a b = true.
Proof.
  rewrite FloatAxioms.leb_spec, FloatAxioms.compare_spec. unfold SFleb.
  destruct (SFcompare (Prim2SF a) (Prim2SF b)) as [[] |]; cbn;
    intros [E | E]; congruence.
Qed.

Lemma SFcompare_None a b :
  SFcompare a b = None -> a = S754_nan \/ b = S754_nan.
Proof.
  destruct a, b; cbn; auto; try discriminate.
  all: repeat match goal with
              | |- context [if ?c then _ else _] => destruct c
              end; try discriminate.
  all: destruct (Z.compare _ _); discriminate.
Qed.

Lemma comparable_of_not_nan x c :
  PrimFloat.is_nan x = false -> PrimFloat.is_nan c = false ->
  PrimFloat.compare x c <> FNotComparable.
Proof.
  unfold PrimFloat.is_nan.
  rewrite !FloatAxioms.eqb_spec, FloatAxioms.compare_spec. unfold SFeqb.
  intros Hx Hc.
  destruct (SFcompare (Prim2SF x) (Prim2SF c)) as [[] |] eqn:E; cbn;
    try congruence.
  apply SFcompare_None in E.
  destruct E as [E | E]; rewrite E in *; cbn in *; discriminate.
Qed.

(** Two floats that a test tells apart are different. *)
Lemma float_neq (a b : float) :
  PrimFloat.eqb a a = true -> PrimFloat.eqb a b = false -> a <> b.
Proof. intros Ha Hab E. rewrite <- E in Hab. congruence. Qed.

(** The four ways the clamp comes out. *)
Lemma clamp_tempo_cases (x : float) :
  (clamp_tempo x = x /\
   (PrimFloat.compare x 2 = FLt \/ PrimFloat.compare x 2 = FEq) /\
   (PrimFloat.compare 0.5 x = FLt \/ PrimFloat.compare 0.5 x = FEq))
  \/ clamp_tempo x = 0.5
  \/ clamp_tempo x = 2
  \/ (clamp_tempo x = PrimFloat.nan /\
      (PrimFloat.compare x 2 = FNotComparable \/
       PrimFloat.compare 0.5 x = FNotComparable)).
Proof.
  unfold clamp_tempo. cbn [Math_max Math_min lit float_JsNumber].
  change (float_lit 0.5) with 0.5. change (float_lit 2.0) with 2.
  unfold float_min.
  destruct (PrimFloat.compare x 2) eqn:E1.
  - right; right; left. reflexivity.
  - unfold float_max. destruct (PrimFloat.compare 0.5 x) eqn:E2.
    + right; left. reflexivity.
    + left. auto.
    + right; left. reflexivity.
    + right; right; right. auto.
  - right; right; left. reflexivity.
  - right; right; right. split; [reflexivity | auto].
Qed.

Lemma clamp_tempo_idempotent (x : float) :
  clamp_tempo (clamp_tempo x) = clamp_tempo x.
Proof.
  destruct (clamp_tempo_cases x) as [(E & _) | [E | [E | [E _]]]];
    rewrite E.
  - exact E.
  - vm_compute; reflexivity.
  - vm_compute; reflexivity.
  - vm_compute; reflexivity.
Qed.

Lemma clamp_tempo_range (x : float) :
  PrimFloat.is_nan x = false ->
  within (lit 0.5, lit 2.0) (clamp_tempo x) = true.
Proof.
  intros Hx. unfold within. cbn [fst snd]. apply andb_true_intro.
  change (@lit float _ 0.5%Q) with 0.5. change (@lit float _ 2.0%Q) with 2.
  destruct (clamp_tempo_cases x) as [(E & E1 & E2) | [E | [E | [_ E]]]].
  - rewrite E. split; apply leb_of_compare; assumption.
  - rewrite E. split; vm_compute; reflexivity.
  - rewrite E. split; vm_compute; reflexivity.
  - exfalso. destruct E as [E | E]; revert E; apply comparable_of_not_nan;
      solve [assumption | reflexivity].
Qed.

(** C3.  On binary64, for every [x]: [setTempoModifier(x)] stores
    [max(0.5, min(2.0, x))]; storing the clamped value instead stores the
    same, so the method is idempotent under clamping; and for every
    number [x] (anything but NaN, the infinities included) the stored
    value lies in [0.5, 2.0].  In particular [setTempoModifier(10)]
    leaves the state that [setTempoModifier(2.0)] leaves, and
    [setTempoModifier(0.01)] the state that [setTempoModifier(0.5)]
    leaves. *)
Theorem setTempoModifier_clamps (x : float) (e : Engine float) :
  let stored := tempoModifier (setTempoModifier x e) in
  stored = clamp_tempo x /\
  setTempoModifier (clamp_tempo x) e = setTempoModifier x e /\
  (PrimFloat.is_nan x = false -> within (lit 0.5, lit 2.0) stored = true) /\
  setTempoModifier (lit 10) e = setTempoModifier (lit 2.0) e /\
  setTempoModifier (lit 0.01) e = setTempoModifier (lit 0.5) e.
Proof.
  cbn zeta. split; [reflexivity |]. split; [| split; [| split]].
  - unfold setTempoModifier.
    fold (clamp_tempo (clamp_tempo x)). fold (clamp_tempo x).
    now rewrite clamp_tempo_idempotent.
  - intros Hx. exact (clamp_tempo_range x Hx).
  - unfold setTempoModifier. f_equal.
  - unfold setTempoModifier. f_equal.
Qed.

End FloatClamp.

(** A smile worth 1.3 is stored as it is, and is in range. *)
Lemma setTempoModifier_clamps_witness :
  PrimFloat.is_nan (lit 1.3) = false /\
  within (lit 0.5, lit 2.0)
    (tempoModifier (setTempoModifier (lit 1.3) demo_engine)) = true.
Proof.
  split; [reflexivity |].
  exact (proj1 (proj2 (proj2
           (setTempoModifier_clamps (lit 1.3) demo_engine))) eq_refl).
Defined.

(** Why the range is stated for numbers only: [Math.min] and [Math.max]
    pass NaN through, so a NaN argument would be stored as it is.  The
    one caller, the camera overlay, passes [1.0 + mouthSmile * 0.5] with
    each score read through [|| 0], so that a NaN score counts as 0. *)
Example setTempoModifier_nan_passes_through :
  let stored := tempoModifier (setTempoModifier PrimFloat.nan demo_engine) in
  PrimFloat.is_nan stored = true /\
  within (lit 0.5, lit 2.0) stored = false.
Proof. vm_compute. split; reflexivity. Qed.

(** ** Loading a track *)

Section Frame.
Context {N : Type} `{JsNumber N}.

(** C4.  Loading a track sets the step index to 0 and the track
    reference to the new document, and leaves every other field as it
    was: the next-trigger time, the playing flag and the pending timer
    (the running clock), the tempo modifier, the mute flag, the
    bass-distortion flag, the sample, the observer, and the whole graph. *)
Theorem loadTrack_frame (e : Engine N) (data : TrackData N) :
  let e' := loadTrack data e in
  currentStep e' = 0%nat /\
  trackData e' = Some data /\
  nextNoteTime e' = nextNoteTime e /\
  isPlaying e' = isPlaying e /\
  timerID e' = timerID e /\
  tempoModifier e' = tempoModifier e /\
  isCustomMuted e' = isCustomMuted e /\
  bassDistortionActive e' = bassDistortionActive e /\
  customBuffer e' = customBuffer e /\
  onStep e' = onStep e /\
  ctx e' = ctx e /\
  masterGain e' = masterGain e /\
  masterFilter e' = masterFilter e /\
  compressor e' = compressor e /\
  analyser e' = analyser e /\
  reverbNode e' = reverbNode e /\
  reverbSend e' = reverbSend e /\
  delayNode e' = delayNode e /\
  delayFeedback e' = delayFeedback e /\
  delaySend e' = delaySend e /\
  distortionNode e' = distortionNode e /\
  distortionSend e' = distortionSend e /\
  wiring e' = wiring e /\
  mediaRecorder e' = mediaRecorder e /\
  dest e' = dest e /\
  recordedChunks e' = recordedChunks e.
Proof. cbn. repeat split. Qed.

End Frame.

(** ** Notes *)

Section Notes.
Context {N : Type} `{JsNumber N}.
Local Open Scope string_scope.

Lemma assoc_In {A} k (v : A) l : assoc k l = Some v -> In (k, v) l.
Proof.
  induction l as [| [k' v'] l IH]; cbn; [discriminate |].
  destruct (String.eqb_spec k k') as [-> | _].
  - intros [= ->]. now left.
  - intros E. right. now apply IH.
Qed.

(** An empty slot is skipped. *)
Lemma dispatch_note_null (trigger : JsValue N -> Run (Event N) unit) :
  dispatch_note None trigger = ret tt.
Proof. reflexivity. Qed.

(** A name the table read gives nothing for is skipped. *)
Lemma dispatch_note_unresolved name
    (trigger : JsValue N -> Run (Event N) unit) :
  get NOTE_FREQS name = JUndefined ->
  dispatch_note (Some name) trigger = ret tt.
Proof.
  intros E. unfold dispatch_note. rewrite E. cbn.
  now destruct (negb _).
Qed.

(** A name of the table fires the trigger with the table's frequency. *)
Lemma dispatch_note_resolved name q
    (trigger : JsValue N -> Run (Event N) unit) :
  assoc name NOTE_FREQS = Some q ->
  ToBoolean_number (lit q : N) = true ->
  dispatch_note (Some name) trigger = trigger (JNum (lit q)).
Proof.
  intros E Hq. unfold dispatch_note, get. rewrite E. cbn. rewrite Hq.
  destruct (String.eqb_spec name ""); [subst; discriminate | reflexivity].
Qed.

(** A name that is not in the table but is a property every object
    inherits fires the trigger too, with that property as frequency. *)
Lemma dispatch_note_inherited name v
    (trigger : JsValue N -> Run (Event N) unit) :
  assoc name NOTE_FREQS = None ->
  assoc name Object_prototype = Some v ->
  dispatch_note (Some name) trigger = trigger v.
Proof.
  intros E1 E2. unfold dispatch_note, get. rewrite E1, E2.
  assert (Hv : ToBoolean v = true).
  { revert E2. cbn.
    repeat match goal with
           | |- context [if String.eqb name ?s then _ else _] =>
               destruct (String.eqb name s)
           end; intros E2; inversion E2; reflexivity. }
  rewrite Hv. cbn.
  destruct (String.eqb_spec name ""); [subst; discriminate | reflexivity].
Qed.

(** What the prototype has is never a number, and always truthy. *)
Lemma Object_prototype_not_a_number name (v : JsValue N) :
  assoc name Object_prototype = Some v ->
  not_a_number v /\ ToBoolean v = true.
Proof.
  cbn.
  repeat match goal with
         | |- context [if String.eqb name ?s then _ else _] =>
             destruct (String.eqb name s)
         end; intros E; inversion E; split; exact I || reflexivity.
Qed.

(** A bass trigger handed something that is not a number stops at the
    assignment of the oscillator frequency: nothing is started. *)
Lemma triggerBass_throws (e : Engine N) c g time v settings :
  ctx e = Some c -> masterGain e = Some g -> not_a_number v ->
  exists requests what,
    triggerBass e time v settings
    = ([Voice Bass requests], inl (TypeError what)) /\
    starts requests = [].
Proof.
  intros Hc Hg Hv. unfold triggerBass. rewrite Hc, Hg.
  destruct v; try contradiction;
    destruct (bassDistortionActive e); cbn; do 2 eexists; split; reflexivity.
Qed.

(** So does a lead trigger. *)
Lemma triggerLead_throws (e : Engine N) c g time v settings :
  ctx e = Some c -> masterGain e = Some g -> not_a_number v ->
  exists requests what,
    triggerLead e time v settings
    = ([Voice Lead requests], inl (TypeError what)) /\
    starts requests = [].
Proof.
  intros Hc Hg Hv. unfold triggerLead. rewrite Hc, Hg.
  destruct v; try contradiction; cbn; do 2 eexists; split; reflexivity.
Qed.

Lemma outcome_when_triggerKick b (e : Engine N) time punch :
  outcome (when b (triggerKick e time punch)) = inr tt.
Proof.
  unfold triggerKick.
  destruct b, (ctx e), (masterGain e); reflexivity.
Qed.

Lemma outcome_when_triggerHat b (e : Engine N) time bright :
  outcome (when b (triggerHat e time bright)) = inr tt.
Proof.
  unfold triggerHat.
  destruct b, (ctx e), (masterGain e); reflexivity.
Qed.

(** Whatever the engine and the track: a bass slot holding an inherited
    property name makes the step throw. *)
Lemma scheduleStep_inherited_bass (e : Engine N) td c g step time name
    (v : JsValue N) :
  trackData e = Some td -> ctx e = Some c -> masterGain e = Some g ->
  slot_at (bass (sequences td)) step = Some name ->
  assoc name NOTE_FREQS = None ->
  assoc name Object_prototype = Some v ->
  exists what, outcome (scheduleStep e step time) = inl (TypeError what).
Proof.
  intros Htd Hc Hg Hslot Hown Hin.
  destruct (Object_prototype_not_a_number name Hin) as [Hv _].
  destruct (@triggerBass_throws e c g time v (bassSettings td) Hc Hg Hv)
    as (requests & what & Hthrow & _).
  exists what. unfold scheduleStep. rewrite Htd, Hc, Hg.
  rewrite outcome_bind.
  replace (outcome (match onStep e with Some _ => _ | None => ret tt end))
    with (inr tt : Exn + unit) by (destruct (onStep e); reflexivity).
  rewrite outcome_bind, outcome_when_triggerKick.
  rewrite outcome_bind, outcome_when_triggerHat.
  rewrite outcome_bind, Hslot.
  rewrite (dispatch_note_inherited _ _ Hown Hin), Hthrow. reflexivity.
Qed.

End Notes.

(** On binary64 every frequency of the table is truthy. *)
Lemma NOTE_FREQS_truthy name q :
  assoc name NOTE_FREQS = Some q -> ToBoolean_number (lit q : float) = true.
Proof.
  intros E. apply assoc_In in E.
  assert (Hall : forallb (fun kv => float_truthy (float_lit (snd kv)))
                   NOTE_FREQS = true) by (vm_compute; reflexivity).
  rewrite forallb_forall in Hall. exact (Hall _ E).
Qed.

(** C5, where the code departs from it.  The second bass slot of the demo
    track holds ["constructor"], which is no entry of the note table.
    Dispatching that step nevertheless enters the bass trigger, which
    creates its oscillator and then throws when it assigns the frequency:
    the step does not complete silently. *)
Theorem scheduleStep_inherited_name_throws :
  slot_at (bass (sequences demo_track)) 1 = Some "constructor"%string /\
  assoc "constructor" NOTE_FREQS = None /\
  voices_of Bass (logged (scheduleStep demo_engine 1 (lit 1.225)))
    = [[Create "osc" Oscillator; SetOscType "osc" square]] /\
  outcome (scheduleStep demo_engine 1 (lit 1.225))
    = inl (TypeError "The provided float value is non-finite").
Proof. vm_compute. repeat split. Qed.

(** ** The two bass paths *)

Section BassPaths.
Context {N : Type} `{JsNumber N}.
Local Open Scope js_scope.
Local Open Scope string_scope.

(** Setting the flag writes the flag and nothing else: no node, no
    parameter, no connection is touched. *)
Lemma setBassDistortion_frame (active : bool) (e : Engine N) :
  let e' := setBassDistortion active e in
  bassDistortionActive e' = active /\
  ctx e' = ctx e /\ masterGain e' = masterGain e /\
  masterFilter e' = masterFilter e /\
  distortionNode e' = distortionNode e /\
  distortionSend e' = distortionSend e /\
  reverbSend e' = reverbSend e /\ delaySend e' = delaySend e /\
  wiring e' = wiring e /\
  trackData e' = trackData e /\ currentStep e' = currentStep e /\
  nextNoteTime e' = nextNoteTime e /\ tempoModifier e' = tempoModifier e.
Proof. cbn. repeat split. Qed.

(** The chain of a bass note is chosen by the flag as it stands when the
    note is triggered. *)
Lemma triggerBass_chain (e : Engine N) time f settings :
  initialised e = true ->
  triggerBass e time (JNum f) settings =
  ([Voice Bass (if bassDistortionActive e
                then distorted_chain time f settings
                else normal_chain time f settings)], inr tt).
Proof.
  intros Hinit.
  destruct (initialised_nodes e Hinit) as (c & g & d & Hc & Hg & Hd).
  unfold triggerBass. rewrite Hc, Hg, Hd.
  destruct (bassDistortionActive e); reflexivity.
Qed.

(** C6.  On an initialised engine, take two bass notes, each triggered
    after the flag was set to [flag1], resp. [flag2], whatever their
    times, frequencies and settings.  Each is built on the path its flag
    selects: the distorted path (sawtooth, lowpass of Q 15 swept from 2.5
    times the cutoff to the cutoff, 5 times drive, shared distortion
    stage) or the normal one (track waveform, lowpass of Q 2, no
    distortion stage).  If the flags differ the two chains differ in
    structure; if they agree the two chains have the same structure.
    Setting the flag changes the flag only, so a note already built keeps
    its chain. *)
Theorem triggerBass_paths (e : Engine N) :
  initialised e = true ->
  forall (flag1 flag2 : bool) (t1 t2 f1 f2 : N) (s1 s2 : BassSettings N),
  let note1 := triggerBass (setBassDistortion flag1 e) t1 (JNum f1) s1 in
  let note2 := triggerBass (setBassDistortion flag2 e) t2 (JNum f2) s2 in
  note1 = ([Voice Bass (if flag1 then distorted_chain t1 f1 s1
                        else normal_chain t1 f1 s1)], inr tt) /\
  note2 = ([Voice Bass (if flag2 then distorted_chain t2 f2 s2
                        else normal_chain t2 f2 s2)], inr tt) /\
  (flag1 <> flag2 ->
     map (@structure N) (voices_of Bass (logged note1))
     <> map (@structure N) (voices_of Bass (logged note2))) /\
  (flag1 = flag2 ->
     map (@structure N) (voices_of Bass (logged note1))
     = map (@structure N) (voices_of Bass (logged note2))) /\
  In (Wire (Local "distGain") (Input (Shared DistortionNode)))
     (structure (distorted_chain t1 f1 s1)) /\
  (forall src dst,
     In (Wire src dst) (structure (normal_chain t1 f1 s1)) ->
     src <> Shared DistortionNode /\ dst <> Input (Shared DistortionNode)) /\
  (forall flag, ctx (setBassDistortion flag e) = ctx e /\
                distortionNode (setBassDistortion flag e) = distortionNode e /\
                masterGain (setBassDistortion flag e) = masterGain e /\
                wiring (setBassDistortion flag e) = wiring e).
Proof.
  intros Hinit flag1 flag2 t1 t2 f1 f2 s1 s2.
  assert (Hnote : forall flag t f s,
    triggerBass (setBassDistortion flag e) t (JNum f) s =
    ([Voice Bass (if flag then distorted_chain t f s
                  else normal_chain t f s)], inr tt)).
  { intros flag t f s. now rewrite triggerBass_chain. }
  cbn zeta. rewrite !Hnote.
  split; [reflexivity |]. split; [reflexivity |].
  split; [| split; [| split; [| split]]].
  - destruct flag1, flag2; intros Hneq; try congruence; cbn; discriminate.
  - intros ->. destruct flag2; reflexivity.
  - cbn. tauto.
  - intros src dst Hin. cbn in Hin.
    repeat (destruct Hin as [Hin | Hin];
            [first [ discriminate Hin
                   | injection Hin as <- <-; split; discriminate ] |]).
    contradiction.
  - intros flag. cbn. auto.
Qed.

End BassPaths.

(** Two notes of the demo session, the flag switched on in between. *)
Lemma triggerBass_paths_witness :
  initialised demo_engine = true /\
  map (@structure float)
    (voices_of Bass
       (logged (triggerBass (setBassDistortion false demo_engine)
                  (lit 1.1) (JNum (lit 65.41)) (bassSettings demo_track))))
  <> map (@structure float)
       (voices_of Bass
          (logged (triggerBass (setBassDistortion true demo_engine)
                     (lit 1.225) (JNum (lit 65.41))
                     (bassSettings demo_track)))).
Proof.
  split; [reflexivity |].
  refine (proj1 (proj2 (proj2
            (@triggerBass_paths float _ demo_engine eq_refl false true
               (lit 1.1) (lit 1.225) (lit 65.41) (lit 65.41)
               (bassSettings demo_track) (bassSettings demo_track)))) _).
  discriminate.
Defined.

(** ** The slapback tap of the lead *)

Section LeadDelay.
Context {N : Type} `{JsNumber N}.
Local Open Scope js_scope.
Local Open Scope string_scope.

(** C7, as the code has it.  Every lead voice built for a numeric
    frequency has a delay tap: a delay node whose delay time is set once,
    to the constant [3/16] (seconds, whatever the tempo), a feedback gain
    of 0.3 around the delay and a tap level of 0.3 into the master
    bus. *)
Theorem triggerLead_slapback (e : Engine N) c g time f
    (settings : SynthSettings N) :
  ctx e = Some c -> masterGain e = Some g ->
  exists requests,
    triggerLead e time (JNum f) settings = ([Voice Lead requests], inr tt) /\
    In (Create "delay" Delay) requests /\
    param_values (Local "delay") p_delayTime requests = [lit 3 / lit 16] /\
    param_values (Local "feedback") p_gain requests = [lit 0.3] /\
    param_values (Local "delayGain") p_gain requests = [lit 0.3] /\
    incl [ Wire (Local "gain") (Input (Local "delay"));
           Wire (Local "delay") (Input (Local "delayGain"));
           Wire (Local "delayGain") (Input (Shared MasterGain));
           Wire (Local "delay") (Input (Local "feedback"));
           Wire (Local "feedback") (Input (Local "delay")) ]
         (structure requests).
Proof.
  intros Hc Hg. unfold triggerLead. rewrite Hc, Hg.
  destruct (waveform settings); cbn; eexists; (split; [reflexivity |]);
    cbn; (repeat split; try tauto);
    intros x Hx; cbn in Hx |- *; tauto.
Qed.

End LeadDelay.

(** The lead note of the demo track. *)
Lemma triggerLead_slapback_witness :
  exists requests,
    logged (triggerLead demo_engine (lit 1.35) (JNum (lit 440))
              (synthSettings demo_track)) = [Voice Lead requests] /\
    param_values (Local "delay") p_delayTime requests
      = [PrimFloat.div (lit 3) (lit 16)].
Proof.
  destruct (@triggerLead_slapback float _ demo_engine demo_context
              {| gain := new_param (lit 0.5) |} (lit 1.35) (lit 440)
              (synthSettings demo_track) eq_refl eq_refl)
    as (requests & Hrun & _ & Hdelay & _).
  exists requests. split; [now rewrite Hrun | exact Hdelay].
Defined.

(** C7, as stated, fails: at 120 bpm and modifier 1, three sixteenths of
    a beat last 0.09375 s, and the delay of the lead fired at step 2 is
    0.1875 s. *)
Lemma lead_delay_ignores_tempo :
  let fired := voices_of Lead (logged (scheduleStep demo_engine 2 (lit 1.35))) in
  let claimed :=
    three_sixteenths_beat (bpm demo_track) (tempoModifier demo_engine) in
  map (param_values (Local "delay") p_delayTime) fired = [[lit 0.1875]] /\
  claimed = lit 0.09375 /\
  map (param_values (Local "delay") p_delayTime) fired <> [[claimed]].
Proof.
  cbn zeta. split; [vm_compute; reflexivity |].
  split; [vm_compute; reflexivity |].
  intros E.
  apply (f_equal (fun l => match l with
                           | [[x]] => PrimFloat.eqb x (lit 0.1875)
                           | _ => false
                           end)) in E.
  vm_compute in E. discriminate E.
Qed.

(** ** Gestures *)

Section Gestures.
Context {N : Type} `{JsNumber N}.
Local Open Scope js_scope.
Local Open Scope string_scope.

Lemma cancel_anchor_ramp now ev1 ev2 (p : AudioParam N) :
  schedule ev2
    (schedule ev1
       (setValueAtTime (value p) now (cancelScheduledValues now p)))
  = retriggered now [ev1; ev2] p.
Proof.
  unfold retriggered, setValueAtTime, schedule, cancelScheduledValues. cbn.
  now rewrite <- !app_assoc.
Qed.

(** What is left on a retriggered parameter: old events strictly before
    the trigger, the anchor, the new ramps. *)
Lemma retriggered_events now curve (p : AudioParam N) ev :
  In ev (events (retriggered now curve p)) ->
  (In ev (events p) /\ (event_time ev <? now)%js = true)
  \/ ev = SetValueEvent (value p) now
  \/ In ev curve.
Proof.
  cbn. rewrite in_app_iff, filter_In. cbn. intuition auto.
Qed.

Ltac retrigger_case Hnode :=
  rewrite Hnode; cbn; rewrite ?Hnode;
  unfold linearRampToValueAtTime, exponentialRampToValueAtTime;
  rewrite cancel_anchor_ramp;
  do 3 (split; [reflexivity |]);
  intros [] Hne; cbn; congruence.

(** Each gesture cancels, anchors and ramps its own parameter and leaves
    the other three alone. *)
Lemma triggerGestureFX_retriggers (e : Engine N) token tgt curve :
  initialised e = true ->
  gesture token = Some (tgt, curve) ->
  exists c p,
    ctx e = Some c /\
    target_param tgt e = Some p /\
    target_param tgt (triggerGestureFX token e)
      = Some (retriggered (currentTime c) (curve (currentTime c)) p) /\
    forall other, other <> tgt ->
      target_param other (triggerGestureFX token e) = target_param other e.
Proof.
  intros Hinit Hg.
  destruct (initialised_sends e Hinit)
    as (c & rs & mf & ds & dl & Hc & Hrs & Hmf & Hds & Hdl).
  exists c. unfold gesture in Hg. unfold triggerGestureFX. rewrite Hc.
  destruct (String.eqb token "reverb").
  { injection Hg as <- <-. exists (gain rs).
    unfold triggerReverb. retrigger_case Hrs. }
  destruct (String.eqb token "filter").
  { injection Hg as <- <-. exists (frequency mf).
    unfold triggerLowPass. retrigger_case Hmf. }
  destruct (String.eqb token "distortion").
  { injection Hg as <- <-. exists (gain ds).
    unfold triggerDistortion. retrigger_case Hds. }
  destruct (String.eqb token "delay"); [| discriminate].
  injection Hg as <- <-. exists (gain dl).
  unfold triggerDelay. retrigger_case Hdl.
Qed.

(** A gesture keeps the graph, so it can be followed by another. *)
Lemma initialised_triggerGestureFX (e : Engine N) token :
  initialised e = true -> initialised (triggerGestureFX token e) = true.
Proof.
  intros Hinit.
  destruct (initialised_sends e Hinit)
    as (c & rs & mf & ds & dl & Hc & Hrs & Hmf & Hds & Hdl).
  unfold triggerGestureFX, triggerReverb, triggerLowPass, triggerDistortion,
    triggerDelay.
  rewrite Hc, Hrs, Hmf, Hds, Hdl.
  unfold initialised in *.
  rewrite Hrs, Hmf, Hds, Hdl in Hinit.
  repeat match goal with
         | |- context [if ?b then _ else _] => destruct b
         end; cbn; try rewrite Hrs; try rewrite Hmf; try rewrite Hds;
    try rewrite Hdl; exact Hinit.
Qed.

(** The gestures are the four tokens, no more. *)
Lemma gesture_tokens token :
  @gesture N _ token <> None <->
  token = "reverb" \/ token = "filter" \/ token = "distortion"
  \/ token = "delay".
Proof.
  unfold gesture.
  destruct (String.eqb_spec token "reverb") as [-> | H1];
    [split; [auto | discriminate] |].
  destruct (String.eqb_spec token "filter") as [-> | H2];
    [split; [auto | discriminate] |].
  destruct (String.eqb_spec token "distortion") as [-> | H3];
    [split; [auto | discriminate] |].
  destruct (String.eqb_spec token "delay") as [-> | H4];
    [split; [auto | discriminate] |].
  split; [congruence | intuition congruence].
Qed.

(** A token that is no gesture does nothing. *)
Lemma triggerGestureFX_unknown (e : Engine N) token :
  gesture token = None -> triggerGestureFX token e = e.
Proof.
  unfold gesture, triggerGestureFX. destruct (ctx e); [| reflexivity].
  destruct (String.eqb token "reverb"); [discriminate |].
  destruct (String.eqb token "filter"); [discriminate |].
  destruct (String.eqb token "distortion"); [discriminate |].
  destruct (String.eqb token "delay"); [discriminate | reflexivity].
Qed.

End Gestures.

(** The values a gesture schedules are inside the range of its
    parameter, on binary64. *)
Lemma gesture_curve_within token tgt curve (now : float) :
  gesture token = Some (tgt, curve) ->
  forall ev, In ev (curve now) ->
    within (valid_range tgt) (event_value ev) = true.
Proof.
  unfold gesture. intros Hg.
  repeat match type of Hg with
         | (if ?b then _ else _) = _ => destruct b
         end; try discriminate; injection Hg as <- <-;
    intros ev [<- | [<- | []]]; vm_compute; reflexivity.
Qed.

(** C8.  On an initialised engine, whatever is scheduled on the target
    parameter of a gesture (so also in the middle of an earlier curve),
    triggering the gesture at device time [now] leaves on that parameter:
    the old events strictly before [now], then an anchor at [now] holding
    the value read at [now], then the two ramps of the gesture.  Nothing
    scheduled earlier for [now] or later survives, so the new ramps are
    the only ones ahead; and if the value read is within the range of the
    parameter, every value scheduled from [now] on is.  The other three
    parameters are untouched. *)
Theorem triggerGestureFX_retrigger (e : Engine float) token tgt curve :
  initialised e = true ->
  gesture token = Some (tgt, curve) ->
  exists c p,
    ctx e = Some c /\ target_param tgt e = Some p /\
    let now := currentTime c in
    let p' := retriggered now (curve now) p in
    target_param tgt (triggerGestureFX token e) = Some p' /\
    events p' =
      filter (fun ev => PrimFloat.ltb (event_time ev) now) (events p)
      ++ SetValueEvent (value p) now :: curve now /\
    (forall ev, In ev (events p') ->
       (In ev (events p) /\ PrimFloat.ltb (event_time ev) now = true)
       \/ ev = SetValueEvent (value p) now \/ In ev (curve now)) /\
    (within (valid_range tgt) (value p) = true ->
     forall ev, In ev (SetValueEvent (value p) now :: curve now) ->
       within (valid_range tgt) (event_value ev) = true) /\
    (forall other, other <> tgt ->
       target_param other (triggerGestureFX token e) = target_param other e).
Proof.
  intros Hinit Hg.
  destruct (triggerGestureFX_retriggers e token Hinit Hg)
    as (c & p & Hc & Hp & Hp' & Hother).
  exists c, p. split; [exact Hc |]. split; [exact Hp |].
  cbn zeta. split; [exact Hp' |]. split; [reflexivity |].
  split; [| split; [| exact Hother]].
  - intros ev Hin. exact (retriggered_events _ _ _ _ Hin).
  - intros Hval ev [<- | Hin]; [exact Hval |].
    exact (gesture_curve_within token (currentTime c) Hg ev Hin).
Qed.

(** A second reverb gesture half a second into the first: the exponential
    decay of the first, due at time 3, is gone; the send is anchored at
    the gain it has and washes in again. *)
Lemma triggerGestureFX_retrigger_witness :
  initialised mid_decay = true /\
  option_map (@events float)
    (target_param ReverbSendGain (triggerGestureFX "reverb" mid_decay))
  = Some [ SetValueEvent (lit 0) (lit 1);
           LinearRampEvent (lit 1.0) (PrimFloat.add (lit 1) (lit 0.1));
           SetValueEvent (lit 0.5) (lit 1.5);
           LinearRampEvent (lit 1.0) (PrimFloat.add (lit 1.5) (lit 0.1));
           ExponentialRampEvent (lit 0.01)
             (PrimFloat.add (lit 1.5) (lit 2.0)) ].
Proof.
  split; [reflexivity |].
  destruct (@triggerGestureFX_retrigger mid_decay "reverb" ReverbSendGain
              (fun now =>
                 [ LinearRampEvent (lit 1.0) (PrimFloat.add now (lit 0.1));
                   ExponentialRampEvent (lit 0.01)
                     (PrimFloat.add now (lit 2.0)) ])
              eq_refl eq_refl)
    as (c & p & Hc & Hp & Hp' & _).
  rewrite Hp'. clear Hp'.
  assert (Ec : c = {| currentTime := lit 1.5; sampleRate := lit 44100;
                      state := running |}) by (vm_compute in Hc; vm_compute; congruence).
  assert (Ep : p = {| value := lit 0.5;
                      events :=
                        [ SetValueEvent (lit 0) (lit 1);
                          LinearRampEvent (lit 1.0)
                            (PrimFloat.add (lit 1) (lit 0.1));
                          ExponentialRampEvent (lit 0.01)
                            (PrimFloat.add (lit 1) (lit 2.0)) ] |})
    by (vm_compute in Hp; vm_compute; congruence).
  rewrite Ec, Ep. reflexivity.
Defined.

(** ** The custom sample *)

Section CustomSample.
Context {N : Type} `{JsNumber N}.

Lemma init_has_context (fresh : AudioContext N) (e : Engine N) :
  exists c,
    ctx (match ctx e with None => init fresh e | Some _ => e end) = Some c.
Proof.
  destruct (ctx e) eqn:E; [eauto |].
  unfold init. rewrite E. cbn. destruct (state fresh); cbn; eauto.
Qed.

Lemma init_keeps_sample (fresh : AudioContext N) (e : Engine N) :
  customBuffer (init fresh e) = customBuffer e /\
  isCustomMuted (init fresh e) = isCustomMuted e.
Proof.
  unfold init. destruct (ctx e) as [c |] eqn:E.
  - rewrite E. destruct (state c); auto.
  - cbn. destruct (state fresh); auto.
Qed.

(** C9.  Whatever the data, if the decoder accepts it, the load leaves
    the decoded buffer in place and the mute flag clear, whatever the
    flag was before; and so does the tail of the load after the decoder
    has answered, from whatever state the engine is in then. *)
Theorem loadCustomSample_unmutes (fresh : AudioContext N)
    (decodeAudioData : ArrayBuffer -> Exn + AudioBuffer N)
    (arrayBuffer : ArrayBuffer) (decoded : AudioBuffer N) (e : Engine N) :
  decodeAudioData arrayBuffer = inr decoded ->
  let e' := fst (loadCustomSample fresh decodeAudioData arrayBuffer e) in
  isCustomMuted e' = false /\
  customBuffer e' = Some decoded /\
  (forall resumed : Engine N,
     isCustomMuted (fst (loadCustomSample_decoded (inr decoded) resumed))
     = false).
Proof.
  intros Hdec. unfold loadCustomSample. rewrite Hdec.
  destruct (init_has_context fresh e) as [c ->]. cbn. auto.
Qed.

(** C10, as the code has it.  If the decoder rejects the data, the load
    returns normally, the sample buffer and the mute flag are what they
    were, and the engine is otherwise unchanged except that an engine
    that had no context yet has been initialised on the way: an engine
    that had one is left exactly as it was. *)
Theorem loadCustomSample_decode_failure (fresh : AudioContext N)
    (decodeAudioData : ArrayBuffer -> Exn + AudioBuffer N)
    (arrayBuffer : ArrayBuffer) (error : Exn) (e : Engine N) :
  decodeAudioData arrayBuffer = inl error ->
  let r := loadCustomSample fresh decodeAudioData arrayBuffer e in
  customBuffer (fst r) = customBuffer e /\
  isCustomMuted (fst r) = isCustomMuted e /\
  outcome (snd r) = inr tt /\
  fst r = match ctx e with None => init fresh e | Some _ => e end /\
  (ctx e <> None -> fst r = e).
Proof.
  intros Hdec. unfold loadCustomSample. rewrite Hdec.
  destruct (init_has_context fresh e) as [c Hc]. rewrite Hc. cbn.
  destruct (ctx e) eqn:E.
  - repeat split.
  - destruct (init_keeps_sample fresh e) as [Hbuf Hmute].
    repeat split; congruence.
Qed.

End CustomSample.

(** Muted, then a sample is loaded: unmuted, and the custom voice of the
    step sounds. *)
Lemma loadCustomSample_unmutes_witness :
  let muted := muteCustomTrack true demo_engine in
  let loaded := fst (loadCustomSample demo_context accept_all [] muted) in
  isCustomMuted muted = true /\
  isCustomMuted loaded = false /\
  List.length (voices_of Custom (logged (scheduleStep loaded 3 (lit 1.475))))
  = 1%nat.
Proof.
  cbn zeta. split; [reflexivity |]. split.
  - exact (proj1 (@loadCustomSample_unmutes float _ demo_context accept_all
                    [] decoded_sample (muteCustomTrack true demo_engine)
                    eq_refl)).
  - reflexivity.
Defined.

(** A rejected file on a running engine changes nothing. *)
Lemma loadCustomSample_decode_failure_witness :
  fst (loadCustomSample demo_context reject_all [] demo_engine)
  = demo_engine.
Proof.
  refine (proj2 (proj2 (proj2 (proj2
            (@loadCustomSample_decode_failure float _ demo_context reject_all
               [] (EncodingError "Unable to decode audio data") demo_engine
               eq_refl)))) _).
  discriminate.
Defined.

(** C10, as stated, fails on an engine that was never initialised: the
    decoder rejects the data, and the engine comes back with a context
    and a graph. *)
Lemma loadCustomSample_failure_initialises :
  let r := loadCustomSample demo_context reject_all [] new_engine in
  outcome (snd r) = inr tt /\
  initialised (new_engine : Engine float) = false /\
  initialised (fst r) = true /\
  fst r <> new_engine.
Proof.
  cbn zeta. split; [reflexivity |]. split; [reflexivity |].
  split; [reflexivity |].
  intros E. apply (f_equal (@initialised float)) in E. discriminate.
Qed.

(* ================================================================== *)
(** * More of the engine: what its code guarantees beyond the
      specification's statements *)
(* ================================================================== *)

(** ** Initialisation *)

Section InitOnce.
Context {N : Type} `{JsNumber N}.

Lemma init_running (fresh : AudioContext N) (e : Engine N) :
  exists c, ctx (init fresh e) = Some c /\ state c <> suspended.
Proof.
  unfold init. destruct (ctx e) as [c |] eqn:Hc.
  - rewrite Hc. destruct (state c) eqn:Hs.
    + eexists. split; [reflexivity | discriminate].
    + exists c. split; [assumption | congruence].
    + exists c. split; [assumption | congruence].
  - cbn. destruct (state fresh) eqn:Hs.
    + eexists. split; [reflexivity | discriminate].
    + exists fresh. split; [reflexivity | congruence].
    + exists fresh. split; [reflexivity | congruence].
Qed.

Lemma init_again (fresh fresh' : AudioContext N) (e : Engine N) :
  init fresh' (init fresh e) = init fresh e.
Proof.
  destruct (init_running fresh e) as (c & Hc & Hs).
  set (e1 := init fresh e) in *. unfold init. rewrite Hc. cbv zeta. rewrite Hc.
  destruct (state c); congruence.
Qed.

Lemma init_session_frame (fresh : AudioContext N) (e : Engine N) :
  let e' := init fresh e in
  nextNoteTime e' = nextNoteTime e /\ currentStep e' = currentStep e /\
  isPlaying e' = isPlaying e /\ timerID e' = timerID e /\
  trackData e' = trackData e /\ customBuffer e' = customBuffer e /\
  isCustomMuted e' = isCustomMuted e /\
  tempoModifier e' = tempoModifier e /\
  bassDistortionActive e' = bassDistortionActive e /\
  onStep e' = onStep e /\ mediaRecorder e' = mediaRecorder e /\
  recordedChunks e' = recordedChunks e.
Proof.
  unfold init. destruct (ctx e) as [c |] eqn:Hc.
  - rewrite Hc. destruct (state c); cbn; tauto.
  - cbn. destruct (state fresh); cbn; tauto.
Qed.

Lemma init_graph_frame (fresh : AudioContext N) (e : Engine N) :
  ctx e <> None ->
  let e' := init fresh e in
  masterGain e' = masterGain e /\ masterFilter e' = masterFilter e /\
  reverbSend e' = reverbSend e /\ delaySend e' = delaySend e /\
  distortionSend e' = distortionSend e /\
  distortionNode e' = distortionNode e /\ wiring e' = wiring e.
Proof.
  unfold init. destruct (ctx e) as [c |] eqn:Hc; [| congruence].
  intros _. rewrite Hc. destruct (state c); cbn; tauto.
Qed.

(** X1.  [init] builds the graph once.  From any state in which the nodes
    come with the context, [init] leaves the engine initialised with a
    context that is not suspended; a second [init] changes nothing; the
    track, the clock, the sample, the mute flag and the modifiers are
    kept; and on an engine that already had its context, the nodes and
    their automation are kept too (gestures and volume survive). *)
Theorem init_once (fresh fresh' : AudioContext N) (e : Engine N) :
  graph_ok e ->
  let e' := init fresh e in
  initialised e' = true /\
  init fresh' e' = e' /\
  (exists c, ctx e' = Some c /\ state c <> suspended) /\
  nextNoteTime e' = nextNoteTime e /\ currentStep e' = currentStep e /\
  isPlaying e' = isPlaying e /\ trackData e' = trackData e /\
  customBuffer e' = customBuffer e /\ isCustomMuted e' = isCustomMuted e /\
  tempoModifier e' = tempoModifier e /\
  bassDistortionActive e' = bassDistortionActive e /\
  (ctx e <> None ->
   masterGain e' = masterGain e /\ masterFilter e' = masterFilter e /\
   reverbSend e' = reverbSend e /\ delaySend e' = delaySend e /\
   distortionSend e' = distortionSend e /\ wiring e' = wiring e).
Proof.
  intros Hok. cbn zeta.
  pose proof (init_session_frame fresh e) as Hs. cbn zeta in Hs.
  split; [now apply init_initialised |].
  split; [apply init_again |].
  split; [apply init_running |].
  repeat (split; [tauto |]).
  intros Hctx. pose proof (@init_graph_frame fresh e Hctx) as Hg.
  cbn zeta in Hg. tauto.
Qed.

End InitOnce.

(** A second [init], after a gesture: the reverb tail it scheduled is
    still there. *)
Lemma init_once_witness :
  initialised (init demo_context mid_decay) = true /\
  reverbSend (init demo_context mid_decay) = reverbSend mid_decay.
Proof.
  destruct (@init_once float float_JsNumber demo_context demo_context mid_decay
              (or_intror eq_refl))
    as (Hinit & _ & _ & _ & _ & _ & _ & _ & _ & _ & _ & Hgraph).
  split; [exact Hinit |].
  exact (proj1 (proj2 (proj2 (Hgraph ltac:(discriminate))))).
Defined.

(** ** The scheduler loop *)

Section Loop.
Context {N : Type} `{JsNumber N}.
Local Open Scope js_scope.

(** Dispatch does not read the clock fields of the engine. *)
Lemma scheduleStep_nextStep (e : Engine N) step time :
  scheduleStep (nextStep e) step time = scheduleStep e step time.
Proof. unfold nextStep. destruct (trackData e); reflexivity. Qed.

Lemma drain_unfold fuel now (e : Engine N) :
  drain fuel now e =
  if (nextNoteTime e <? now + lit 0.1)%js then
    match fuel with
    | O => None
    | S fuel' =>
        match scheduleStep e (currentStep e) (nextNoteTime e) with
        | (l, inl ex) => Some (e, (l, inl ex))
        | (l, inr _) =>
            match drain fuel' now (nextStep e) with
            | Some (e', (l', r)) => Some (e', ((l ++ l')%list, r))
            | None => None
            end
        end
    end
  else Some (e, ret tt).
Proof. destruct fuel; reflexivity. Qed.

(** Where the loop stops, the engine is the one it started from, advanced
    some number of steps. *)
Lemma drain_state fuel now (e e' : Engine N) r :
  drain fuel now e = Some (e', r) ->
  exists k, (k <= fuel)%nat /\ e' = Nat.iter k nextStep e.
Proof.
  revert e e' r. induction fuel as [| fuel IH]; intros e e' r;
    rewrite drain_unfold; destruct (_ <? _)%js.
  - discriminate.
  - intros [= <- <-]. exists 0%nat. split; [lia | reflexivity].
  - destruct (scheduleStep _ _ _) as [l [ex | u]].
    + intros [= <- <-]. exists 0%nat. split; [lia | reflexivity].
    + destruct (drain fuel now (nextStep e)) as [[e'' [l' r']] |] eqn:E;
        [| discriminate].
      intros [= <- <-]. destruct (IH _ _ _ E) as (k & Hk & ->).
      exists (S k). split; [lia |]. now rewrite Nat.iter_succ_r.
  - intros [= <- <-]. exists 0%nat. split; [lia | reflexivity].
Qed.

(** X2.  What one run of the scheduler loop does when it ends normally:
    it dispatched some number [k] of steps, each one due (its time
    before the clock reading plus the 0.1 s lookahead) and returning
    normally, in order, each from the engine the previous advance left;
    the engine ends advanced [k] times, on a step that is no longer
    due. *)
Theorem drain_spec fuel now (e e' : Engine N) l :
  drain fuel now e = Some (e', (l, inr tt)) ->
  exists k,
    (k <= fuel)%nat /\
    e' = Nat.iter k nextStep e /\
    l = dispatched k e /\
    (nextNoteTime e' <? now + lit 0.1)%js = false /\
    forall i, (i < k)%nat ->
      let ei := Nat.iter i nextStep e in
      (nextNoteTime ei <? now + lit 0.1)%js = true /\
      outcome (scheduleStep ei (currentStep ei) (nextNoteTime ei)) = inr tt.
Proof.
  revert e e' l. induction fuel as [| fuel IH]; intros e e' l;
    rewrite drain_unfold; destruct (_ <? _)%js eqn:Hdue.
  - discriminate.
  - intros [= <- <-]. exists 0%nat.
    split; [lia |]. split; [reflexivity |]. split; [reflexivity |].
    split; [assumption |]. intros i Hi. lia.
  - destruct (scheduleStep _ _ _) as [l1 [ex | u]] eqn:Hstep.
    + discriminate.
    + destruct (drain fuel now (nextStep e)) as [[e'' [l' r']] |] eqn:E;
        [| discriminate].
      intros [= <- <- ->].
      destruct (IH _ _ _ E) as (k & Hk & -> & -> & Hend & Hall).
      exists (S k). split; [lia |]. rewrite Nat.iter_succ_r.
      split; [reflexivity |]. split; [cbn; now rewrite Hstep |].
      split; [assumption |].
      intros [| i] Hi.
      * cbn. rewrite Hstep. destruct u. auto.
      * rewrite Nat.iter_succ_r. apply Hall. lia.
  - intros [= <- <-]. exists 0%nat.
    split; [lia |]. split; [reflexivity |]. split; [reflexivity |].
    split; [assumption |]. intros i Hi. lia.
Qed.

(** X4.  If adding the step length leaves the next-trigger time where it
    was while a step is due, and no step throws, the loop has no end:
    whatever the number of rounds allowed, it is not enough. *)
Theorem drain_stuck (e : Engine N) td now :
  trackData e = Some td ->
  nextNoteTime e + lit 0.25 * (lit 60.0 / (bpm td * tempoModifier e))
  = nextNoteTime e ->
  (nextNoteTime e <? now + lit 0.1)%js = true ->
  (forall step, outcome (scheduleStep e step (nextNoteTime e)) = inr tt) ->
  forall fuel, drain fuel now e = None.
Proof.
  intros Htd Hsame Hdue Hquiet fuel. revert e Htd Hsame Hdue Hquiet.
  induction fuel as [| fuel IH]; intros e Htd Hsame Hdue Hquiet;
    rewrite drain_unfold, Hdue; [reflexivity |].
  pose proof (Hquiet (currentStep e)) as Hq.
  destruct (scheduleStep _ _ _) as [l [ex | u]]; [discriminate |].
  assert (Ht : nextNoteTime (nextStep e) = nextNoteTime e).
  { rewrite (nextStep_loaded e Htd). cbn. exact Hsame. }
  destruct (nextStep_keeps e) as [Htd' Hm'].
  rewrite IH; [reflexivity | | | |].
  - now rewrite Htd'.
  - now rewrite Ht, Hm'.
  - now rewrite Ht.
  - intros step. rewrite Ht, scheduleStep_nextStep. apply Hquiet.
Qed.

End Loop.

(** Three steps are due a quarter of a second into the exact track: the
    loop dispatches them and stops on the fourth. *)
Lemma drain_spec_witness :
  exists k,
    (k <= 5)%nat /\
    Nat.iter 3 nextStep exact_playing = Nat.iter k nextStep exact_playing /\
    dispatched 3 exact_playing = dispatched k exact_playing /\
    Q_ltb (nextNoteTime (Nat.iter 3 nextStep exact_playing))
      ((1#4) + 0.1) = false.
Proof.
  assert (Hrun : drain 5 (1#4) exact_playing
                 = Some (Nat.iter 3 nextStep exact_playing,
                         (dispatched 3 exact_playing, inr tt)))
    by (vm_compute; reflexivity).
  destruct (@drain_spec _ _ _ _ _ _ _ Hrun) as (k & Hk & He & Hl & Hend & _).
  exists k. repeat split; assumption.
Defined.

(** At [10^18] bpm the step is shorter than the spacing of binary64
    numbers at 1.1 s: a thousand rounds do not end the loop of the runaway
    engine. *)
Lemma drain_stuck_witness :
  drain 1000 (lit 2) runaway_engine = None.
Proof.
  apply (@drain_stuck float float_JsNumber runaway_engine runaway_track
           (lit 2) eq_refl).
  - vm_compute. reflexivity.
  - vm_compute. reflexivity.
  - intros step. destruct step; reflexivity.
Defined.

(** ** The loop ends, in exact arithmetic *)

Section ExactLoop.
Local Open Scope Q_scope.

Lemma Q_ltb_false (a b : Q) : Q_ltb a b = false <-> b <= a.
Proof.
  unfold Q_ltb. rewrite negb_false_iff. apply Qle_bool_iff.
Qed.




End ExactLoop.


(** ** Play, stop and the timer *)




Section Stop.
Context {N : Type} `{JsNumber N}.

(** X6.  [stop] is a pause.  After it the timer's callback does nothing
    and arms no timer, whether or not [stop] could cancel it (a handle 0
    is not cancelled); a second [stop] changes nothing; the step index,
    the next-trigger time and the track stay, so that a later [play]
    goes on from the step it stopped at. *)
Theorem stop_pauses (e : Engine N) fuel id :
  let e' := fst (stop e) in
  isPlaying e' = false /\
  scheduler fuel id e' = Some (e', ret tt) /\
  fst (stop e') = e' /\
  currentStep e' = currentStep e /\ nextNoteTime e' = nextNoteTime e /\
  trackData e' = trackData e /\ timerID e' = timerID e /\
  logged (snd (stop e))
  = match timerID e with
    | Some i => if Nat.eqb i 0 then [] else [ClearTimeout i]
    | None => []
    end.
Proof.
  cbn zeta. unfold stop.
  cbn [timerID set_isPlaying].
  destruct (timerID e) as [i |] eqn:Hi; cbn [fst snd].
  - split; [reflexivity |]. split.
    { unfold scheduler. cbn [ctx trackData isPlaying set_isPlaying].
      destruct (ctx e), (trackData e); reflexivity. }
    split; [cbn [timerID set_isPlaying]; rewrite Hi; reflexivity |].
    repeat (split; [reflexivity |]).
    split; [exact Hi |]. destruct (Nat.eqb i 0); reflexivity.
  - split; [reflexivity |]. split.
    { unfold scheduler. cbn [ctx trackData isPlaying set_isPlaying].
      destruct (ctx e), (trackData e); reflexivity. }
    split; [cbn [timerID set_isPlaying]; rewrite Hi; reflexivity |].
    repeat (split; [reflexivity |]).
    split; [exact Hi | reflexivity].
Qed.

End Stop.

(** ** What a step logs *)

Section LogAll.
Context {N : Type} `{JsNumber N}.

Lemma log_all_ret {A} P (a : A) : log_all P (ret a : Run (Event N) A).
Proof. reflexivity. Qed.












End LogAll.


(** ** What holds in every state the engine reaches *)

Section Invariant.
Context {N : Type} `{JsNumber N}.

Lemma isSome_none {A} (o : option A) : o = None <-> isSome o = false.
Proof. destruct o; cbn; split; congruence. Qed.

Lemma isSome_some {A} (o : option A) : o <> None <-> isSome o = true.
Proof. destruct o; cbn; split; congruence. Qed.

Lemma session_ok_same (e e' : Engine N) :
  same_core e e' -> session_ok e -> session_ok e'.
Proof.
  unfold same_core, session_ok, graph_ok.
  rewrite !isSome_some, !isSome_none.
  intros (-> & -> & -> & -> & -> & -> & -> & ->). tauto.
Qed.

Lemma same_core_refl (e : Engine N) : same_core e e.
Proof. unfold same_core. tauto. Qed.

Lemma same_core_trans (e1 e2 e3 : Engine N) :
  same_core e1 e2 -> same_core e2 e3 -> same_core e1 e3.
Proof. unfold same_core. intuition congruence. Qed.

Ltac core := unfold same_core, initialised; cbn; tauto.

Lemma same_core_tick_clock t s (e : Engine N) : same_core e (tick_clock t s e).
Proof.
  unfold tick_clock. destruct (ctx e) eqn:Hc; [| apply same_core_refl].
  unfold same_core, initialised. cbn. rewrite Hc. cbn. tauto.
Qed.

Lemma same_core_setVolume level (e : Engine N) : same_core e (setVolume level e).
Proof.
  unfold setVolume. destruct (masterGain e) eqn:Hg; [| apply same_core_refl].
  destruct (ctx e) eqn:Hc; [| apply same_core_refl].
  unfold same_core, initialised. cbn. rewrite Hg, Hc. cbn. tauto.
Qed.

Lemma same_core_triggerGestureFX token (e : Engine N) :
  same_core e (triggerGestureFX token e).
Proof.
  unfold triggerGestureFX, triggerReverb, triggerLowPass, triggerDistortion,
    triggerDelay.
  destruct (ctx e) eqn:Hc; [| apply same_core_refl].
  repeat match goal with
         | |- context [if ?b then _ else _] => destruct b
         end; try apply same_core_refl.
  - destruct (reverbSend e) eqn:E; [| apply same_core_refl].
    unfold same_core, initialised. cbn. rewrite E. cbn. tauto.
  - destruct (masterFilter e) eqn:E; [| apply same_core_refl].
    unfold same_core, initialised. cbn. rewrite E. cbn. tauto.
  - destruct (distortionSend e) eqn:E; [| apply same_core_refl].
    unfold same_core, initialised. cbn. rewrite E. cbn. tauto.
  - destruct (delaySend e) eqn:E; [| apply same_core_refl].
    unfold same_core, initialised. cbn. rewrite E. cbn. tauto.
Qed.

Lemma same_core_decoded r (e : Engine N) :
  same_core e (fst (loadCustomSample_decoded r e)).
Proof. destruct r; cbn; [apply same_core_refl | core]. Qed.

Lemma same_core_ondataavailable data (e : Engine N) :
  same_core e (ondataavailable data e).
Proof. destruct data; cbn; [apply same_core_refl | core]. Qed.

Lemma session_ok_init fresh (e : Engine N) :
  session_ok e -> session_ok (init fresh e).
Proof.
  intros (Hg & Hs & Hp & Ht & Hr & Hd).
  pose proof (@init_initialised _ _ fresh e Hg) as Hi.
  destruct (init_session_frame fresh e)
    as (_ & E2 & E3 & _ & E5 & _ & _ & E8 & _ & _ & E11 & _).
  destruct (init_running fresh e) as (c & Hc & _).
  assert (Hdest : isSome (dest (init fresh e)) = true).
  { unfold init. destruct (ctx e) as [c0 |] eqn:Hc0.
    - rewrite Hc0. cbn in Hd. destruct (state c0); cbn; exact Hd.
    - cbn. destruct (state fresh); reflexivity. }
  unfold session_ok.
  split; [now right |]. split; [now rewrite E2 |].
  split; [intros Hplay; split; [exact Hi |];
          rewrite E5; apply Hp; now rewrite <- E3 |].
  split; [now rewrite E8 |].
  split; [intros _; now apply isSome_some |].
  now rewrite Hdest, Hc.
Qed.

Lemma session_ok_nextStep (e : Engine N) :
  session_ok e -> session_ok (nextStep e).
Proof.
  intros Hok. pose proof (@nextStep_step_bound _ _ e) as Hb.
  destruct Hok as (Hg & Hs & Hp & Ht & Hr & Hd).
  specialize (Hb Hs). unfold session_ok.
  unfold nextStep in *. destruct (trackData e) eqn:Htd; [| tauto].
  unfold session_ok, graph_ok, initialised in *. cbn in *. rewrite Htd.
  split; [exact Hg |]. split; [exact Hb |].
  split; [intros Hplay; split; [apply (Hp Hplay) | discriminate] |].
  tauto.
Qed.

Lemma session_ok_iter k (e : Engine N) :
  session_ok e -> session_ok (Nat.iter k nextStep e).
Proof.
  intros Hok. induction k as [| k IH]; [exact Hok |].
  rewrite Nat.iter_succ. now apply session_ok_nextStep.
Qed.

Lemma session_ok_scheduler fuel id (e e' : Engine N) r :
  session_ok e -> scheduler fuel id e = Some (e', r) -> session_ok e'.
Proof.
  intros Hok. unfold scheduler.
  destruct (ctx e), (trackData e), (isPlaying e);
    try (intros [= <- <-]; exact Hok).
  destruct (drain fuel _ e) as [[e1 [l [ex | u]]] |] eqn:E; [| | discriminate].
  - intros [= <- <-]. destruct (drain_state _ _ _ E) as (k & _ & ->).
    now apply session_ok_iter.
  - intros [= <- <-]. destruct (drain_state _ _ _ E) as (k & _ & ->).
    eapply session_ok_same; [| apply (session_ok_iter k), Hok]. core.
Qed.

(** X8.  In every state the public methods, the timer, the recorder's
    data handler and the device clock can bring the engine to: the nodes
    are there whenever the context is; the step index is one of the
    sixteen; a playing engine is initialised and has a track; the tempo
    modifier is 1 or a clamped value; a recorder exists only with the
    recording destination, and that destination exists exactly when the
    context does. *)
Theorem reachable_session_ok (e : Engine N) :
  reachable e -> session_ok e.
Proof.
  induction 1 as
    [ | t s e _ IH | cb e _ IH | fresh e _ IH
    | fresh decode buf e _ IH | r e _ IH Hc | mute e _ IH | data e _ IH
    | fuel id e e' r _ IH Hplay | fuel id e e' r _ IH Hsched | e _ IH
    | opus e _ IH | data e _ IH | flushed e _ IH | level e _ IH
    | x e _ IH | active e _ IH | token e _ IH ].
  - (* new *)
    unfold session_ok, graph_ok. cbn.
    split; [now left |]. split; [lia |]. split; [discriminate |].
    split; [now left |]. split; [intros Hn; now elim Hn | reflexivity].
  - eapply session_ok_same; [apply same_core_tick_clock | exact IH].
  - eapply session_ok_same; [| exact IH]. core.
  - now apply session_ok_init.
  - (* loadCustomSample *)
    unfold loadCustomSample.
    destruct (ctx e) eqn:Hc.
    + rewrite Hc.
      eapply session_ok_same; [apply same_core_decoded | exact IH].
    + destruct (ctx (init fresh e)) eqn:Hc'.
      * eapply session_ok_same; [apply same_core_decoded |].
        now apply session_ok_init.
      * cbn. now apply session_ok_init.
  - eapply session_ok_same; [apply same_core_decoded | exact IH].
  - eapply session_ok_same; [| exact IH]. core.
  - (* loadTrack *)
    destruct IH as (Hg & Hs & Hp & Ht & Hr & Hd).
    unfold session_ok, graph_ok, initialised in *. cbn.
    split; [exact Hg |]. split; [lia |].
    split; [intros Hplay; split; [apply (Hp Hplay) | discriminate] |].
    tauto.
  - (* play *)
    unfold play in Hplay.
    destruct (ctx e) as [c |] eqn:Hc; [| injection Hplay as <- _; exact IH].
    destruct (trackData e) as [td |] eqn:Htd;
      [| injection Hplay as <- _; exact IH].
    eapply session_ok_scheduler; [| exact Hplay].
    destruct IH as (Hg & Hs & Hp & Ht & Hr & Hd).
    assert (Hi : initialised e = true).
    { destruct Hg as [Hn | Hi]; [congruence | exact Hi]. }
    unfold session_ok, graph_ok, initialised in *. cbn.
    rewrite Htd.
    split; [exact Hg |]. split; [exact Hs |].
    split; [intros _; split; [exact Hi | discriminate] |].
    tauto.
  - eapply session_ok_scheduler; eassumption.
  - (* stop *)
    unfold stop. cbn [timerID set_isPlaying].
    destruct (timerID e); cbn [fst];
      destruct IH as (Hg & Hs & Hp & Ht & Hr & Hd);
      unfold session_ok, graph_ok, initialised in *; cbn;
      (split; [exact Hg |]); (split; [exact Hs |]);
      (split; [discriminate |]); tauto.
  - (* startRecording *)
    unfold startRecording. destruct (dest e) eqn:Hdst; [| exact IH].
    destruct IH as (Hg & Hs & Hp & Ht & Hr & Hd).
    unfold session_ok, graph_ok, initialised in *. cbn.
    rewrite Hdst in *.
    split; [exact Hg |]. split; [exact Hs |]. split; [exact Hp |].
    split; [exact Ht |]. split; [discriminate | exact Hd].
  - eapply session_ok_same; [apply same_core_ondataavailable | exact IH].
  - (* stopRecording *)
    unfold stopRecording. destruct (mediaRecorder e) as [rec |] eqn:Hrec;
      [| exact IH].
    destruct (recording rec); [| exact IH]. cbn [fst].
    eapply session_ok_same;
      [| eapply session_ok_same;
         [apply (same_core_ondataavailable flushed) | exact IH]].
    unfold same_core, initialised. cbn.
    assert (Hm : mediaRecorder (ondataavailable flushed e) = mediaRecorder e)
      by (destruct flushed; reflexivity).
    rewrite Hm, Hrec. cbn. tauto.
  - eapply session_ok_same; [apply same_core_setVolume | exact IH].
  - (* setTempoModifier *)
    destruct IH as (Hg & Hs & Hp & Ht & Hr & Hd).
    unfold session_ok, graph_ok, initialised in *. cbn.
    split; [exact Hg |]. split; [exact Hs |]. split; [exact Hp |].
    split; [right; exists x; reflexivity |]. tauto.
  - eapply session_ok_same; [| exact IH]. core.
  - eapply session_ok_same; [apply same_core_triggerGestureFX | exact IH].
Qed.

End Invariant.

(** The demo engine, initialised and loaded, is such a state. *)
Lemma reachable_session_ok_witness : session_ok demo_engine.
Proof.
  apply reachable_session_ok.
  apply reach_loadTrack, reach_init, reach_new.
Defined.
